(** * The priority task runner of the agent services

    A shallow embedding of [apps/agent-services/task_runners/service.py]
    ([Task], [TaskQueue], [TaskRunner]) and the properties of its
    scheduling, retry and bookkeeping logic.

    Conventions of the embedding.
    - Python [Task] objects are shared by reference between the queue
      lanes and the two tables of the runner.  They live in an object
      store ([heap], a finite map from references to [Task] records);
      lanes and tables hold references.
    - [datetime.utcnow()] is an input [now : Z] of the operation that
      reads the clock; [generate_task_id()] (a random UUID) is an input
      of [submit_task].
    - The bound work (the call of [task.function] on the task's
      arguments) is opaque: what one call does is the [Outcome]
      supplied for that attempt.
    - Code between two suspension points of the event loop runs
      atomically.  [_execute_task] suspends only inside an awaited
      coroutine function, so it is split there in two halves.
    - Logging and the metrics counters do not influence control flow
      and are left out. *)

From Stdlib Require Import ZArith.
From stdpp Require Import gmap strings list fin_maps sorting.

Local Open Scope Z_scope.

(** ** Data model *)

Inductive TaskStatus :=
  | PENDING | RUNNING | COMPLETED | FAILED | CANCELLED | RETRYING.

Inductive TaskPriority := LOW | MEDIUM | HIGH | URGENT.

#[global] Instance TaskStatus_eq_dec : EqDecision TaskStatus.
Proof. solve_decision. Defined.

#[global] Instance TaskPriority_eq_dec : EqDecision TaskPriority.
Proof. solve_decision. Defined.

(** The [.value] of the two enumerations. *)
Definition status_value (s : TaskStatus) : string :=
  match s with
  | PENDING => "pending" | RUNNING => "running" | COMPLETED => "completed"
  | FAILED => "failed" | CANCELLED => "cancelled" | RETRYING => "retrying"
  end.

Definition priority_value (p : TaskPriority) : string :=
  match p with
  | LOW => "low" | MEDIUM => "medium" | HIGH => "high" | URGENT => "urgent"
  end.

(** Python values that a task can return or that a status record holds.
    [PyIso t] is the ISO-8601 text of the time stamp [t]. *)
#[warnings="-register-all"]
Inductive PyValue :=
  | PyNone
  | PyInt (z : Z)
  | PyStr (s : string)
  | PyIso (t : Z)
  | PyDict (items : list (string * PyValue)).

(** What one call of the bound work does: it returns a value, or it
    raises an [Exception] whose [str(e)] is [msg]. *)
Inductive Outcome :=
  | Returned (v : PyValue)
  | Raised (msg : string).

(** The callable with its bound arguments; [iscoroutinefunction] is what
    [asyncio.iscoroutinefunction(task.function)] answers. *)
Record Callable := mkCallable {
  iscoroutinefunction : bool;
  qualname : string
}.

Record Task := mkTask {
  task_id : string;
  name : string;
  function : Callable;
  priority : TaskPriority;
  status : TaskStatus;
  created_at : Z;
  started_at : option Z;
  completed_at : option Z;
  result : PyValue;
  error : option string;
  retries : Z;
  max_retries : Z
}.

(** Attribute assignments [task.f = v]. *)
Definition set_status (s : TaskStatus) (t : Task) : Task :=
  mkTask (task_id t) (name t) (function t) (priority t) s (created_at t)
         (started_at t) (completed_at t) (result t) (error t) (retries t)
         (max_retries t).

Definition set_started_at (v : option Z) (t : Task) : Task :=
  mkTask (task_id t) (name t) (function t) (priority t) (status t)
         (created_at t) v (completed_at t) (result t) (error t) (retries t)
         (max_retries t).

Definition set_completed_at (v : option Z) (t : Task) : Task :=
  mkTask (task_id t) (name t) (function t) (priority t) (status t)
         (created_at t) (started_at t) v (result t) (error t) (retries t)
         (max_retries t).

Definition set_result (v : PyValue) (t : Task) : Task :=
  mkTask (task_id t) (name t) (function t) (priority t) (status t)
         (created_at t) (started_at t) (completed_at t) v (error t)
         (retries t) (max_retries t).

Definition set_error (v : option string) (t : Task) : Task :=
  mkTask (task_id t) (name t) (function t) (priority t) (status t)
         (created_at t) (started_at t) (completed_at t) (result t) v
         (retries t) (max_retries t).

Definition set_retries (v : Z) (t : Task) : Task :=
  mkTask (task_id t) (name t) (function t) (priority t) (status t)
         (created_at t) (started_at t) (completed_at t) (result t) (error t)
         v (max_retries t).

(** [Task.to_dict]: the status record, keys in the order of the source. *)
Definition iso_or_none (d : option Z) : PyValue :=
  match d with Some t => PyIso t | None => PyNone end.

Definition str_or_none (s : option string) : PyValue :=
  match s with Some m => PyStr m | None => PyNone end.

Definition to_dict (t : Task) : list (string * PyValue) :=
  [ ("task_id", PyStr (task_id t));
    ("name", PyStr (name t));
    ("priority", PyStr (priority_value (priority t)));
    ("status", PyStr (status_value (status t)));
    ("created_at", PyIso (created_at t));
    ("started_at", iso_or_none (started_at t));
    ("completed_at", iso_or_none (completed_at t));
    ("result", result t);
    ("error", str_or_none (error t));
    ("retries", PyInt (retries t));
    ("max_retries", PyInt (max_retries t)) ].

(** ** TaskQueue: one FIFO lane of task references per priority *)

Record TaskQueue := mkQueue {
  urgent : list nat;
  high : list nat;
  medium : list nat;
  low : list nat
}.

(** [self.queues[p]] *)
Definition lane (p : TaskPriority) (q : TaskQueue) : list nat :=
  match p with
  | URGENT => urgent q | HIGH => high q | MEDIUM => medium q | LOW => low q
  end.

Definition set_lane (p : TaskPriority) (l : list nat) (q : TaskQueue) : TaskQueue :=
  match p with
  | URGENT => mkQueue l (high q) (medium q) (low q)
  | HIGH => mkQueue (urgent q) l (medium q) (low q)
  | MEDIUM => mkQueue (urgent q) (high q) l (low q)
  | LOW => mkQueue (urgent q) (high q) (medium q) l
  end.

(** [TaskQueue.__init__] *)
Definition TaskQueue_init : TaskQueue := mkQueue [] [] [] [].

(** [TaskQueue.put]: [self.queues[task.priority].put(task)] on an
    unbounded [asyncio.Queue], which never waits. *)
Definition TaskQueue_put (t : Task) (r : nat) (q : TaskQueue) : TaskQueue :=
  set_lane (priority t) (lane (priority t) q ++ [r]) q.

(** The order in which both loops of [TaskQueue.get] visit the lanes. *)
Definition scan_order : list TaskPriority := [URGENT; HIGH; MEDIUM; LOW].

Fixpoint scan (ps : list TaskPriority) (q : TaskQueue) : option (nat * TaskQueue) :=
  match ps with
  | [] => None
  | p :: ps' =>
      match lane p q with
      | r :: rest => Some (r, set_lane p rest q)
      | [] => scan ps' q
      end
  end.

(** [TaskQueue.get]: the reference taken and the queue left behind.
    [None] is the case in which every lane is empty: the caller sleeps
    and scans again, in the same order, until a lane has a task. *)
Definition TaskQueue_get (q : TaskQueue) : option (nat * TaskQueue) :=
  scan scan_order q.

(** All queued references, in the order in which [get] would hand them
    out if nothing were put in between. *)
Definition queued (q : TaskQueue) : list nat :=
  urgent q ++ high q ++ medium q ++ low q.

(** [n] successive [get]s. *)
Fixpoint drain (n : nat) (q : TaskQueue) : list nat :=
  match n with
  | O => []
  | S n' =>
      match TaskQueue_get q with
      | Some (r, q') => r :: drain n' q'
      | None => []
      end
  end.

(** ** TaskRunner *)

(** A worker coroutine is suspended either in [task_queue.get()] or in
    the awaited work of the task it has claimed. *)
Inductive Worker :=
  | Polling
  | Executing (r : nat).

#[global] Instance Worker_eq_dec : EqDecision Worker.
Proof. solve_decision. Defined.

Record TaskRunner := mkRunner {
  max_workers : nat;
  task_queue : TaskQueue;
  active_tasks : gmap string nat;
  completed_tasks : gmap string nat;
  workers : list Worker;
  is_running : bool;
  heap : gmap nat Task
}.

Definition set_task_queue (q : TaskQueue) (rn : TaskRunner) : TaskRunner :=
  mkRunner (max_workers rn) q (active_tasks rn) (completed_tasks rn)
           (workers rn) (is_running rn) (heap rn).

Definition set_active_tasks (a : gmap string nat) (rn : TaskRunner) : TaskRunner :=
  mkRunner (max_workers rn) (task_queue rn) a (completed_tasks rn)
           (workers rn) (is_running rn) (heap rn).

Definition set_completed_tasks (c : gmap string nat) (rn : TaskRunner) : TaskRunner :=
  mkRunner (max_workers rn) (task_queue rn) (active_tasks rn) c
           (workers rn) (is_running rn) (heap rn).

Definition set_workers (ws : list Worker) (rn : TaskRunner) : TaskRunner :=
  mkRunner (max_workers rn) (task_queue rn) (active_tasks rn)
           (completed_tasks rn) ws (is_running rn) (heap rn).

Definition set_is_running (b : bool) (rn : TaskRunner) : TaskRunner :=
  mkRunner (max_workers rn) (task_queue rn) (active_tasks rn)
           (completed_tasks rn) (workers rn) b (heap rn).

Definition set_heap (h : gmap nat Task) (rn : TaskRunner) : TaskRunner :=
  mkRunner (max_workers rn) (task_queue rn) (active_tasks rn)
           (completed_tasks rn) (workers rn) (is_running rn) h.

(** [TaskRunner.__init__] *)
Definition TaskRunner_init (n : nat) : TaskRunner :=
  mkRunner n TaskQueue_init ∅ ∅ [] false ∅.

(** [TaskRunner.start] *)
Definition start (rn : TaskRunner) : TaskRunner :=
  if is_running rn then rn
  else set_workers (workers rn ++ replicate (max_workers rn) Polling)
         (set_is_running true rn).

(** [TaskRunner.submit_task]: the new [Task] object is allocated at a
    fresh reference and put into the lane of its priority. *)
Definition submit_task (new_id nm : string) (fn : Callable)
    (prio : TaskPriority) (maxr : Z) (now : Z) (rn : TaskRunner)
  : string * TaskRunner :=
  let t := mkTask new_id nm fn prio PENDING now None None PyNone None 0 maxr in
  let r := fresh (dom (heap rn)) in
  (new_id,
   set_task_queue (TaskQueue_put t r (task_queue rn))
     (set_heap (<[r:=t]> (heap rn)) rn)).

(** [TaskRunner._execute_task], up to the call of the work. *)
Definition _execute_task_begin (now : Z) (t : Task) : Task :=
  set_started_at (Some now) (set_status RUNNING t).

(** [TaskRunner._execute_task], from the outcome of the work on.  [r]
    is the reference of the task [t] that is read. *)
Definition _execute_task_end (now : Z) (o : Outcome) (r : nat) (t : Task)
    (rn : TaskRunner) : TaskRunner :=
  match o with
  | Returned v =>
      let t1 := set_completed_at (Some now)
                  (set_status COMPLETED (set_result v t)) in
      set_heap (<[r:=t1]> (heap rn)) rn
  | Raised msg =>
      let t1 := set_retries (retries t + 1) (set_error (Some msg) t) in
      if retries t1 <=? max_retries t1 then
        let t2 := set_status RETRYING t1 in
        set_task_queue (TaskQueue_put t2 r (task_queue rn))
          (set_heap (<[r:=t2]> (heap rn)) rn)
      else
        let t2 := set_completed_at (Some now) (set_status FAILED t1) in
        set_heap (<[r:=t2]> (heap rn)) rn
  end.

(** One pass of the loop of [TaskRunner._worker], first half: worker [w]
    takes a task from the queue, enters it in the active table and
    starts executing it.  [None]: the step cannot be taken (the runner
    is stopped, the worker is busy, or every lane is empty). *)
Definition _worker_claim (w : nat) (now : Z) (rn : TaskRunner) : option TaskRunner :=
  if is_running rn then
    match workers rn !! w with
    | Some Polling =>
        match TaskQueue_get (task_queue rn) with
        | Some (r, q') =>
            match heap rn !! r with
            | Some t =>
                Some (set_workers (<[w:=Executing r]> (workers rn))
                       (set_heap (<[r:=_execute_task_begin now t]> (heap rn))
                         (set_active_tasks (<[task_id t:=r]> (active_tasks rn))
                           (set_task_queue q' rn))))
            | None => None
            end
        | None => None
        end
    | _ => None
    end
  else None.

(** Second half: the work of worker [w] has ended with outcome [o];
    the rest of [_execute_task] runs, then the lines of [_worker] after
    it, and the worker is back at the head of its loop. *)
Definition _worker_settle (w : nat) (now : Z) (o : Outcome) (rn : TaskRunner)
  : option TaskRunner :=
  match workers rn !! w with
  | Some (Executing r) =>
      match heap rn !! r with
      | Some t =>
          let rn1 := _execute_task_end now o r t rn in
          Some (set_workers (<[w:=Polling]> (workers rn1))
                 (set_completed_tasks (<[task_id t:=r]> (completed_tasks rn1))
                   (set_active_tasks (delete (task_id t) (active_tasks rn1)) rn1)))
      | None => None
      end
  | _ => None
  end.

(** A whole pass without suspension in between (a synchronous work
    function, or a coroutine that does not yield). *)
Definition _worker_iteration (w : nat) (now now' : Z) (o : Outcome)
    (rn : TaskRunner) : option TaskRunner :=
  match _worker_claim w now rn with
  | Some rn1 => _worker_settle w now' o rn1
  | None => None
  end.

(** [TaskRunner.cancel_task] *)
Definition cancel_task (tid : string) (now : Z) (rn : TaskRunner)
  : bool * TaskRunner :=
  match active_tasks rn !! tid with
  | Some r =>
      (true,
       set_heap (alter (fun t => set_completed_at (Some now)
                                   (set_status CANCELLED t)) r (heap rn)) rn)
  | None => (false, rn)
  end.

(** [TaskRunner.get_task_status]; [None] is Python's [None]. *)
Definition get_task_status (tid : string) (rn : TaskRunner)
  : option (list (string * PyValue)) :=
  match active_tasks rn !! tid with
  | Some r => to_dict <$> (heap rn !! r)
  | None =>
      match completed_tasks rn !! tid with
      | Some r => to_dict <$> (heap rn !! r)
      | None => None
      end
  end.

(** ** TaskRunner.stop

    [stop] cancels every worker and awaits them all with
    [asyncio.gather].  A worker suspended in [task_queue.get()] ends at
    once ([except asyncio.CancelledError: break]).  For a worker
    suspended in the work of a task, [CancelledError] is thrown into
    the work, and what the work does with it is the environment's
    choice. *)
Inductive CancelReaction :=
  | Propagates              (* the work lets CancelledError through *)
  | Finishes (o : Outcome)  (* the work swallows it and ends with [o] *)
  | Hangs.                  (* the work swallows it and never ends *)

(** Awaiting worker [w] after its cancellation.  [None]: the worker
    never terminates, so the await never returns. *)
Definition wind_down (react : nat -> CancelReaction) (now : Z) (w : nat)
    (rn : TaskRunner) : option TaskRunner :=
  match workers rn !! w with
  | Some (Executing r) =>
      match react w with
      | Propagates => Some rn
      | Finishes o => _worker_settle w now o rn
      | Hangs => None
      end
  | _ => Some rn
  end.

(** [await asyncio.gather( *self.workers, return_exceptions=True)] *)
Fixpoint gather (react : nat -> CancelReaction) (now : Z) (ws : list nat)
    (rn : TaskRunner) : option TaskRunner :=
  match ws with
  | [] => Some rn
  | w :: ws' =>
      match wind_down react now w rn with
      | Some rn' => gather react now ws' rn'
      | None => None
      end
  end.

(** [TaskRunner.stop].  The Python method returns nothing; [None] here
    means that the call never returns. *)
Definition stop (react : nat -> CancelReaction) (now : Z) (rn : TaskRunner)
  : option TaskRunner :=
  if is_running rn then
    match gather react now (seq 0 (length (workers rn)))
            (set_is_running false rn) with
    | Some rn' => Some (set_workers [] rn')
    | None => None
    end
  else Some rn.

(** ** Runs of the runner

    The operations that callers and workers perform on the runner, as
    events: [start], [submit_task], the two halves of a pass of a
    worker, and [cancel_task].  ([stop] is treated on its own, above.)
    A synchronous work function does not give control back to the
    event loop, so while a worker executes one, the only thing that can
    happen next is the end of that work.  A submission is an event only
    for an id that no task has yet: the ids come from [uuid.uuid4]. *)
Inductive Event :=
  | EvStart
  | EvSubmit (new_id nm : string) (fn : Callable) (prio : TaskPriority)
             (maxr now : Z)
  | EvClaim (w : nat) (now : Z)
  | EvSettle (w : nat) (now : Z) (o : Outcome)
  | EvCancel (tid : string) (now : Z).

Definition executes_sync (h : gmap nat Task) (wk : Worker) : bool :=
  match wk with
  | Executing r =>
      match h !! r with
      | Some t => negb (iscoroutinefunction (function t))
      | None => false
      end
  | Polling => false
  end.

Definition loop_blocked (rn : TaskRunner) : bool :=
  existsb (executes_sync (heap rn)) (workers rn).

(** [generate_task_id] draws a UUID: it returns an id that no task has. *)
Definition id_unused (tid : string) (rn : TaskRunner) : Prop :=
  map_Forall (fun (_ : nat) (t : Task) => task_id t ≠ tid) (heap rn).

#[global] Instance id_unused_dec tid rn : Decision (id_unused tid rn).
Proof. unfold id_unused. apply _. Defined.

Definition enabled (e : Event) (rn : TaskRunner) : bool :=
  match e with
  | EvSettle w _ _ =>
      negb (loop_blocked rn)
      || from_option (executes_sync (heap rn)) false (workers rn !! w)
  | _ => negb (loop_blocked rn)
  end.

Definition apply_event (e : Event) (rn : TaskRunner) : option TaskRunner :=
  match e with
  | EvStart => Some (start rn)
  | EvSubmit new_id nm fn prio maxr now =>
      if decide (id_unused new_id rn)
      then Some (submit_task new_id nm fn prio maxr now rn).2
      else None
  | EvClaim w now => _worker_claim w now rn
  | EvSettle w now o => _worker_settle w now o rn
  | EvCancel tid now => Some (cancel_task tid now rn).2
  end.

Definition fire (e : Event) (rn : TaskRunner) : option TaskRunner :=
  if enabled e rn then apply_event e rn else None.

Fixpoint run (evs : list Event) (rn : TaskRunner) : option TaskRunner :=
  match evs with
  | [] => Some rn
  | e :: evs' =>
      match fire e rn with
      | Some rn' => run evs' rn'
      | None => None
      end
  end.

Definition reachable (rn : TaskRunner) : Prop :=
  exists (n : nat) (evs : list Event), run evs (TaskRunner_init n) = Some rn.

(** The task that event [e] takes out of the queue in state [rn]. *)
Definition dequeues (e : Event) (rn : TaskRunner) : option nat :=
  match e with
  | EvClaim _ _ => fst <$> TaskQueue_get (task_queue rn)
  | _ => None
  end.

(** No event of the run [evs] from [rn] takes [r] out of the queue. *)
Fixpoint leaves_queued (r : nat) (evs : list Event) (rn : TaskRunner) : Prop :=
  match evs with
  | [] => True
  | e :: evs' =>
      dequeues e rn ≠ Some r /\
      match fire e rn with
      | Some rn' => leaves_queued r evs' rn'
      | None => True
      end
  end.

(** Position of a priority in [scan_order]. *)
Definition rank (p : TaskPriority) : nat :=
  match p with
  | URGENT => 0 | HIGH => 1 | MEDIUM => 2 | LOW => 3
  end.

(** The ids of the tasks waiting in the queue. *)
Definition queued_ids (rn : TaskRunner) : list string :=
  omap (fun r => task_id <$> heap rn !! r) (queued (task_queue rn)).

Definition is_terminal (s : TaskStatus) : bool :=
  match s with
  | COMPLETED | FAILED | CANCELLED => true
  | _ => false
  end.

(** Passes of the loop of worker [w] in a row, one for each element
    of [atts]: the times at which the attempt starts and ends, and the
    message with which the work raises. *)
Fixpoint failing_passes (atts : list (Z * Z * string)) (w : nat)
    (rn : TaskRunner) : option TaskRunner :=
  match atts with
  | [] => Some rn
  | (now, now', msg) :: atts' =>
      match _worker_iteration w now now' (Raised msg) rn with
      | Some rn' => failing_passes atts' w rn'
      | None => None
      end
  end.

(** ** A sample session, used to evaluate the code on concrete inputs *)

Definition example_async_task : Callable := mkCallable true "example_async_task".
Definition example_sync_task : Callable := mkCallable false "example_sync_task".

(** A started runner with one worker and one submitted task ["t1"],
    asynchronous, medium priority, [max_retries = 3]. *)
Definition session_submitted : list Event :=
  [ EvStart; EvSubmit "t1" "job" example_async_task MEDIUM 3 10 ].

(** ... which the worker has taken from the queue. *)
Definition session_claimed : list Event :=
  session_submitted ++ [ EvClaim 0 11 ].

(** ... and whose first attempt raises. *)
Definition session_retry : list Event :=
  session_claimed ++ [ EvSettle 0 12 (Raised "boom") ].

(** ... after which it is taken from the queue again. *)
Definition session_retry_claimed : list Event :=
  session_retry ++ [ EvClaim 0 13 ].

(** ... and succeeds at the second attempt. *)
Definition session_retry_success : list Event :=
  session_retry_claimed ++ [ EvSettle 0 14 (Returned (PyInt 5)) ].

(** A task cancelled while its work is running, whose work then ends. *)
Definition session_cancelled : list Event :=
  session_claimed ++ [ EvCancel "t1" 12 ].

Definition session_cancelled_then_done : list Event :=
  session_cancelled ++ [ EvSettle 0 13 (Returned (PyInt 5)) ].

Definition state_after (evs : list Event) : TaskRunner :=
  default (TaskRunner_init 1) (run evs (TaskRunner_init 1)).


(** ** What holds in every state of a run *)

(** The task object that the end of an attempt leaves behind, and
    whether the attempt puts the task back into the queue: the two
    effects of [_execute_task_end], named separately. *)
Definition settled_task (now : Z) (o : Outcome) (t : Task) : Task :=
  match o with
  | Returned v =>
      set_completed_at (Some now) (set_status COMPLETED (set_result v t))
  | Raised msg =>
      let t1 := set_retries (retries t + 1) (set_error (Some msg) t) in
      if retries t1 <=? max_retries t1 then set_status RETRYING t1
      else set_completed_at (Some now) (set_status FAILED t1)
  end.

Definition requeues (o : Outcome) (t : Task) : bool :=
  match o with
  | Returned _ => false
  | Raised _ => retries t + 1 <=? max_retries t
  end.

(** Statuses of a task that waits in a lane, and of a task that a
    worker is executing. *)
Definition waiting (s : TaskStatus) : Prop := s = PENDING \/ s = RETRYING.
Definition in_flight (s : TaskStatus) : Prop := s = RUNNING \/ s = CANCELLED.

(** Facts about one task object. *)
Record task_ok (t : Task) : Prop := mk_task_ok {
  ok_retries_nonneg : 0 <= retries t;
  ok_error_retries : error t = None <-> retries t = 0;
  ok_result : result t ≠ PyNone -> status t = COMPLETED;
  ok_pending :
    status t = PENDING ->
    retries t = 0 /\ started_at t = None /\ completed_at t = None;
  ok_retrying : status t = RETRYING -> 0 < retries t <= max_retries t;
  ok_failed :
    status t = FAILED ->
    retries t = Z.max (max_retries t) 0 + 1 /\ is_Some (completed_at t);
  ok_not_failed : status t ≠ FAILED -> retries t <= Z.max (max_retries t) 0;
  ok_completed : status t = COMPLETED -> is_Some (completed_at t)
}.

Record Inv (rn : TaskRunner) : Prop := mk_Inv {
  inv_queued :
    forall r, r ∈ queued (task_queue rn) ->
      exists t, heap rn !! r = Some t /\ waiting (status t);
  inv_lane :
    forall p r, r ∈ lane p (task_queue rn) ->
      exists t, heap rn !! r = Some t /\ priority t = p;
  inv_nodup : NoDup (queued (task_queue rn));
  inv_exec :
    forall w r, workers rn !! w = Some (Executing r) ->
      exists t, heap rn !! r = Some t /\ in_flight (status t);
  inv_exec_inj :
    forall w w' r,
      workers rn !! w = Some (Executing r) ->
      workers rn !! w' = Some (Executing r) -> w = w';
  inv_active :
    forall k r, active_tasks rn !! k = Some r ->
      exists t, heap rn !! r = Some t /\ task_id t = k /\ in_flight (status t);
  inv_completed :
    forall k r, completed_tasks rn !! k = Some r ->
      exists t, heap rn !! r = Some t /\ task_id t = k /\ status t ≠ PENDING;
  inv_ids :
    forall r1 r2 t1 t2,
      heap rn !! r1 = Some t1 -> heap rn !! r2 = Some t2 ->
      task_id t1 = task_id t2 -> r1 = r2;
  inv_task : forall r t, heap rn !! r = Some t -> task_ok t;
  inv_done :
    forall r t, heap rn !! r = Some t ->
      status t = COMPLETED \/ status t = FAILED ->
      completed_tasks rn !! task_id t = Some r
}.

(** "Exactly one of: the result is set, the error is set, the task is
    not terminal." *)
Definition exactly_one (a b c : Prop) : Prop :=
  (a /\ ~ b /\ ~ c) \/ (~ a /\ b /\ ~ c) \/ (~ a /\ ~ b /\ c).

Definition outcome_exclusive (t : Task) : Prop :=
  exactly_one (result t ≠ PyNone) (is_Some (error t))
              (is_terminal (status t) = false).

(** Worker [w] is free, and the task [r] (a task like [t], with [k]
    failed attempts so far) is the one that the next [get] returns and
    is alone in its lane. *)
Definition next_in_line (w r : nat) (t : Task) (k : Z) (rn : TaskRunner) : Prop :=
  is_running rn = true /\
  workers rn !! w = Some Polling /\
  lane (priority t) (task_queue rn) = [r] /\
  (forall p, (rank p < rank (priority t))%nat -> lane p (task_queue rn) = []) /\
  exists tk,
    heap rn !! r = Some tk /\
    task_id tk = task_id t /\ priority tk = priority t /\
    max_retries tk = max_retries t /\ retries tk = k /\ status tk ≠ FAILED.

(** Every task that a worker executes exists in the store. *)
Definition workers_valid (rn : TaskRunner) : Prop :=
  forall w r, workers rn !! w = Some (Executing r) -> is_Some (heap rn !! r).

(** The outcome with which event [e], fired in [rn], ends an attempt of
    task [r], if it does. *)
Definition settles (r : nat) (e : Event) (rn : TaskRunner) : option Outcome :=
  match e with
  | EvSettle w _ o =>
      if decide (workers rn !! w = Some (Executing r)) then Some o else None
  | _ => None
  end.

(** The outcomes of the attempts of task [r] that end during the run
    [evs] from [rn], in order. *)
Fixpoint attempts_ended (r : nat) (evs : list Event) (rn : TaskRunner)
  : list Outcome :=
  match evs with
  | [] => []
  | e :: evs' =>
      match fire e rn with
      | Some rn' => option_list (settles r e rn) ++ attempts_ended r evs' rn'
      | None => []
      end
  end.

Definition raises (o : Outcome) : Prop := exists msg, o = Raised msg.

(** The time and the outcome with which event [e], fired in [rn], ends
    an attempt of task [r], if it does. *)
Definition settles_at (r : nat) (e : Event) (rn : TaskRunner)
  : option (Z * Outcome) :=
  match e with
  | EvSettle w now o =>
      if decide (workers rn !! w = Some (Executing r)) then Some (now, o)
      else None
  | _ => None
  end.

(** The attempts of task [r] that end during the run [evs] from [rn],
    in order, each with the time at which it ends and its outcome. *)
Fixpoint attempt_ends (r : nat) (evs : list Event) (rn : TaskRunner)
  : list (Z * Outcome) :=
  match evs with
  | [] => []
  | e :: evs' =>
      match fire e rn with
      | Some rn' => option_list (settles_at r e rn) ++ attempt_ends r evs' rn'
      | None => []
      end
  end.

Definition ends_raising (a : Z * Outcome) : Prop := raises a.2.

(** No task is dropped: a task that is Pending or Retrying waits in
    the queue, and a task that is Running or Cancelled is in the hands
    of a worker. *)
Record Inv_live (rn : TaskRunner) : Prop := mk_Inv_live {
  live_waiting :
    forall r t, heap rn !! r = Some t -> waiting (status t) ->
      r ∈ queued (task_queue rn);
  live_in_flight :
    forall r t, heap rn !! r = Some t -> in_flight (status t) ->
      exists w, workers rn !! w = Some (Executing r)
}.

(** ** The other queries of TaskRunner *)

(** A Python [dict] lists its values in the order in which its keys
    were first inserted (a deleted key that is inserted again goes to
    the end).  The tables are finite maps here, which do not record
    that order, so the two listing queries take it as an argument:
    [order] is the list of the keys of the dict as the dict iterates
    over them. *)
Definition dict_order (order : list string) (tbl : gmap string nat) : Prop :=
  NoDup order /\ list_to_set order =@{gset string} dom tbl.

(** [list(tbl.values())], for a dict that iterates in [order]. *)
Definition dict_values (order : list string) (h : gmap nat Task)
    (tbl : gmap string nat) : list Task :=
  omap (fun k => tbl !! k ≫= fun r => h !! r) order.

(** [TaskRunner.get_active_tasks] *)
Definition get_active_tasks (order : list string) (rn : TaskRunner)
  : list (list (string * PyValue)) :=
  to_dict <$> dict_values order (heap rn) (active_tasks rn).

(** The sort key of [get_completed_tasks],
    [t.completed_at or t.created_at]. *)
Definition sort_key (t : Task) : Z := default (created_at t) (completed_at t).

(** [list.sort(key=..., reverse=True)]: descending, and stable (tasks
    with equal keys keep their relative order). *)
Fixpoint insert_desc (t : Task) (l : list Task) : list Task :=
  match l with
  | [] => [t]
  | y :: l' =>
      if sort_key t <? sort_key y then y :: insert_desc t l' else t :: y :: l'
  end.

Definition sort_desc (l : list Task) : list Task := foldr insert_desc [] l.

(** The slice [l[:limit]]: a negative [limit] counts from the end. *)
Definition py_take {A} (limit : Z) (l : list A) : list A :=
  if 0 <=? limit then take (Z.to_nat limit) l
  else take (length l - Z.to_nat (- limit)) l.

(** [TaskRunner.get_completed_tasks], before and after the final
    [to_dict]. *)
Definition recent_completed (order : list string) (limit : Z)
    (rn : TaskRunner) : list Task :=
  py_take limit (sort_desc (dict_values order (heap rn) (completed_tasks rn))).

Definition get_completed_tasks (order : list string) (limit : Z)
    (rn : TaskRunner) : list (list (string * PyValue)) :=
  to_dict <$> recent_completed order limit rn.

(** [TaskRunner.get_queue_status]: the dict with its eight fixed keys,
    as a record. *)
Record QueueStatus := mkQueueStatus {
  qs_urgent : nat;
  qs_high : nat;
  qs_medium : nat;
  qs_low : nat;
  qs_active_tasks : nat;
  qs_completed_tasks : nat;
  qs_workers : nat;
  qs_is_running : bool
}.

Definition get_queue_status (rn : TaskRunner) : QueueStatus :=
  mkQueueStatus
    (length (lane URGENT (task_queue rn)))
    (length (lane HIGH (task_queue rn)))
    (length (lane MEDIUM (task_queue rn)))
    (length (lane LOW (task_queue rn)))
    (size (active_tasks rn))
    (size (completed_tasks rn))
    (length (workers rn))
    (is_running rn).

(** A sequence of [put]s, each with the task and its reference. *)
Definition puts (trs : list (Task * nat)) (q : TaskQueue) : TaskQueue :=
  foldl (fun q tr => TaskQueue_put tr.1 tr.2 q) q trs.

(** ** The metrics counters

    [MetricsCollector.metrics], restricted to the integer counters that
    the task runner maintains. *)
Definition increment_counter (name : string) (value : Z) (m : gmap string Z)
  : gmap string Z :=
  <[name := default 0 (m !! name) + value]> m.

(** The value of a counter, 0 for one that was never incremented. *)
Definition counter (m : gmap string Z) (name : string) : Z :=
  default 0 (m !! name).

Definition queued_counter (p : TaskPriority) : string :=
  "tasks_queued_" +:+ priority_value p.

Definition dequeued_counter (p : TaskPriority) : string :=
  "tasks_dequeued_" +:+ priority_value p.

(** The lane from which [TaskQueue.get] takes the task. *)
Definition first_lane (q : TaskQueue) : option TaskPriority :=
  List.find (fun p => bool_decide (lane p q ≠ [])) scan_order.

(** The counters after event [e] has been fired in state [rn]:
    [put] counts [tasks_queued_<priority>], [get] counts
    [tasks_dequeued_<priority>], [submit_task] counts [tasks_submitted]
    after its [put], [_execute_task] counts [tasks_completed] or
    [tasks_failed] (and a retry counts through its [put]), and
    [cancel_task] counts [tasks_cancelled] when it answers [True]. *)
Definition event_metrics (e : Event) (rn : TaskRunner) (m : gmap string Z)
  : gmap string Z :=
  match e with
  | EvStart => m
  | EvSubmit _ _ _ prio _ _ =>
      increment_counter "tasks_submitted" 1
        (increment_counter (queued_counter prio) 1 m)
  | EvClaim _ _ =>
      match first_lane (task_queue rn) with
      | Some p => increment_counter (dequeued_counter p) 1 m
      | None => m
      end
  | EvSettle w _ o =>
      match workers rn !! w with
      | Some (Executing r) =>
          match heap rn !! r with
          | Some t =>
              match o with
              | Returned _ => increment_counter "tasks_completed" 1 m
              | Raised _ =>
                  if retries t + 1 <=? max_retries t
                  then increment_counter (queued_counter (priority t)) 1 m
                  else increment_counter "tasks_failed" 1 m
              end
          | None => m
          end
      | _ => m
      end
  | EvCancel tid _ =>
      match active_tasks rn !! tid with
      | Some _ => increment_counter "tasks_cancelled" 1 m
      | None => m
      end
  end.

(** A run together with the counters. *)
Fixpoint run_metrics (evs : list Event) (rn : TaskRunner) (m : gmap string Z)
  : option (TaskRunner * gmap string Z) :=
  match evs with
  | [] => Some (rn, m)
  | e :: evs' =>
      match fire e rn with
      | Some rn' => run_metrics evs' rn' (event_metrics e rn m)
      | None => None
      end
  end.

(** The number of tasks in the store that have status [s]. *)
Definition count_status (s : TaskStatus) (h : gmap nat Task) : nat :=
  size (filter (fun kt : nat * Task => status kt.2 = s) h).

(** ** More of what holds in every state of a run: the worker pool *)
Record Inv_pool (rn : TaskRunner) : Prop := mk_Inv_pool {
  pool_size :
    length (workers rn) = if is_running rn then max_workers rn else 0%nat;
  pool_active :
    forall k r, active_tasks rn !! k = Some r ->
      exists w, workers rn !! w = Some (Executing r);
  pool_exec :
    forall w r, workers rn !! w = Some (Executing r) ->
      exists t, heap rn !! r = Some t /\ active_tasks rn !! task_id t = Some r
}.

(** The tasks that the workers are executing. *)
Definition executing (ws : list Worker) : list nat :=
  omap (fun wk => match wk with Executing r => Some r | Polling => None end) ws.

(** The order of [get_completed_tasks]: the later time stamp first. *)
Definition newer_first (a b : Task) : Prop := sort_key b <= sort_key a.

(** 1 if task [t] has status [s], else 0. *)
Definition has_status_count (s : TaskStatus) (t : Task) : nat :=
  if decide (status t = s) then 1%nat else 0%nat.

(** The counters agree with the store. *)
Definition counts_agree (rn : TaskRunner) (m : gmap string Z) : Prop :=
  counter m "tasks_submitted" = Z.of_nat (size (heap rn)) /\
  counter m "tasks_completed" = Z.of_nat (count_status COMPLETED (heap rn)) /\
  counter m "tasks_failed" = Z.of_nat (count_status FAILED (heap rn)).

(** Task [r] with id [tid] is in the active table, marked Running or
    Cancelled, while no worker executes it. *)
Definition stranded (r : nat) (tid : string) (rn : TaskRunner) : Prop :=
  Inv rn /\
  active_tasks rn !! tid = Some r /\
  (exists t, heap rn !! r = Some t /\ task_id t = tid /\ in_flight (status t)) /\
  (forall w, workers rn !! w ≠ Some (Executing r)).

(** A sequence of calls of [increment_counter], each with its name and
    value. *)
Definition increments (l : list (string * Z)) (m : gmap string Z)
  : gmap string Z :=
  foldl (fun m nv => increment_counter nv.1 nv.2 m) m l.

(** The sum of the values that the calls in [l] add to [name]. *)
Definition added_to (name : string) (l : list (string * Z)) : Z :=
  foldr (fun nv acc => (if decide (nv.1 = name) then nv.2 else 0) + acc) 0 l.

(** Passes of the loop of worker [w] in a row whose work returns, one
    for each element of [outs]: the times at which the attempt starts
    and ends, and the value returned. *)
Fixpoint returning_passes (outs : list (Z * Z * PyValue)) (w : nat)
    (rn : TaskRunner) : option TaskRunner :=
  match outs with
  | [] => Some rn
  | (now, now', v) :: outs' =>
      match _worker_iteration w now now' (Returned v) rn with
      | Some rn' => returning_passes outs' w rn'
      | None => None
      end
  end.

(** ** Runs with [stop]

    The calls that a session makes on the runner: the events of a run,
    and calls of [stop] that return.  A call of [stop] is taken as one
    step: between its first line and its return only the workers that
    it cancels act, each as [react] says.  While a synchronous work
    function runs, nothing else does, so [stop] cannot be called
    then. *)
Inductive Call :=
  | CallEvent (e : Event)
  | CallStop (react : nat -> CancelReaction) (now : Z).

Definition perform (c : Call) (rn : TaskRunner) : option TaskRunner :=
  match c with
  | CallEvent e => fire e rn
  | CallStop react now => if loop_blocked rn then None else stop react now rn
  end.

Fixpoint session (cs : list Call) (rn : TaskRunner) : option TaskRunner :=
  match cs with
  | [] => Some rn
  | c :: cs' =>
      match perform c rn with
      | Some rn' => session cs' rn'
      | None => None
      end
  end.

Definition reachable_with_stop (rn : TaskRunner) : Prop :=
  exists (n : nat) (cs : list Call), session cs (TaskRunner_init n) = Some rn.

(** What holds of the worker pool in such a session too. *)
Record Inv_staff (rn : TaskRunner) : Prop := mk_Inv_staff {
  staff_size :
    length (workers rn) = if is_running rn then max_workers rn else 0%nat;
  staff_exec :
    forall w r, workers rn !! w = Some (Executing r) ->
      exists t, heap rn !! r = Some t /\ active_tasks rn !! task_id t = Some r
}.

(** Tasks with the time stamp [key]. *)
Definition stamped (key : Z) (l : list Task) : list Task :=
  filter (fun t => sort_key t = key) l.

(** A session in which the task ["t1"] is interrupted by [stop] and the
    runner is started again, with a second task. *)
Definition session_restarted : list Call :=
  (CallEvent <$> session_claimed)
  ++ [ CallStop (fun _ => Propagates) 12;
       CallEvent EvStart;
       CallEvent (EvSubmit "t2" "other" example_async_task HIGH 0 13);
       CallEvent (EvClaim 0 14) ].

(** A session in which two tasks end at the same time 20: ["t2"] by
    the end of its work, then ["t1"] by the return of [stop], whose
    cancellation its work answers by returning. *)
Definition session_two_done : list Call :=
  [ CallEvent EvStart;
    CallEvent (EvSubmit "t1" "job" example_async_task MEDIUM 3 10);
    CallEvent (EvSubmit "t2" "other" example_async_task MEDIUM 3 11);
    CallEvent (EvClaim 0 12); CallEvent (EvClaim 1 13);
    CallEvent (EvSettle 1 20 (Returned (PyInt 2)));
    CallStop (fun _ => Finishes (Returned (PyInt 1))) 20 ].

Definition ended (cs : list Call) (n : nat) : TaskRunner :=
  default (TaskRunner_init n) (session cs (TaskRunner_init n)).
(** * Properties *)

(** ** The queue *)

Section queue_facts.
Implicit Types (q : TaskQueue) (p : TaskPriority) (l : list nat).

Lemma lane_set_lane_eq p l q : lane p (set_lane p l q) = l.
Proof. by destruct p. Qed.

Lemma lane_set_lane_ne p p' l q : p ≠ p' -> lane p' (set_lane p l q) = lane p' q.
Proof. by destruct p, p'. Qed.

Lemma set_lane_id p q : set_lane p (lane p q) q = q.
Proof. by destruct p, q. Qed.

Lemma scan_order_rank p : scan_order !! rank p = Some p.
Proof. by destruct p. Qed.

Lemma queued_nil_lanes q : queued q = [] <-> forall p, lane p q = [].
Proof.
  unfold queued. split.
  - intros H p.
    apply app_eq_nil in H as [H1 H].
    apply app_eq_nil in H as [H2 H].
    apply app_eq_nil in H as [H3 H4].
    by destruct p.
  - intros H.
    by rewrite (H URGENT : urgent q = []), (H HIGH : high q = []),
      (H MEDIUM : medium q = []), (H LOW : low q = []).
Qed.

(** [get] answers with the head of the first non-empty lane. *)
Lemma TaskQueue_get_Some q r q' :
  TaskQueue_get q = Some (r, q') <->
  exists p rest,
    lane p q = r :: rest /\
    (forall p', (rank p' < rank p)%nat -> lane p' q = []) /\
    q' = set_lane p rest q.
Proof.
  unfold TaskQueue_get, scan_order. simpl. split.
  - destruct (urgent q) as [|a u] eqn:Hu.
    2:{ intros [= <- <-]. exists URGENT, u. split_and!; [done| |done].
        intros p'. simpl. lia. }
    destruct (high q) as [|a h] eqn:Hh.
    2:{ intros [= <- <-]. exists HIGH, h.
        split_and!; [done| |by simpl; rewrite Hu].
        intros []; simpl; (lia || done). }
    destruct (medium q) as [|a m] eqn:Hm.
    2:{ intros [= <- <-]. exists MEDIUM, m.
        split_and!; [done| |by simpl; rewrite Hu, Hh].
        intros []; simpl; (lia || done). }
    destruct (low q) as [|a l] eqn:Hl; [done|].
    intros [= <- <-]. exists LOW, l.
    split_and!; [done| |by simpl; rewrite Hu, Hh, Hm].
    intros []; simpl; (lia || done).
  - intros (p & rest & Hp & Hhi & ->).
    pose proof (Hhi URGENT) as Hu. pose proof (Hhi HIGH) as Hh.
    pose proof (Hhi MEDIUM) as Hm.
    destruct p; simpl in *.
    + by rewrite Hu, Hh, Hm, Hp by lia.
    + by rewrite Hu, Hh, Hp by lia.
    + by rewrite Hu, Hp by lia.
    + by rewrite Hp.
Qed.

Lemma TaskQueue_get_None q : TaskQueue_get q = None <-> forall p, lane p q = [].
Proof.
  unfold TaskQueue_get, scan_order. simpl. split.
  - destruct (urgent q) eqn:?, (high q) eqn:?, (medium q) eqn:?,
      (low q) eqn:?; try done.
    by intros _ [].
  - intros H.
    pose proof (H URGENT) as Hu. pose proof (H HIGH) as Hh.
    pose proof (H MEDIUM) as Hm. pose proof (H LOW) as Hl.
    simpl in *. by rewrite Hu, Hh, Hm, Hl.
Qed.

(** What [get] takes is the head of [queued], and what it leaves is
    the tail. *)
Lemma TaskQueue_get_queued q r q' :
  TaskQueue_get q = Some (r, q') -> queued q = r :: queued q'.
Proof.
  intros (p & rest & Hp & Hhi & ->)%TaskQueue_get_Some.
  pose proof (Hhi URGENT) as Hu. pose proof (Hhi HIGH) as Hh.
  pose proof (Hhi MEDIUM) as Hm.
  unfold queued. destruct p; simpl in *.
  - by rewrite Hu, Hh, Hm, Hp by lia.
  - by rewrite Hu, Hh, Hp by lia.
  - by rewrite Hu, Hp by lia.
  - by rewrite Hp.
Qed.

Lemma TaskQueue_get_is_Some q :
  queued q ≠ [] -> is_Some (TaskQueue_get q).
Proof.
  intros Hne. destruct (TaskQueue_get q) eqn:Hg; [done|].
  exfalso. apply Hne, queued_nil_lanes. by apply TaskQueue_get_None.
Qed.

Lemma drain_queued q : drain (length (queued q)) q = queued q.
Proof.
  remember (length (queued q)) as n eqn:Hn.
  revert q Hn. induction n as [|n IH]; intros q Hn.
  - symmetry in Hn. by apply nil_length_inv in Hn as ->.
  - simpl. destruct (TaskQueue_get q) as [[r q']|] eqn:Hg.
    + apply TaskQueue_get_queued in Hg as Hq. rewrite Hq in Hn |- *.
      simpl in Hn. f_equal. apply IH. lia.
    + pose proof (proj1 (TaskQueue_get_None q) Hg) as Hl.
      pose proof (proj2 (queued_nil_lanes q) Hl) as Hq.
      by rewrite Hq in Hn.
Qed.

Lemma TaskQueue_put_lane t r q :
  lane (priority t) (TaskQueue_put t r q) = lane (priority t) q ++ [r].
Proof. apply lane_set_lane_eq. Qed.

Lemma TaskQueue_put_other t r q p :
  p ≠ priority t -> lane p (TaskQueue_put t r q) = lane p q.
Proof. intros H. by apply lane_set_lane_ne. Qed.

Lemma queued_lanes q r : r ∈ queued q <-> exists p, r ∈ lane p q.
Proof.
  unfold queued. rewrite !elem_of_app. split.
  - intros [H|[H|[H|H]]];
      [by exists URGENT|by exists HIGH|by exists MEDIUM|by exists LOW].
  - intros [[] H]; simpl in H; tauto.
Qed.

Lemma queued_put t r q : queued (TaskQueue_put t r q) ≡ₚ r :: queued q.
Proof.
  unfold TaskQueue_put, queued.
  destruct (priority t); simpl;
    rewrite <- ?(assoc_L (++)); simpl;
    rewrite <- !Permutation_middle; by rewrite ?app_nil_r.
Qed.
End queue_facts.

(** C5. [TaskQueue.get] hands out the oldest task of the first
    non-empty lane in the order Urgent, High, Medium, Low, and reports
    an empty queue exactly when every lane is empty; successive [get]s
    serve the urgent lane in insertion order, then the high lane, and so
    on.  [TaskQueue.put] is total: it appends the task at the back of
    the lane of the task's priority and touches no other lane. *)
Theorem TaskQueue_priority_fifo (q : TaskQueue) (t : Task) (r : nat) :
  (TaskQueue_get q = None <-> forall p, lane p q = []) /\
  (forall r' q',
      TaskQueue_get q = Some (r', q') <->
      exists p rest,
        lane p q = r' :: rest /\
        (forall p', (rank p' < rank p)%nat -> lane p' q = []) /\
        q' = set_lane p rest q) /\
  drain (length (queued q)) q =
    lane URGENT q ++ lane HIGH q ++ lane MEDIUM q ++ lane LOW q /\
  lane (priority t) (TaskQueue_put t r q) = lane (priority t) q ++ [r] /\
  (forall p, p ≠ priority t -> lane p (TaskQueue_put t r q) = lane p q).
Proof.
  split_and!.
  - apply TaskQueue_get_None.
  - intros r' q'. apply TaskQueue_get_Some.
  - apply drain_queued.
  - apply TaskQueue_put_lane.
  - intros p. apply TaskQueue_put_other.
Qed.

(** ** The steps of a worker, spelled out *)

Section step_facts.
Implicit Types (rn : TaskRunner) (t : Task) (r w : nat) (o : Outcome).

Lemma _execute_task_end_unfold now o r t rn :
  _execute_task_end now o r t rn =
  set_task_queue
    (if requeues o t
     then TaskQueue_put (settled_task now o t) r (task_queue rn)
     else task_queue rn)
    (set_heap (<[r:=settled_task now o t]> (heap rn)) rn).
Proof.
  destruct o as [v|msg]; simpl; [done|].
  by destruct (retries t + 1 <=? max_retries t).
Qed.

Lemma _worker_settle_Some w now o rn rn' :
  _worker_settle w now o rn = Some rn' <->
  exists r t,
    workers rn !! w = Some (Executing r) /\
    heap rn !! r = Some t /\
    rn' = mkRunner (max_workers rn)
            (if requeues o t
             then TaskQueue_put (settled_task now o t) r (task_queue rn)
             else task_queue rn)
            (delete (task_id t) (active_tasks rn))
            (<[task_id t:=r]> (completed_tasks rn))
            (<[w:=Polling]> (workers rn))
            (is_running rn)
            (<[r:=settled_task now o t]> (heap rn)).
Proof.
  unfold _worker_settle. split.
  - destruct (workers rn !! w) as [[|r]|] eqn:Hw; try done.
    destruct (heap rn !! r) as [t|] eqn:Ht; try done.
    rewrite _execute_task_end_unfold. intros [= <-].
    exists r, t. split_and!; (assumption || reflexivity).
  - intros (r & t & -> & -> & ->).
    by rewrite _execute_task_end_unfold.
Qed.

Lemma _worker_claim_Some w now rn rn' :
  _worker_claim w now rn = Some rn' <->
  exists r q' t,
    is_running rn = true /\
    workers rn !! w = Some Polling /\
    TaskQueue_get (task_queue rn) = Some (r, q') /\
    heap rn !! r = Some t /\
    rn' = mkRunner (max_workers rn) q'
            (<[task_id t:=r]> (active_tasks rn))
            (completed_tasks rn)
            (<[w:=Executing r]> (workers rn))
            (is_running rn)
            (<[r:=_execute_task_begin now t]> (heap rn)).
Proof.
  unfold _worker_claim. split.
  - destruct (is_running rn) eqn:Hrun; [|done].
    destruct (workers rn !! w) as [[|?]|] eqn:Hw; try done.
    destruct (TaskQueue_get (task_queue rn)) as [[r q']|] eqn:Hg; [|done].
    destruct (heap rn !! r) as [t|] eqn:Ht; [|done].
    intros [= <-]. exists r, q', t.
    split_and!; try (assumption || reflexivity).
    unfold set_workers, set_heap, set_active_tasks, set_task_queue.
    simpl. by rewrite Hrun.
  - intros (r & q' & t & Hrun & Hw & Hg & Ht & ->).
    rewrite Hrun, Hw, Hg, Ht.
    unfold set_workers, set_heap, set_active_tasks, set_task_queue.
    simpl. by rewrite Hrun.
Qed.

Lemma settled_task_id now o t : task_id (settled_task now o t) = task_id t.
Proof. destruct o; simpl; [done|]. by case_match. Qed.

Lemma settled_task_priority now o t :
  priority (settled_task now o t) = priority t.
Proof. destruct o; simpl; [done|]. by case_match. Qed.

Lemma settled_task_max_retries now o t :
  max_retries (settled_task now o t) = max_retries t.
Proof. destruct o; simpl; [done|]. by case_match. Qed.

Lemma settled_task_status now o t :
  status (settled_task now o t) =
  match o with
  | Returned _ => COMPLETED
  | Raised _ => if requeues o t then RETRYING else FAILED
  end.
Proof. destruct o; simpl; [done|]. by case_match. Qed.

Lemma requeues_status now o t :
  requeues o t = true <-> status (settled_task now o t) = RETRYING.
Proof.
  rewrite settled_task_status. destruct o; simpl; [done|].
  by case_match.
Qed.

Lemma in_flight_no_result t :
  task_ok t -> in_flight (status t) -> result t = PyNone.
Proof.
  intros Hok Hfl. destruct (result t) eqn:Hr; try done;
    (assert (status t = COMPLETED) as Hs
       by (apply (ok_result t Hok); congruence));
    destruct Hfl; congruence.
Qed.

Lemma waiting_no_result t :
  task_ok t -> waiting (status t) -> result t = PyNone.
Proof.
  intros Hok Hfl. destruct (result t) eqn:Hr; try done;
    (assert (status t = COMPLETED) as Hs
       by (apply (ok_result t Hok); congruence));
    destruct Hfl; congruence.
Qed.

Lemma settled_task_ok now o t :
  task_ok t -> in_flight (status t) -> task_ok (settled_task now o t).
Proof.
  intros Hok Hfl. pose proof (in_flight_no_result t Hok Hfl) as Hnone.
  destruct Hok as [Hnn Her Hres Hpend Hretr Hfail Hnfail Hcomp].
  assert (status t ≠ FAILED) as Hnf by (destruct Hfl; congruence).
  specialize (Hnfail Hnf).
  destruct o as [v|msg]; simpl.
  - split; simpl; try done; try lia.
  - destruct (retries t + 1 <=? max_retries t) eqn:Hle;
      [apply Z.leb_le in Hle|apply Z.leb_gt in Hle];
      split; simpl; try done; try lia.
    + split; [done|lia].
    + split; [done|lia].
    + intros _. split; [lia|by eexists].
Qed.

Lemma _execute_task_begin_ok now t :
  task_ok t -> waiting (status t) -> task_ok (_execute_task_begin now t).
Proof.
  intros Hok Hw. pose proof (waiting_no_result t Hok Hw) as Hnone.
  destruct Hok as [Hnn Her Hres Hpend Hretr Hfail Hnfail Hcomp].
  assert (status t ≠ FAILED) as Hnf by (destruct Hw; congruence).
  specialize (Hnfail Hnf).
  split; simpl; done.
Qed.

Lemma cancelled_task_ok now t :
  task_ok t -> in_flight (status t) ->
  task_ok (set_completed_at (Some now) (set_status CANCELLED t)).
Proof.
  intros Hok Hfl. pose proof (in_flight_no_result t Hok Hfl) as Hnone.
  destruct Hok as [Hnn Her Hres Hpend Hretr Hfail Hnfail Hcomp].
  assert (status t ≠ FAILED) as Hnf by (destruct Hfl; congruence).
  specialize (Hnfail Hnf).
  split; simpl; done.
Qed.

Lemma waiting_not_in_flight s : waiting s -> in_flight s -> False.
Proof. intros [->| ->] [?|?]; congruence. Qed.
End step_facts.

(** ** The invariant holds along every run *)

Section inv_facts.
Implicit Types (rn : TaskRunner) (t : Task) (r w : nat) (o : Outcome).

Lemma Inv_init n : Inv (TaskRunner_init n).
Proof.
  split; simpl; try (intros; simplify_map_eq; fail).
  - intros r Hr. by apply elem_of_nil in Hr.
  - intros [] r Hr; by apply elem_of_nil in Hr.
  - constructor.
Qed.

Lemma lookup_app_replicate_Executing (ws : list Worker) n w r :
  (ws ++ replicate n Polling) !! w = Some (Executing r) ->
  ws !! w = Some (Executing r).
Proof.
  intros H. apply lookup_app_Some in H as [H|[_ H]]; [done|].
  by apply lookup_replicate in H as [? _].
Qed.

Lemma Inv_start rn : Inv rn -> Inv (start rn).
Proof.
  intros HI. unfold start. destruct (is_running rn); [done|].
  destruct HI. split; simpl; try done.
  - intros w r H%lookup_app_replicate_Executing. eauto.
  - intros w w' r H%lookup_app_replicate_Executing
      H'%lookup_app_replicate_Executing. eauto.
Qed.

Lemma fresh_ref_unused rn : heap rn !! fresh (dom (heap rn)) = None.
Proof. apply not_elem_of_dom, is_fresh. Qed.

Lemma Inv_submit new_id nm fn prio maxr now rn :
  Inv rn -> id_unused new_id rn ->
  Inv (submit_task new_id nm fn prio maxr now rn).2.
Proof.
  intros HI Hid. pose proof (fresh_ref_unused rn) as Hfr.
  set (r := fresh (dom (heap rn))) in *.
  unfold submit_task. fold r. simpl.
  set (t := mkTask new_id nm fn prio PENDING now None None PyNone None 0 maxr).
  assert (r ∉ queued (task_queue rn)) as Hnq.
  { intros (t0 & Ht0 & _)%(inv_queued rn HI). congruence. }
  split; simpl.
  - intros r0 Hr0. rewrite queued_put in Hr0.
    apply elem_of_cons in Hr0 as [->|Hr0].
    + exists t. rewrite lookup_insert_eq. split; [done|by left].
    + destruct (inv_queued rn HI r0 Hr0) as (t0 & Ht0 & Hw).
      exists t0. rewrite lookup_insert_ne by congruence. done.
  - intros p r0 Hr0.
    destruct (decide (p = priority t)) as [->|Hp].
    + rewrite TaskQueue_put_lane in Hr0.
      apply elem_of_app in Hr0 as [Hr0|Hr0%list_elem_of_singleton].
      * destruct (inv_lane rn HI _ r0 Hr0) as (t0 & Ht0 & Hw).
        exists t0. rewrite lookup_insert_ne by congruence. done.
      * subst r0. exists t. by rewrite lookup_insert_eq.
    + rewrite TaskQueue_put_other in Hr0 by done.
      destruct (inv_lane rn HI _ r0 Hr0) as (t0 & Ht0 & Hw).
      exists t0. rewrite lookup_insert_ne by congruence. done.
  - rewrite queued_put. constructor; [done|apply (inv_nodup rn HI)].
  - intros w r0 Hw. destruct (inv_exec rn HI w r0 Hw) as (t0 & Ht0 & Hfl).
    exists t0. rewrite lookup_insert_ne by congruence. done.
  - apply (inv_exec_inj rn HI).
  - intros k r0 Hk. destruct (inv_active rn HI k r0 Hk) as (t0 & Ht0 & ?).
    exists t0. rewrite lookup_insert_ne by congruence. done.
  - intros k r0 Hk. destruct (inv_completed rn HI k r0 Hk) as (t0 & Ht0 & ?).
    exists t0. rewrite lookup_insert_ne by congruence. done.
  - intros r1 r2 t1 t2 H1 H2 Heq.
    apply lookup_insert_Some in H1 as [[<- <-]|[Hn1 H1]];
      apply lookup_insert_Some in H2 as [[<- <-]|[Hn2 H2]]; try done.
    + exfalso. by apply (Hid r2 t2 H2).
    + exfalso. by apply (Hid r1 t1 H1).
    + by apply (inv_ids rn HI r1 r2 t1 t2).
  - intros r0 t0 [[<- <-]|[Hn H0]]%lookup_insert_Some.
    + split; simpl; try done; lia.
    + by apply (inv_task rn HI r0).
  - intros r0 t0 [[<- <-]|[Hn H0]]%lookup_insert_Some Hst.
    + simpl in Hst. destruct Hst; congruence.
    + by apply (inv_done rn HI r0).
Qed.

Lemma TaskQueue_get_lane q r q' p r0 :
  TaskQueue_get q = Some (r, q') -> r0 ∈ lane p q' -> r0 ∈ lane p q.
Proof.
  intros (p1 & rest & Hp1 & _ & ->)%TaskQueue_get_Some Hin.
  destruct (decide (p1 = p)) as [->|Hne].
  - rewrite lane_set_lane_eq in Hin. rewrite Hp1. by right.
  - by rewrite lane_set_lane_ne in Hin.
Qed.

Lemma ids_update (h : gmap nat Task) r t t' :
  h !! r = Some t -> task_id t' = task_id t ->
  (forall r1 r2 t1 t2,
      h !! r1 = Some t1 -> h !! r2 = Some t2 ->
      task_id t1 = task_id t2 -> r1 = r2) ->
  forall r1 r2 t1 t2,
    <[r:=t']> h !! r1 = Some t1 -> <[r:=t']> h !! r2 = Some t2 ->
    task_id t1 = task_id t2 -> r1 = r2.
Proof.
  intros Hr Hid Hu r1 r2 t1 t2 H1 H2 Heq.
  apply lookup_insert_Some in H1 as [[<- <-]|[Hn1 H1]];
    apply lookup_insert_Some in H2 as [[<- <-]|[Hn2 H2]]; try done.
  - apply (Hu r r2 t t2); congruence.
  - apply (Hu r1 r t1 t); congruence.
  - by apply (Hu r1 r2 t1 t2).
Qed.

Lemma Inv_claim w now rn rn' :
  Inv rn -> _worker_claim w now rn = Some rn' -> Inv rn'.
Proof.
  intros HI Hc.
  apply _worker_claim_Some in Hc as (r & q' & t & Hrun & Hw & Hg & Ht & ->).
  pose proof (TaskQueue_get_queued _ _ _ Hg) as Hq.
  pose proof (inv_nodup rn HI) as Hnd. rewrite Hq in Hnd.
  apply NoDup_cons in Hnd as [Hrq Hnd].
  assert (waiting (status t)) as Hwt.
  { destruct (inv_queued rn HI r) as (t0 & Ht0 & ?);
      [rewrite Hq; by left|congruence]. }
  assert (forall r0 t0, heap rn !! r0 = Some t0 -> in_flight (status t0) ->
            r0 ≠ r) as Hsep.
  { intros r0 t0 H0 Hfl ->. apply (waiting_not_in_flight (status t)); congruence. }
  split; simpl.
  - intros r0 Hr0.
    destruct (inv_queued rn HI r0) as (t0 & Ht0 & ?);
      [rewrite Hq; by right|].
    exists t0. rewrite lookup_insert_ne by (intros ->; done). done.
  - intros p r0 Hr0%(TaskQueue_get_lane _ _ _ _ _ Hg).
    destruct (inv_lane rn HI p r0 Hr0) as (t0 & Ht0 & Hp).
    destruct (decide (r0 = r)) as [->|Hne].
    + exists (_execute_task_begin now t). rewrite lookup_insert_eq.
      split; [done|]. simpl. congruence.
    + exists t0. by rewrite lookup_insert_ne.
  - done.
  - intros w0 r0 Hw0.
    apply list_lookup_insert_Some in Hw0 as [(-> & [= <-] & _)|[Hne Hw0]].
    + exists (_execute_task_begin now t). rewrite lookup_insert_eq.
      split; [done|by left].
    + destruct (inv_exec rn HI w0 r0 Hw0) as (t0 & Ht0 & Hfl).
      exists t0. rewrite lookup_insert_ne; [done|].
      intros <-. by apply (Hsep r t0).
  - intros w1 w2 r0 H1 H2.
    apply list_lookup_insert_Some in H1 as [(Hw1 & He1 & _)|[Hne1 H1]];
      apply list_lookup_insert_Some in H2 as [(Hw2 & He2 & _)|[Hne2 H2]];
      simplify_eq; try done.
    + destruct (inv_exec rn HI w2 r0 H2) as (t0 & Ht0 & Hfl).
      by destruct (Hsep r0 t0).
    + destruct (inv_exec rn HI w1 r0 H1) as (t0 & Ht0 & Hfl).
      by destruct (Hsep r0 t0).
    + by apply (inv_exec_inj rn HI w1 w2 r0).
  - intros k r0 [[<- <-]|[Hne Hk]]%lookup_insert_Some.
    + exists (_execute_task_begin now t). rewrite lookup_insert_eq.
      split_and!; [done|done|by left].
    + destruct (inv_active rn HI k r0 Hk) as (t0 & Ht0 & Hid & Hfl).
      exists t0. rewrite lookup_insert_ne; [done|].
      intros <-. by apply (Hsep r t0).
  - intros k r0 Hk.
    destruct (inv_completed rn HI k r0 Hk) as (t0 & Ht0 & Hid & Hst).
    destruct (decide (r0 = r)) as [->|Hne].
    + exists (_execute_task_begin now t). rewrite lookup_insert_eq.
      split_and!; [done|simpl; congruence|done].
    + exists t0. by rewrite lookup_insert_ne.
  - by apply (ids_update _ _ t _ Ht), (inv_ids rn HI).
  - intros r0 t0 [[<- <-]|[Hn H0]]%lookup_insert_Some.
    + apply _execute_task_begin_ok; [by apply (inv_task rn HI r)|done].
    + by apply (inv_task rn HI r0).
  - intros r0 t0 [[<- <-]|[Hn H0]]%lookup_insert_Some Hst.
    + simpl in Hst. destruct Hst; congruence.
    + by apply (inv_done rn HI r0).
Qed.

Lemma Inv_settle w now o rn rn' :
  Inv rn -> _worker_settle w now o rn = Some rn' -> Inv rn'.
Proof.
  intros HI Hs.
  apply _worker_settle_Some in Hs as (r & t & Hw & Ht & ->).
  set (t' := settled_task now o t).
  assert (in_flight (status t)) as Hfl.
  { destruct (inv_exec rn HI w r Hw) as (t0 & Ht0 & ?). congruence. }
  assert (r ∉ queued (task_queue rn)) as Hnq.
  { intros Hin. destruct (inv_queued rn HI r Hin) as (t0 & Ht0 & Hwt).
    apply (waiting_not_in_flight (status t)); congruence. }
  assert (forall r0 t0, heap rn !! r0 = Some t0 -> task_id t0 ≠ task_id t ->
            r0 ≠ r) as Hsep by (intros r0 t0 H0 Hne ->; congruence).
  split; simpl.
  - intros r0 Hr0.
    destruct (requeues o t) eqn:Hrq.
    + rewrite queued_put in Hr0. apply elem_of_cons in Hr0 as [->|Hr0].
      * exists t'. rewrite lookup_insert_eq. split; [done|].
        right. by apply requeues_status.
      * destruct (inv_queued rn HI r0 Hr0) as (t0 & Ht0 & ?).
        exists t0. rewrite lookup_insert_ne by (intros ->; done). done.
    + destruct (inv_queued rn HI r0 Hr0) as (t0 & Ht0 & ?).
      exists t0. rewrite lookup_insert_ne by (intros ->; done). done.
  - intros p r0 Hr0.
    assert (r0 = r \/ r0 ∈ lane p (task_queue rn)) as [->|Hold].
    { destruct (requeues o t); [|by right].
      destruct (decide (p = priority t')) as [->|Hp].
      - rewrite TaskQueue_put_lane in Hr0.
        apply elem_of_app in Hr0 as [?|?%list_elem_of_singleton]; auto.
      - rewrite TaskQueue_put_other in Hr0 by done. by right. }
    + exists t'. rewrite lookup_insert_eq. split; [done|].
      destruct (requeues o t) eqn:Hrq.
      * destruct (decide (p = priority t')) as [->|Hp]; [done|].
        rewrite TaskQueue_put_other in Hr0 by done.
        destruct Hnq. apply queued_lanes. by exists p.
      * destruct Hnq. apply queued_lanes. by exists p.
    + destruct (inv_lane rn HI p r0 Hold) as (t0 & Ht0 & Hp).
      exists t0. rewrite lookup_insert_ne; [done|].
      intros <-. apply Hnq, queued_lanes. by exists p.
  - destruct (requeues o t); [|apply (inv_nodup rn HI)].
    rewrite queued_put. constructor; [done|apply (inv_nodup rn HI)].
  - intros w0 r0 Hw0.
    apply list_lookup_insert_Some in Hw0 as [(_ & ? & _)|[Hne Hw0]]; [done|].
    destruct (inv_exec rn HI w0 r0 Hw0) as (t0 & Ht0 & ?).
    exists t0. rewrite lookup_insert_ne; [done|].
    intros <-. apply Hne. by apply (inv_exec_inj rn HI w w0 r).
  - intros w1 w2 r0 H1 H2.
    apply list_lookup_insert_Some in H1 as [(_ & ? & _)|[Hne1 H1]]; [done|].
    apply list_lookup_insert_Some in H2 as [(_ & ? & _)|[Hne2 H2]]; [done|].
    by apply (inv_exec_inj rn HI w1 w2 r0).
  - intros k r0 [Hne Hk]%lookup_delete_Some.
    destruct (inv_active rn HI k r0 Hk) as (t0 & Ht0 & Hid & ?).
    exists t0. rewrite lookup_insert_ne; [done|].
    intros <-. apply (Hsep r t0); congruence.
  - intros k r0 [[<- <-]|[Hne Hk]]%lookup_insert_Some.
    + exists t'. rewrite lookup_insert_eq.
      split_and!; [done|apply settled_task_id|].
      unfold t'. rewrite settled_task_status.
      destruct o; [done|by destruct (requeues _ _)].
    + destruct (inv_completed rn HI k r0 Hk) as (t0 & Ht0 & Hid & ?).
      exists t0. rewrite lookup_insert_ne; [done|].
      intros <-. apply (Hsep r t0); congruence.
  - apply (ids_update _ _ t _ Ht); [apply settled_task_id|].
    apply (inv_ids rn HI).
  - intros r0 t0 [[<- <-]|[Hn H0]]%lookup_insert_Some.
    + apply settled_task_ok; [by apply (inv_task rn HI r)|done].
    + by apply (inv_task rn HI r0).
  - intros r0 t0 [[<- <-]|[Hn H0]]%lookup_insert_Some Hst.
    + unfold t'. rewrite (settled_task_id now o t).
      by rewrite lookup_insert_eq.
    + rewrite lookup_insert_ne.
      * by apply (inv_done rn HI r0).
      * intros Heq. apply Hn. by apply (inv_ids rn HI r r0 t t0).
Qed.

Lemma Inv_cancel tid now rn : Inv rn -> Inv (cancel_task tid now rn).2.
Proof.
  intros HI. unfold cancel_task.
  destruct (active_tasks rn !! tid) as [r|] eqn:Ha; [|done]. simpl.
  destruct (inv_active rn HI tid r Ha) as (t & Ht & Hid & Hfl).
  set (t' := set_completed_at (Some now) (set_status CANCELLED t)).
  assert (alter (fun t => set_completed_at (Some now)
                            (set_status CANCELLED t)) r (heap rn)
          = <[r:=t']> (heap rn)) as ->.
  { apply map_eq. intros r0. rewrite lookup_alter.
    destruct (decide (r = r0)) as [<-|Hne].
    - by rewrite Ht, lookup_insert_eq.
    - by rewrite lookup_insert_ne. }
  assert (forall r0 t0, heap rn !! r0 = Some t0 -> waiting (status t0) ->
            r0 ≠ r) as Hsep.
  { intros r0 t0 H0 Hw ->.
    apply (waiting_not_in_flight (status t)); congruence. }
  split; simpl.
  - intros r0 Hr0. destruct (inv_queued rn HI r0 Hr0) as (t0 & Ht0 & ?).
    exists t0. rewrite lookup_insert_ne; [done|]. intros <-.
    by apply (Hsep r t0).
  - intros p r0 Hr0. destruct (inv_lane rn HI p r0 Hr0) as (t0 & Ht0 & Hp).
    destruct (decide (r0 = r)) as [->|Hne].
    + exists t'. rewrite lookup_insert_eq. split; [done|]. simpl. congruence.
    + exists t0. by rewrite lookup_insert_ne.
  - apply (inv_nodup rn HI).
  - intros w0 r0 Hw0. destruct (inv_exec rn HI w0 r0 Hw0) as (t0 & Ht0 & ?).
    destruct (decide (r0 = r)) as [->|Hne].
    + exists t'. rewrite lookup_insert_eq. split; [done|by right].
    + exists t0. by rewrite lookup_insert_ne.
  - apply (inv_exec_inj rn HI).
  - intros k r0 Hk. destruct (inv_active rn HI k r0 Hk) as (t0 & Ht0 & ? & ?).
    destruct (decide (r0 = r)) as [->|Hne].
    + exists t'. rewrite lookup_insert_eq.
      split_and!; [done|simpl; congruence|by right].
    + exists t0. by rewrite lookup_insert_ne.
  - intros k r0 Hk.
    destruct (inv_completed rn HI k r0 Hk) as (t0 & Ht0 & ? & ?).
    destruct (decide (r0 = r)) as [->|Hne].
    + exists t'. rewrite lookup_insert_eq.
      split_and!; [done|simpl; congruence|done].
    + exists t0. by rewrite lookup_insert_ne.
  - by apply (ids_update _ _ t _ Ht), (inv_ids rn HI).
  - intros r0 t0 [[<- <-]|[Hn H0]]%lookup_insert_Some.
    + apply cancelled_task_ok; [by apply (inv_task rn HI r)|done].
    + by apply (inv_task rn HI r0).
  - intros r0 t0 [[<- <-]|[Hn H0]]%lookup_insert_Some Hst.
    + simpl in Hst. destruct Hst; congruence.
    + by apply (inv_done rn HI r0).
Qed.

Lemma Inv_fire e rn rn' : Inv rn -> fire e rn = Some rn' -> Inv rn'.
Proof.
  intros HI. unfold fire. destruct (enabled e rn); [|done].
  destruct e as [|new_id nm fn prio maxr now|w now|w now o|tid now]; simpl.
  - intros [= <-]. by apply Inv_start.
  - destruct (decide (id_unused new_id rn)); [|done].
    intros [= <-]. by apply Inv_submit.
  - by apply Inv_claim.
  - by apply Inv_settle.
  - intros [= <-]. by apply Inv_cancel.
Qed.

Lemma Inv_run evs rn rn' : Inv rn -> run evs rn = Some rn' -> Inv rn'.
Proof.
  revert rn. induction evs as [|e evs IH]; intros rn HI; simpl.
  - by intros [= <-].
  - destruct (fire e rn) as [rn1|] eqn:Hf; [|done].
    apply IH. by apply (Inv_fire e rn).
Qed.

Lemma reachable_Inv rn : reachable rn -> Inv rn.
Proof. intros (n & evs & Hrun). apply (Inv_run evs _ _ (Inv_init n) Hrun). Qed.

Lemma run_app evs1 evs2 rn :
  run (evs1 ++ evs2) rn = run evs1 rn ≫= run evs2.
Proof.
  revert rn. induction evs1 as [|e evs1 IH]; intros rn; simpl; [done|].
  by destruct (fire e rn).
Qed.

Lemma reachable_run evs rn rn' :
  reachable rn -> run evs rn = Some rn' -> reachable rn'.
Proof.
  intros (n & evs0 & H0) Hrun. exists n, (evs0 ++ evs).
  by rewrite run_app, H0.
Qed.
End inv_facts.

(** ** A failed attempt with retries left *)

(** After a failing attempt that leaves retries, the task is back in
    its lane with status Retrying and its counter kept, and [_worker]
    has nevertheless entered it in the completed table. *)
Lemma retry_pass_enters_completed w now msg rn r t :
  workers rn !! w = Some (Executing r) ->
  heap rn !! r = Some t ->
  retries t + 1 <= max_retries t ->
  exists rn' t',
    _worker_settle w now (Raised msg) rn = Some rn' /\
    heap rn' !! r = Some t' /\
    status t' = RETRYING /\ retries t' = retries t + 1 /\
    task_id t' = task_id t /\
    lane (priority t) (task_queue rn') =
      lane (priority t) (task_queue rn) ++ [r] /\
    active_tasks rn' !! task_id t = None /\
    completed_tasks rn' !! task_id t = Some r.
Proof.
  intros Hw Ht Hle.
  assert ((retries t + 1 <=? max_retries t) = true) as Hb
    by by apply Z.leb_le.
  eexists _, (settled_task now (Raised msg) t). split.
  { apply _worker_settle_Some. exists r, t. split_and!; [done|done|reflexivity]. }
  simpl. rewrite Hb. simpl.
  rewrite lookup_insert_eq, lookup_delete_eq, lookup_insert_eq.
  split_and!; try done.
  unfold TaskQueue_put. simpl. by rewrite lane_set_lane_eq.
Qed.

(** C1, evaluated on the sample session: the first attempt of task
    ["t1"] (reference 0) raises with three retries left.  The task is
    Retrying, its counter is 1, the same object is back in its lane and
    gone from the active table; but it is in the completed table. *)
Theorem retrying_task_in_completed_table :
  let rn := state_after session_retry in
  run session_retry (TaskRunner_init 1) = Some rn /\
  (status <$> (heap rn !! 0%nat)) = Some RETRYING /\
  (retries <$> (heap rn !! 0%nat)) = Some 1 /\
  (task_id <$> (heap rn !! 0%nat)) = Some "t1" /\
  lane MEDIUM (task_queue rn) = [0%nat] /\
  active_tasks rn !! "t1" = None /\
  completed_tasks rn !! "t1" = Some 0%nat.
Proof. vm_compute. by split_and!. Qed.

(** C2, evaluated on the same session: after the failed attempt the id
    is in the queue and in the completed table at once, and after the
    next dequeue it is in the active and in the completed table at
    once.  Both states are reachable. *)
Theorem id_in_two_places_at_once :
  let rn1 := state_after session_retry in
  let rn2 := state_after session_retry_claimed in
  reachable rn1 /\ reachable rn2 /\
  "t1" ∈ queued_ids rn1 /\ is_Some (completed_tasks rn1 !! "t1") /\
  is_Some (active_tasks rn2 !! "t1") /\ is_Some (completed_tasks rn2 !! "t1").
Proof.
  split_and!.
  - exists 1%nat, session_retry. by vm_compute.
  - exists 1%nat, session_retry_claimed. by vm_compute.
  - apply list_elem_of_In. vm_compute. by left.
  - vm_compute. by eexists.
  - vm_compute. by eexists.
  - vm_compute. by eexists.
Qed.

(** C6, evaluated on the sample session: [cancel_task] on the running
    task answers [True] and marks it Cancelled; when the work then
    returns, [_execute_task] overwrites the status with Completed. *)
Theorem cancelled_status_overwritten :
  let rn0 := state_after session_claimed in
  let rn1 := state_after session_cancelled in
  let rn2 := state_after session_cancelled_then_done in
  reachable rn2 /\
  cancel_task "t1" 12 rn0 = (true, rn1) /\
  (status <$> (heap rn1 !! 0%nat)) = Some CANCELLED /\
  fire (EvSettle 0 13 (Returned (PyInt 5))) rn1 = Some rn2 /\
  (status <$> (heap rn2 !! 0%nat)) = Some COMPLETED.
Proof.
  split_and!.
  - exists 1%nat, session_cancelled_then_done. by vm_compute.
  - by vm_compute.
  - by vm_compute.
  - by vm_compute.
  - by vm_compute.
Qed.

(** ** Cancelling and querying *)

Lemma cancel_task_active tid now rn r :
  active_tasks rn !! tid = Some r ->
  cancel_task tid now rn =
  (true,
   set_heap (alter (fun t => set_completed_at (Some now)
                               (set_status CANCELLED t)) r (heap rn)) rn).
Proof. intros H. unfold cancel_task. by rewrite H. Qed.

Lemma cancel_task_not_active tid now rn :
  active_tasks rn !! tid = None -> cancel_task tid now rn = (false, rn).
Proof. intros H. unfold cancel_task. by rewrite H. Qed.

(** C7. [cancel_task] answers [True] exactly for an id of the active
    table; it then marks that task Cancelled and stamps [completed_at],
    changing nothing else.  For every other id (completed, unknown, or
    only queued) it answers [False] and leaves the runner as it is: the
    queue in particular is never touched, so a queued task whose id was
    passed to [cancel_task] is claimed by a worker when it is at the
    head of the scan, and set Running. *)
Theorem cancel_task_only_active (tid : string) (now : Z) (rn : TaskRunner) :
  ((cancel_task tid now rn).1 = true <-> is_Some (active_tasks rn !! tid)) /\
  (forall r t,
      active_tasks rn !! tid = Some r -> heap rn !! r = Some t ->
      exists t',
        heap (cancel_task tid now rn).2 !! r = Some t' /\
        status t' = CANCELLED /\ completed_at t' = Some now /\
        t' = set_completed_at (Some now) (set_status CANCELLED t)) /\
  (active_tasks rn !! tid = None -> cancel_task tid now rn = (false, rn)) /\
  (task_queue (cancel_task tid now rn).2 = task_queue rn /\
   active_tasks (cancel_task tid now rn).2 = active_tasks rn /\
   completed_tasks (cancel_task tid now rn).2 = completed_tasks rn) /\
  (forall w now' r q' t,
      active_tasks rn !! tid = None ->
      is_running rn = true -> workers rn !! w = Some Polling ->
      TaskQueue_get (task_queue rn) = Some (r, q') ->
      heap rn !! r = Some t -> task_id t = tid ->
      exists rn' t',
        _worker_claim w now' (cancel_task tid now rn).2 = Some rn' /\
        active_tasks rn' !! tid = Some r /\
        workers rn' !! w = Some (Executing r) /\
        heap rn' !! r = Some t' /\
        status t' = RUNNING /\ started_at t' = Some now').
Proof.
  split_and!.
  - unfold cancel_task. destruct (active_tasks rn !! tid); simpl.
    + split; intros _; [by eexists|done].
    + split; [done|]. intros Hs. by destruct Hs.
  - intros r t Ha Ht. rewrite (cancel_task_active _ _ _ _ Ha). simpl.
    eexists. rewrite lookup_alter_eq, Ht. simpl. by split_and!.
  - apply cancel_task_not_active.
  - unfold cancel_task. by destruct (active_tasks rn !! tid).
  - unfold cancel_task. by destruct (active_tasks rn !! tid).
  - unfold cancel_task. by destruct (active_tasks rn !! tid).
  - intros w now' r q' t Ha Hrun Hw Hg Ht Hid.
    rewrite (cancel_task_not_active _ _ _ Ha). simpl.
    eexists _, (_execute_task_begin now' t). split.
    { apply _worker_claim_Some. exists r, q', t.
      split_and!; [done..|reflexivity]. }
    simpl. rewrite Hid, !lookup_insert_eq.
    split_and!; try done.
    apply list_lookup_insert_eq. by eapply lookup_lt_Some.
Qed.

(** The claim step of the theorem above does occur: in the sample
    session, cancelling the queued task ["t1"] is refused and the worker
    then takes the task. *)
Example cancel_queued_task_still_runs :
  let rn := state_after session_submitted in
  cancel_task "t1" 11 rn = (false, rn) /\
  (status <$> (_worker_claim 0 12 (cancel_task "t1" 11 rn).2
                 ≫= fun rn' => heap rn' !! 0%nat)) = Some RUNNING.
Proof. by vm_compute. Qed.



Lemma reachable_state_after evs :
  is_Some (run evs (TaskRunner_init 1)) -> reachable (state_after evs).
Proof.
  intros [rn Hrn]. exists 1%nat, evs. unfold state_after. by rewrite Hrn.
Qed.


(** ** A task whose work always fails *)

Section exhausted_retries.
Context (w r : nat) (t : Task).

Lemma rank_inj p p' : rank p = rank p' -> p = p'.
Proof. by destruct p, p'. Qed.

(** One failing pass, spelled out. *)
Lemma failing_pass_unfold k rn now now' msg :
  next_in_line w r t k rn ->
  exists tk,
    heap rn !! r = Some tk /\ retries tk = k /\
    let t' := settled_task now' (Raised msg) (_execute_task_begin now tk) in
    let q' := set_lane (priority t) [] (task_queue rn) in
    _worker_iteration w now now' (Raised msg) rn =
    Some (mkRunner (max_workers rn)
            (if k + 1 <=? max_retries t then TaskQueue_put t' r q' else q')
            (delete (task_id t) (active_tasks rn))
            (<[task_id t:=r]> (completed_tasks rn))
            (workers rn) true
            (<[r:=t']> (heap rn))).
Proof.
  intros (Hrun & Hw & Hlane & Hhi & tk & Htk & Hid & Hprio & Hmax & Hk & Hst).
  exists tk. split_and!; [done..|]. intros t' q'.
  assert (TaskQueue_get (task_queue rn) = Some (r, q')) as Hg.
  { apply TaskQueue_get_Some. exists (priority t), []. by split_and!. }
  unfold _worker_iteration.
  set (rn1 := mkRunner (max_workers rn) q'
            (<[task_id tk:=r]> (active_tasks rn))
            (completed_tasks rn)
            (<[w:=Executing r]> (workers rn))
            (is_running rn)
            (<[r:=_execute_task_begin now tk]> (heap rn))).
  assert (_worker_claim w now rn = Some rn1) as ->.
  { apply _worker_claim_Some. exists r, q', tk. by split_and!. }
  assert (w < length (workers rn))%nat as Hlt by by eapply lookup_lt_Some.
  apply _worker_settle_Some.
  exists r, (_execute_task_begin now tk). split_and!.
  - simpl. by apply list_lookup_insert_eq.
  - simpl. by rewrite lookup_insert_eq.
  - subst t'. simpl. rewrite Hk, Hmax, Hid, Hrun.
    rewrite delete_insert_eq, insert_insert_eq, list_insert_insert_eq.
    by rewrite (list_insert_id _ _ _ Hw).
Qed.

Lemma failing_pass_retry k rn now now' msg :
  next_in_line w r t k rn -> k + 1 <= max_retries t ->
  exists rn',
    _worker_iteration w now now' (Raised msg) rn = Some rn' /\
    next_in_line w r t (k + 1) rn' /\
    (status <$> (heap rn' !! r)) = Some RETRYING.
Proof.
  intros Hready Hle.
  destruct (failing_pass_unfold k rn now now' msg Hready)
    as (tk & Htk & Hk & Hpass).
  destruct Hready as (Hrun & Hw & Hlane & Hhi & tk' & Htk' & Hid & Hprio
                      & Hmax & _ & Hst).
  assert (tk' = tk) as -> by congruence.
  eexists. split; [exact Hpass|].
  assert ((k + 1 <=? max_retries t) = true) as Hb by by apply Z.leb_le.
  assert ((retries tk + 1 <=? max_retries tk) = true) as Hb'
    by (rewrite Hk, Hmax; by apply Z.leb_le).
  rewrite Hb. split.
  - split_and!; simpl; try done.
    + rewrite Hb'. unfold TaskQueue_put. simpl. rewrite Hprio.
      by rewrite !lane_set_lane_eq.
    + intros p Hp. rewrite Hb'. unfold TaskQueue_put. simpl. rewrite Hprio.
      rewrite !lane_set_lane_ne by (intros <-; lia). by apply Hhi.
    + eexists. rewrite lookup_insert_eq. split; [done|].
      rewrite Hb'. simpl. by split_and!; try lia.
  - simpl. rewrite lookup_insert_eq. simpl. by rewrite Hb'.
Qed.

Lemma failing_pass_last rn now now' msg :
  next_in_line w r t (Z.max (max_retries t) 0) rn ->
  0 <= max_retries t ->
  exists rn' t',
    _worker_iteration w now now' (Raised msg) rn = Some rn' /\
    heap rn' !! r = Some t' /\
    status t' = FAILED /\ retries t' = max_retries t + 1 /\
    error t' = Some msg /\ completed_at t' = Some now' /\
    completed_tasks rn' !! task_id t = Some r /\
    active_tasks rn' !! task_id t = None /\
    lane (priority t) (task_queue rn') = [].
Proof.
  intros Hready Hm. rewrite Z.max_l in Hready by done.
  destruct (failing_pass_unfold _ rn now now' msg Hready)
    as (tk & Htk & Hk & Hpass).
  destruct Hready as (Hrun & Hw & Hlane & Hhi & tk' & Htk' & Hid & Hprio
                      & Hmax & _ & Hst).
  assert (tk' = tk) as -> by congruence.
  assert ((max_retries t + 1 <=? max_retries t) = false) as Hb
    by (apply Z.leb_gt; lia).
  assert ((retries tk + 1 <=? max_retries tk) = false) as Hb'
    by (rewrite Hk, Hmax; apply Z.leb_gt; lia).
  rewrite Hb in Hpass.
  eexists _, _. split; [exact Hpass|]. simpl.
  rewrite !lookup_insert_eq, lookup_delete_eq, Hb'. simpl.
  split_and!; try done.
  - simpl. lia.
  - by rewrite lane_set_lane_eq.
Qed.

Lemma failing_passes_app atts1 atts2 rn :
  failing_passes (atts1 ++ atts2) w rn =
  failing_passes atts1 w rn ≫= failing_passes atts2 w.
Proof.
  revert rn. induction atts1 as [|[[now now'] msg] atts1 IH]; intros rn;
    simpl; [done|].
  by destruct (_worker_iteration w now now' (Raised msg) rn).
Qed.

Lemma failing_passes_retry atts k rn :
  next_in_line w r t k rn -> k + Z.of_nat (length atts) <= max_retries t ->
  exists rn',
    failing_passes atts w rn = Some rn' /\
    next_in_line w r t (k + Z.of_nat (length atts)) rn'.
Proof.
  revert k rn. induction atts as [|[[now now'] msg] atts IH];
    intros k rn Hready Hle; simpl in *.
  - exists rn. by rewrite Z.add_0_r.
  - destruct (failing_pass_retry k rn now now' msg Hready)
      as (rn1 & -> & Hready1 & _); [lia|].
    destruct (IH (k + 1) rn1 Hready1) as (rn' & Hrn' & Hready'); [lia|].
    exists rn'. split; [done|].
    by replace (k + Z.of_nat (S (length atts)))
      with (k + 1 + Z.of_nat (length atts)) by lia.
Qed.

Lemma next_in_line_queued k rn :
  next_in_line w r t k rn ->
  exists tk,
    heap rn !! r = Some tk /\ status tk ≠ FAILED /\ retries tk = k /\
    TaskQueue_get (task_queue rn)
    = Some (r, set_lane (priority t) [] (task_queue rn)).
Proof.
  intros (Hrun & Hw & Hlane & Hhi & tk & Htk & Hid & Hprio & Hmax & Hk & Hst).
  exists tk. split_and!; try done.
  apply TaskQueue_get_Some. exists (priority t), []. by split_and!.
Qed.
End exhausted_retries.

(** The schedule in which one worker makes the attempts back to back.
    Take a fresh task ([retries = 0], a retry ceiling that is not
    negative) that is alone in its lane and next in line for a free
    worker, and let the work raise at every attempt.  As long as no
    more than [max_retries] attempts have been made the task is not
    Failed: it is back in the queue, with one retry counted for each
    attempt.  The attempt number [max_retries + 1] makes it Failed with
    [retries = max_retries + 1], the text of the last exception in
    [error] and [completed_at] stamped; the task is in the completed
    table, not in the active table and not in its lane any more. *)
Lemma always_failing_task_fails (w r : nat) (t : Task) (rn : TaskRunner) :
  heap rn !! r = Some t ->
  retries t = 0 -> status t = PENDING -> 0 <= max_retries t ->
  is_running rn = true ->
  workers rn !! w = Some Polling ->
  lane (priority t) (task_queue rn) = [r] ->
  (forall p, (rank p < rank (priority t))%nat -> lane p (task_queue rn) = []) ->
  (forall atts : list (Z * Z * string),
      Z.of_nat (length atts) <= max_retries t ->
      exists rn' t',
        failing_passes atts w rn = Some rn' /\
        heap rn' !! r = Some t' /\
        status t' ≠ FAILED /\ retries t' = Z.of_nat (length atts) /\
        (fst <$> TaskQueue_get (task_queue rn')) = Some r) /\
  (forall (atts : list (Z * Z * string)) (now now' : Z) (msg : string),
      Z.of_nat (length atts) = max_retries t ->
      exists rn' t',
        failing_passes (atts ++ [(now, now', msg)]) w rn = Some rn' /\
        heap rn' !! r = Some t' /\
        status t' = FAILED /\ retries t' = max_retries t + 1 /\
        error t' = Some msg /\ completed_at t' = Some now' /\
        completed_tasks rn' !! task_id t = Some r /\
        active_tasks rn' !! task_id t = None /\
        lane (priority t) (task_queue rn') = []).
Proof.
  intros Ht Hr0 Hst Hm Hrun Hw Hlane Hhi.
  assert (next_in_line w r t 0 rn) as Hready.
  { split_and!; try done. exists t. split_and!; try done. congruence. }
  split.
  - intros atts Hlen.
    destruct (failing_passes_retry w r t atts 0 rn Hready) as (rn' & Hp & Hrd);
      [lia|].
    destruct (next_in_line_queued w r t _ rn' Hrd) as (tk & Htk & ? & ? & Hg).
    exists rn', tk. rewrite Hg. split_and!; try done; lia.
  - intros atts now now' msg Hlen.
    destruct (failing_passes_retry w r t atts 0 rn Hready) as (rn1 & Hp & Hrd);
      [lia|].
    rewrite failing_passes_app, Hp. simpl.
    replace (0 + Z.of_nat (length atts)) with (Z.max (max_retries t) 0) in Hrd by lia.
    destruct (failing_pass_last w r t rn1 now now' msg Hrd Hm)
      as (rn' & t' & -> & Hrest).
    by exists rn', t'.
Qed.

Lemma always_failing_task_fails_witness :
  let t := mkTask "t1" "job" example_async_task MEDIUM PENDING 10 None None
             PyNone None 0 3 in
  exists rn' t',
    failing_passes
      ([(11, 12, "a"); (13, 14, "b"); (15, 16, "c")] ++ [(17, 18, "boom")])
      0 (state_after session_submitted) = Some rn' /\
    heap rn' !! 0%nat = Some t' /\
    status t' = FAILED /\ retries t' = max_retries t + 1 /\
    error t' = Some "boom" /\ completed_at t' = Some 18 /\
    completed_tasks rn' !! task_id t = Some 0%nat /\
    active_tasks rn' !! task_id t = None /\
    lane (priority t) (task_queue rn') = [].
Proof.
  intros t.
  refine (proj2 (always_failing_task_fails 0 0 t
                   (state_after session_submitted) _ _ _ _ _ _ _ _)
            [(11, 12, "a"); (13, 14, "b"); (15, 16, "c")] 17 18 "boom" _);
    try (vm_compute; reflexivity).
  - vm_compute. discriminate.
  - intros []; vm_compute; (reflexivity || lia).
Defined.

(** ** Counting the failed attempts of a task, in any run *)

Section retry_accounting.
Implicit Types (rn : TaskRunner) (t : Task) (r w : nat) (e : Event).

(** One event changes [retries] of task [r] only by ending one of its
    attempts with an exception, and then by one. *)
Lemma fire_retries_step e rn rn1 r t :
  Inv rn -> fire e rn = Some rn1 -> heap rn !! r = Some t ->
  exists t1,
    heap rn1 !! r = Some t1 /\
    task_id t1 = task_id t /\ max_retries t1 = max_retries t /\
    retries t1 =
      match settles r e rn with
      | Some (Raised _) => retries t + 1
      | _ => retries t
      end.
Proof.
  intros HI Hf Ht. unfold fire in Hf. destruct (enabled e rn); [|done].
  destruct e as [|new_id nm fn prio maxr now|w now|w now o|tid now];
    simpl in Hf; simpl.
  - injection Hf as <-. exists t. split_and!; try done.
    unfold start. by destruct (is_running rn).
  - destruct (decide (id_unused new_id rn)); [|done].
    injection Hf as <-. exists t. split_and!; try done. simpl.
    rewrite lookup_insert_ne; [done|].
    intros <-. pose proof (fresh_ref_unused rn). congruence.
  - apply _worker_claim_Some in Hf as (r0 & q' & t0 & _ & _ & Hg & Ht0 & ->).
    simpl. destruct (decide (r0 = r)) as [->|Hne].
    + exists (_execute_task_begin now t0). rewrite lookup_insert_eq.
      assert (t0 = t) as -> by congruence. by split_and!.
    + exists t. by rewrite lookup_insert_ne.
  - apply _worker_settle_Some in Hf as (r0 & t0 & Hw & Ht0 & ->). simpl.
    rewrite Hw. destruct (decide (r0 = r)) as [->|Hne].
    + assert (t0 = t) as -> by congruence.
      rewrite decide_True by done.
      exists (settled_task now o t). rewrite lookup_insert_eq.
      split_and!; [done|apply settled_task_id|apply settled_task_max_retries|].
      destruct o as [v|msg]; simpl; [done|]. by case_match.
    + rewrite decide_False by congruence.
      exists t. by rewrite lookup_insert_ne.
  - injection Hf as <-. unfold cancel_task.
    destruct (active_tasks rn !! tid) as [r0|] eqn:Ha; [|by exists t].
    simpl. destruct (decide (r0 = r)) as [->|Hne].
    + eexists. rewrite lookup_alter_eq, Ht. simpl. by split_and!.
    + exists t. by rewrite lookup_alter_ne.
Qed.

Lemma run_retries_count evs rn rn' r t :
  Inv rn -> run evs rn = Some rn' -> heap rn !! r = Some t ->
  Forall raises (attempts_ended r evs rn) ->
  exists t',
    heap rn' !! r = Some t' /\
    task_id t' = task_id t /\ max_retries t' = max_retries t /\
    retries t' = retries t + Z.of_nat (length (attempts_ended r evs rn)).
Proof.
  revert rn t. induction evs as [|e evs IH]; intros rn t HI Hrun Ht Hall;
    simpl in *.
  - injection Hrun as <-. exists t. split_and!; try done. lia.
  - destruct (fire e rn) as [rn1|] eqn:Hf; [|done].
    destruct (fire_retries_step e rn rn1 r t HI Hf Ht)
      as (t1 & Ht1 & Hid1 & Hmax1 & Hr1).
    apply Forall_app in Hall as [Hhead Hall].
    destruct (IH rn1 t1 (Inv_fire e rn rn1 HI Hf) Hrun Ht1 Hall)
      as (t' & Ht' & Hid' & Hmax' & Hr').
    exists t'. split_and!; try congruence.
    rewrite Hr', Hr1, length_app.
    destruct (settles r e rn) as [[v|msg]|]; simpl in *; try lia.
    apply Forall_singleton in Hhead as [? ?]. done.
Qed.
End retry_accounting.

(** In any run from a state in which task [r] is Pending, with a retry
    ceiling that is not negative: if every attempt of the task that ends
    during the run ends with an exception, then [retries] is the number
    of these attempts, it never exceeds [max_retries + 1], and the task
    is Failed exactly when that number is reached; a Failed task has its
    error and [completed_at] set and is in the completed table, not in
    the active one. *)
Theorem failed_exactly_when_retries_exhausted
    (rn : TaskRunner) (r : nat) (t : Task) (evs : list Event)
    (rn' : TaskRunner) :
  reachable rn -> heap rn !! r = Some t ->
  status t = PENDING -> 0 <= max_retries t ->
  run evs rn = Some rn' ->
  Forall raises (attempts_ended r evs rn) ->
  exists t',
    heap rn' !! r = Some t' /\
    retries t' = Z.of_nat (length (attempts_ended r evs rn)) /\
    retries t' <= max_retries t + 1 /\
    (status t' = FAILED <-> retries t' = max_retries t + 1) /\
    (status t' = FAILED ->
     is_Some (error t') /\ is_Some (completed_at t') /\
     completed_tasks rn' !! task_id t = Some r /\
     active_tasks rn' !! task_id t = None).
Proof.
  intros HI%reachable_Inv Ht Hst Hm Hrun Hall.
  destruct (run_retries_count evs rn rn' r t HI Hrun Ht Hall)
    as (t' & Ht' & Hid & Hmax & Hr).
  destruct (ok_pending t (inv_task rn HI r t Ht) Hst) as (Hr0 & _ & _).
  pose proof (Inv_run evs rn rn' HI Hrun) as HI'.
  pose proof (inv_task rn' HI' r t' Ht') as Hok.
  exists t'. split; [done|]. split; [lia|].
  assert (status t' = FAILED -> retries t' = max_retries t + 1) as Hfail.
  { intros Hf. destruct (ok_failed t' Hok Hf) as [-> _]. lia. }
  assert (status t' ≠ FAILED -> retries t' <= max_retries t) as Hnf.
  { intros Hf. pose proof (ok_not_failed t' Hok Hf). lia. }
  split_and!.
  - destruct (decide (status t' = FAILED)) as [Hf|Hf];
      [rewrite (Hfail Hf); lia|specialize (Hnf Hf); lia].
  - split; [done|]. intros Heq.
    destruct (decide (status t' = FAILED)) as [Hf|Hf]; [done|].
    specialize (Hnf Hf). lia.
  - intros Hf. split_and!.
    + apply not_eq_None_Some. intros Hnone%(ok_error_retries t' Hok).
      specialize (Hfail Hf). lia.
    + by destruct (ok_failed t' Hok Hf).
    + rewrite <- Hid. apply (inv_done rn' HI' r t' Ht'). by right.
    + destruct (active_tasks rn' !! task_id t) as [r0|] eqn:Ha; [|done].
      destruct (inv_active rn' HI' _ r0 Ha) as (t0 & Ht0 & Hid0 & Hfl).
      assert (r0 = r) as -> by (apply (inv_ids rn' HI' r0 r t0 t'); congruence).
      destruct Hfl; congruence.
Qed.

Lemma failed_exactly_when_retries_exhausted_witness :
  let rn := state_after session_submitted in
  let t := mkTask "t1" "job" example_async_task MEDIUM PENDING 10 None None
             PyNone None 0 3 in
  let evs := [ EvClaim 0 11; EvSettle 0 12 (Raised "a");
               EvSubmit "t2" "other" example_sync_task URGENT 0 13;
               EvClaim 0 14; EvSettle 0 15 (Returned (PyInt 1));
               EvClaim 0 16; EvCancel "t1" 17; EvSettle 0 18 (Raised "b");
               EvClaim 0 19; EvSettle 0 20 (Raised "c");
               EvClaim 0 21; EvSettle 0 22 (Raised "d") ] in
  exists rn' t',
    run evs rn = Some rn' /\
    heap rn' !! 0%nat = Some t' /\
    retries t' = Z.of_nat (length (attempts_ended 0 evs rn)) /\
    retries t' <= max_retries t + 1 /\
    (status t' = FAILED <-> retries t' = max_retries t + 1) /\
    (status t' = FAILED ->
     is_Some (error t') /\ is_Some (completed_at t') /\
     completed_tasks rn' !! task_id t = Some 0%nat /\
     active_tasks rn' !! task_id t = None).
Proof.
  intros rn t evs.
  assert (run evs rn = Some (default rn (run evs rn))) as Hrun
    by (vm_compute; reflexivity).
  destruct (failed_exactly_when_retries_exhausted rn 0%nat t evs
              (default rn (run evs rn))) as (t' & H').
  - apply reachable_state_after. vm_compute. by eexists.
  - vm_compute. reflexivity.
  - reflexivity.
  - vm_compute. discriminate.
  - exact Hrun.
  - vm_compute. repeat constructor; by eexists.
  - exists (default rn (run evs rn)), t'. split; [exact Hrun|exact H'].
Defined.

(** ** Which events touch which task *)

Section frame_facts.
Implicit Types (rn : TaskRunner) (t : Task) (r w : nat) (e : Event).

(** An event changes a task object only if it dequeues that task, or
    if the task is being executed. *)
Lemma fire_heap_frame e rn rn' r t :
  Inv rn -> fire e rn = Some rn' -> heap rn !! r = Some t ->
  heap rn' !! r = Some t \/
  (waiting (status t) /\ dequeues e rn = Some r) \/
  in_flight (status t).
Proof.
  intros HI Hf Ht. unfold fire in Hf. destruct (enabled e rn); [|done].
  destruct e as [|new_id nm fn prio maxr now|w now|w now o|tid now];
    simpl in Hf.
  - injection Hf as <-. left. unfold start.
    by destruct (is_running rn).
  - destruct (decide (id_unused new_id rn)); [|done].
    injection Hf as <-. left. simpl.
    rewrite lookup_insert_ne; [done|].
    intros <-. pose proof (fresh_ref_unused rn). congruence.
  - apply _worker_claim_Some in Hf as (r0 & q' & t0 & _ & _ & Hg & Ht0 & ->).
    destruct (decide (r0 = r)) as [->|Hne].
    + right; left. simpl. rewrite Hg. split; [|done].
      destruct (inv_queued rn HI r) as (t1 & Ht1 & Hwt).
      { rewrite (TaskQueue_get_queued _ _ _ Hg). by left. }
      congruence.
    + left. simpl. by rewrite lookup_insert_ne.
  - apply _worker_settle_Some in Hf as (r0 & t0 & Hw & Ht0 & ->).
    destruct (decide (r0 = r)) as [->|Hne].
    + right; right. destruct (inv_exec rn HI w r Hw) as (t1 & Ht1 & Hfl).
      congruence.
    + left. simpl. by rewrite lookup_insert_ne.
  - injection Hf as <-. unfold cancel_task.
    destruct (active_tasks rn !! tid) as [r0|] eqn:Ha; [|by left].
    destruct (decide (r0 = r)) as [->|Hne].
    + right; right.
      destruct (inv_active rn HI tid r Ha) as (t1 & Ht1 & _ & Hfl).
      congruence.
    + left. simpl. by rewrite lookup_alter_ne.
Qed.

(** Completed and Failed tasks are never touched again. *)
Lemma done_frozen e rn rn' r t :
  Inv rn -> fire e rn = Some rn' -> heap rn !! r = Some t ->
  status t = COMPLETED \/ status t = FAILED ->
  heap rn' !! r = Some t.
Proof.
  intros HI Hf Ht Hst.
  destruct (fire_heap_frame e rn rn' r t HI Hf Ht)
    as [?|[[[Hs|Hs] _]|[Hs|Hs]]]; [done|..];
    destruct Hst; congruence.
Qed.

(** A Pending task stays as it is until it is dequeued. *)
Lemma pending_frozen e rn rn' r t :
  Inv rn -> fire e rn = Some rn' -> heap rn !! r = Some t ->
  status t = PENDING -> dequeues e rn ≠ Some r ->
  heap rn' !! r = Some t.
Proof.
  intros HI Hf Ht Hst Hdq.
  destruct (fire_heap_frame e rn rn' r t HI Hf Ht)
    as [?|[[_ ?]|[Hs|Hs]]]; [done|done|congruence..].
Qed.

(** A task leaves the queue only by being dequeued. *)
Lemma fire_queue_frame e rn rn' r :
  fire e rn = Some rn' -> r ∈ queued (task_queue rn) ->
  dequeues e rn ≠ Some r -> r ∈ queued (task_queue rn').
Proof.
  intros Hf Hin Hdq. unfold fire in Hf. destruct (enabled e rn); [|done].
  destruct e as [|new_id nm fn prio maxr now|w now|w now o|tid now];
    simpl in Hf.
  - injection Hf as <-. unfold start. by destruct (is_running rn).
  - destruct (decide (id_unused new_id rn)); [|done].
    injection Hf as <-. simpl. rewrite queued_put. by right.
  - apply _worker_claim_Some in Hf as (r0 & q' & t0 & _ & _ & Hg & Ht0 & ->).
    simpl in *. rewrite Hg in Hdq. simpl in Hdq.
    rewrite (TaskQueue_get_queued _ _ _ Hg) in Hin.
    apply elem_of_cons in Hin as [->|Hin]; done.
  - apply _worker_settle_Some in Hf as (r0 & t0 & Hw & Ht0 & ->). simpl.
    destruct (requeues o t0); [|done]. rewrite queued_put. by right.
  - injection Hf as <-. unfold cancel_task.
    by destruct (active_tasks rn !! tid).
Qed.

(** A Pending task is in neither table. *)
Lemma pending_not_in_tables rn r t :
  Inv rn -> heap rn !! r = Some t -> status t = PENDING ->
  active_tasks rn !! task_id t = None /\
  completed_tasks rn !! task_id t = None.
Proof.
  intros HI Ht Hst. split.
  - destruct (active_tasks rn !! task_id t) as [r0|] eqn:Ha; [|done].
    destruct (inv_active rn HI _ r0 Ha) as (t0 & Ht0 & Hid & [Hs|Hs]);
      assert (r0 = r) as -> by (by apply (inv_ids rn HI r0 r t0 t));
      congruence.
  - destruct (completed_tasks rn !! task_id t) as [r0|] eqn:Hc; [|done].
    destruct (inv_completed rn HI _ r0 Hc) as (t0 & Ht0 & Hid & Hs).
    assert (r0 = r) as -> by (by apply (inv_ids rn HI r0 r t0 t)).
    congruence.
Qed.

Lemma pending_run_frozen evs rn rn' r t :
  Inv rn -> heap rn !! r = Some t -> status t = PENDING ->
  r ∈ queued (task_queue rn) ->
  run evs rn = Some rn' -> leaves_queued r evs rn ->
  Inv rn' /\ heap rn' !! r = Some t /\ r ∈ queued (task_queue rn').
Proof.
  revert rn. induction evs as [|e evs IH]; intros rn HI Ht Hst Hin; simpl.
  - by intros [= <-] _.
  - destruct (fire e rn) as [rn1|] eqn:Hf; [|done].
    intros Hrun [Hdq Hrest]. apply (IH rn1); try done.
    + by apply (Inv_fire e rn).
    + by apply (pending_frozen e rn).
    + by apply (fire_queue_frame e rn).
Qed.
End frame_facts.

(** The queue and the active table never share an id. *)
Lemma queue_active_disjoint rn tid :
  reachable rn -> tid ∈ queued_ids rn -> active_tasks rn !! tid = None.
Proof.
  intros HI%reachable_Inv Hq.
  unfold queued_ids in Hq. apply list_elem_of_omap in Hq as (r & Hr & Hid).
  destruct (heap rn !! r) as [t|] eqn:Ht; [|done]. simpl in Hid.
  injection Hid as <-.
  destruct (inv_queued rn HI r Hr) as (t0 & Ht0 & Hwt).
  destruct (active_tasks rn !! task_id t) as [r0|] eqn:Ha; [|done].
  destruct (inv_active rn HI _ r0 Ha) as (t1 & Ht1 & Hid1 & Hfl).
  assert (r0 = r) as -> by (by apply (inv_ids rn HI r0 r t1 t)).
  exfalso. apply (waiting_not_in_flight (status t)); congruence.
Qed.

(** ** A task whose work always fails, under any schedule *)

Section live_facts.
Implicit Types (rn : TaskRunner) (t : Task) (r w : nat) (e : Event).

Lemma Inv_live_init n : Inv_live (TaskRunner_init n).
Proof. split; simpl; intros; simplify_map_eq. Qed.

Lemma Inv_live_start rn : Inv_live rn -> Inv_live (start rn).
Proof.
  intros [Hq Hx]. unfold start. destruct (is_running rn); [by split|].
  split; simpl; [done|].
  intros r t Ht Hfl. destruct (Hx r t Ht Hfl) as [w Hw].
  exists w. rewrite lookup_app_l; [done|]. by eapply lookup_lt_Some.
Qed.

Lemma Inv_live_submit new_id nm fn prio maxr now rn :
  Inv_live rn -> Inv_live (submit_task new_id nm fn prio maxr now rn).2.
Proof.
  intros [Hq Hx]. split; simpl.
  - intros r t [[<- <-]|[Hne Ht]]%lookup_insert_Some Hwt;
      rewrite queued_put; [by left|].
    right. by apply (Hq r t).
  - intros r t [[<- <-]|[Hne Ht]]%lookup_insert_Some Hfl.
    + destruct Hfl; done.
    + by apply (Hx r t).
Qed.

Lemma Inv_live_claim w now rn rn' :
  Inv_live rn -> _worker_claim w now rn = Some rn' -> Inv_live rn'.
Proof.
  intros [Hq Hx] Hc.
  apply _worker_claim_Some in Hc as (r0 & q' & t0 & Hrun & Hw & Hg & Ht0 & ->).
  split; simpl.
  - intros r t [[<- <-]|[Hne Ht]]%lookup_insert_Some Hwt.
    + destruct Hwt; done.
    + pose proof (Hq r t Ht Hwt) as Hin.
      rewrite (TaskQueue_get_queued _ _ _ Hg) in Hin.
      apply elem_of_cons in Hin as [?|?]; [congruence|done].
  - intros r t [[<- <-]|[Hne Ht]]%lookup_insert_Some Hfl.
    + exists w. apply list_lookup_insert_eq. by eapply lookup_lt_Some.
    + destruct (Hx r t Ht Hfl) as [w0 Hw0]. exists w0.
      rewrite list_lookup_insert_ne; [done|]. intros <-. congruence.
Qed.

Lemma Inv_live_settle w now o rn rn' :
  Inv_live rn -> _worker_settle w now o rn = Some rn' -> Inv_live rn'.
Proof.
  intros [Hq Hx] Hs.
  apply _worker_settle_Some in Hs as (r0 & t0 & Hw & Ht0 & ->).
  split; simpl.
  - intros r t [[<- <-]|[Hne Ht]]%lookup_insert_Some Hwt.
    + assert (requeues o t0 = true) as ->.
      { apply (requeues_status now). rewrite settled_task_status in *.
        destruct o as [v|msg]; [by destruct Hwt|].
        destruct (requeues (Raised msg) t0); [done|by destruct Hwt]. }
      rewrite queued_put. by left.
    + pose proof (Hq r t Ht Hwt) as Hin.
      destruct (requeues o t0); [|done]. rewrite queued_put. by right.
  - intros r t [[<- <-]|[Hne Ht]]%lookup_insert_Some Hfl.
    + rewrite settled_task_status in Hfl.
      destruct o as [v|msg]; [by destruct Hfl|].
      destruct (requeues (Raised msg) t0); by destruct Hfl.
    + destruct (Hx r t Ht Hfl) as [w0 Hw0]. exists w0.
      rewrite list_lookup_insert_ne; [done|]. intros <-. congruence.
Qed.

Lemma Inv_live_cancel tid now rn :
  Inv rn -> Inv_live rn -> Inv_live (cancel_task tid now rn).2.
Proof.
  intros HI [Hq Hx]. unfold cancel_task.
  destruct (active_tasks rn !! tid) as [r0|] eqn:Ha; [|done].
  destruct (inv_active rn HI tid r0 Ha) as (t0 & Ht0 & _ & Hfl0).
  split; simpl.
  - intros r t Ht Hwt. destruct (decide (r0 = r)) as [->|Hne].
    + rewrite lookup_alter_eq, Ht0 in Ht. injection Ht as <-.
      by destruct Hwt.
    + rewrite lookup_alter_ne in Ht by done. by apply (Hq r t).
  - intros r t Ht Hfl. destruct (decide (r0 = r)) as [->|Hne].
    + by apply (Hx r t0).
    + rewrite lookup_alter_ne in Ht by done. by apply (Hx r t).
Qed.

Lemma Inv_live_fire e rn rn' :
  Inv rn -> Inv_live rn -> fire e rn = Some rn' -> Inv_live rn'.
Proof.
  intros HI HL. unfold fire. destruct (enabled e rn); [|done].
  destruct e as [|new_id nm fn prio maxr now|w now|w now o|tid now]; simpl.
  - intros [= <-]. by apply Inv_live_start.
  - destruct (decide (id_unused new_id rn)); [|done].
    intros [= <-]. by apply Inv_live_submit.
  - by apply Inv_live_claim.
  - by apply Inv_live_settle.
  - intros [= <-]. by apply Inv_live_cancel.
Qed.

Lemma Inv_live_run evs rn rn' :
  Inv rn -> Inv_live rn -> run evs rn = Some rn' -> Inv_live rn'.
Proof.
  revert rn. induction evs as [|e evs IH]; intros rn HI HL; simpl.
  - by intros [= <-].
  - destruct (fire e rn) as [rn1|] eqn:Hf; [|done].
    apply IH; [by apply (Inv_fire e rn)|by apply (Inv_live_fire e rn)].
Qed.

Lemma reachable_Inv_live rn : reachable rn -> Inv_live rn.
Proof.
  intros (n & evs & Hrun).
  apply (Inv_live_run evs _ _ (Inv_init n) (Inv_live_init n) Hrun).
Qed.

(** What one event does to task [r]: only the end of one of its
    attempts changes [retries] and [error], and only that makes the
    task Completed or Failed. *)
Lemma fire_attempt_step e rn rn1 r t :
  Inv rn -> fire e rn = Some rn1 -> heap rn !! r = Some t ->
  exists t1,
    heap rn1 !! r = Some t1 /\
    task_id t1 = task_id t /\ max_retries t1 = max_retries t /\
    match settles_at r e rn with
    | Some (now, Raised msg) =>
        retries t1 = retries t + 1 /\ error t1 = Some msg /\
        status t1 ≠ COMPLETED /\
        (status t1 = FAILED -> completed_at t1 = Some now)
    | Some (now, Returned _) => True
    | None =>
        retries t1 = retries t /\ error t1 = error t /\
        (status t1 = COMPLETED -> status t = COMPLETED) /\
        (status t1 = FAILED ->
         status t = FAILED /\ completed_at t1 = completed_at t)
    end.
Proof.
  intros HI Hf Ht. unfold fire in Hf. destruct (enabled e rn); [|done].
  destruct e as [|new_id nm fn prio maxr now|w now|w now o|tid now];
    simpl in Hf; simpl.
  - injection Hf as <-. exists t. split_and!; try done.
    unfold start. by destruct (is_running rn).
  - destruct (decide (id_unused new_id rn)); [|done].
    injection Hf as <-. exists t. split_and!; try done. simpl.
    rewrite lookup_insert_ne; [done|].
    intros <-. pose proof (fresh_ref_unused rn). congruence.
  - apply _worker_claim_Some in Hf as (r0 & q' & t0 & _ & _ & Hg & Ht0 & ->).
    simpl. destruct (decide (r0 = r)) as [->|Hne].
    + exists (_execute_task_begin now t0). rewrite lookup_insert_eq.
      assert (t0 = t) as -> by congruence. by split_and!.
    + exists t. by rewrite lookup_insert_ne.
  - apply _worker_settle_Some in Hf as (r0 & t0 & Hw & Ht0 & ->). simpl.
    rewrite Hw. destruct (decide (r0 = r)) as [->|Hne].
    + assert (t0 = t) as -> by congruence.
      rewrite decide_True by done.
      exists (settled_task now o t). rewrite lookup_insert_eq.
      split_and!; [done|apply settled_task_id|apply settled_task_max_retries|].
      destruct o as [v|msg]; simpl; [done|].
      destruct (retries t + 1 <=? max_retries t); simpl; by split_and!.
    + rewrite decide_False by congruence.
      exists t. by rewrite lookup_insert_ne.
  - injection Hf as <-. unfold cancel_task.
    destruct (active_tasks rn !! tid) as [r0|] eqn:Ha; [|by exists t].
    simpl. destruct (decide (r0 = r)) as [->|Hne].
    + eexists. rewrite lookup_alter_eq, Ht. simpl. by split_and!.
    + exists t. by rewrite lookup_alter_ne.
Qed.

Lemma run_failing_attempts evs rn rn' r t :
  Inv rn -> run evs rn = Some rn' -> heap rn !! r = Some t ->
  Forall ends_raising (attempt_ends r evs rn) ->
  exists t',
    heap rn' !! r = Some t' /\
    task_id t' = task_id t /\ max_retries t' = max_retries t /\
    retries t' = retries t + Z.of_nat (length (attempt_ends r evs rn)) /\
    (status t' = COMPLETED -> status t = COMPLETED) /\
    match last (attempt_ends r evs rn) with
    | Some (now, o) =>
        (exists msg, o = Raised msg /\ error t' = Some msg) /\
        (status t' = FAILED -> completed_at t' = Some now)
    | None =>
        error t' = error t /\
        (status t' = FAILED ->
         status t = FAILED /\ completed_at t' = completed_at t)
    end.
Proof.
  revert rn t. induction evs as [|e evs IH]; intros rn t HI Hrun Ht Hall;
    simpl in *.
  - injection Hrun as <-. exists t. split_and!; try done. lia.
  - destruct (fire e rn) as [rn1|] eqn:Hf; [|done].
    destruct (fire_attempt_step e rn rn1 r t HI Hf Ht)
      as (t1 & Ht1 & Hid1 & Hmax1 & Hstep).
    apply Forall_app in Hall as [Hhead Hall].
    destruct (IH rn1 t1 (Inv_fire e rn rn1 HI Hf) Hrun Ht1 Hall)
      as (t' & Ht' & Hid' & Hmax' & Hr' & Hc' & Hlast').
    exists t'. split_and!; try congruence.
    + rewrite Hr', length_app.
      destruct (settles_at r e rn) as [[now [v|msg]]|]; simpl in *.
      * apply Forall_singleton in Hhead as [? ?]. done.
      * destruct Hstep as (-> & _). lia.
      * destruct Hstep as (-> & _). lia.
    + intros Hc. specialize (Hc' Hc).
      destruct (settles_at r e rn) as [[now [v|msg]]|]; simpl in *.
      * apply Forall_singleton in Hhead as [? ?]. done.
      * by destruct Hstep as (_ & _ & ? & _).
      * destruct Hstep as (_ & _ & Hs & _). by apply Hs.
    + destruct (settles_at r e rn) as [[now [v|msg]]|]; simpl in *.
      * apply Forall_singleton in Hhead as [? ?]. done.
      * destruct Hstep as (_ & Herr & _ & Hfail).
        rewrite last_cons.
        destruct (last (attempt_ends r evs rn1)) as [[now' o']|]; [done|].
        destruct Hlast' as [Herr' Hfail']. split.
        -- exists msg. split; [done|congruence].
        -- intros Hf'. destruct (Hfail' Hf') as [Hf1 ->]. by apply Hfail.
      * destruct Hstep as (_ & Herr & _ & Hfail).
        destruct (last (attempt_ends r evs rn1)) as [[now' o']|]; [done|].
        destruct Hlast' as [Herr' Hfail']. split; [congruence|].
        intros Hf'. destruct (Hfail' Hf') as [Hf1 ->]. by apply Hfail.
Qed.
End live_facts.

(** C3. Take any task that is Pending, with a retry ceiling that is
    not negative, in any state of a run, and any continuation of the
    run (any number of workers, any other tasks, any interleaving) in
    which every attempt of the task that ends, ends with an exception.
    Then [retries] counts these attempts.  As long as no more than
    [max_retries] of them have ended the task is not Failed and not
    lost: it waits in the queue, Pending or Retrying, or a worker holds
    it, Running or Cancelled.  Once attempt number [max_retries + 1] has
    ended the task is Failed with [retries = max_retries + 1], the text
    of the exception of that last attempt in [error] and the time of
    its end in [completed_at]; it is in the completed table, not in the
    active table, not in the queue and with no worker, so there is no
    further attempt. *)
Theorem failing_task_reaches_failed
    (rn : TaskRunner) (r : nat) (t : Task) (evs : list Event)
    (rn' : TaskRunner) :
  reachable rn -> heap rn !! r = Some t ->
  status t = PENDING -> 0 <= max_retries t ->
  run evs rn = Some rn' ->
  Forall ends_raising (attempt_ends r evs rn) ->
  exists t',
    heap rn' !! r = Some t' /\
    retries t' = Z.of_nat (length (attempt_ends r evs rn)) /\
    (retries t' <= max_retries t ->
     status t' ≠ FAILED /\
     ((waiting (status t') /\ r ∈ queued (task_queue rn')) \/
      (in_flight (status t') /\
       exists w, workers rn' !! w = Some (Executing r)))) /\
    (max_retries t < retries t' ->
     retries t' = max_retries t + 1 /\ status t' = FAILED /\
     (exists now msg,
        last (attempt_ends r evs rn) = Some (now, Raised msg) /\
        error t' = Some msg /\ completed_at t' = Some now) /\
     completed_tasks rn' !! task_id t = Some r /\
     active_tasks rn' !! task_id t = None /\
     (r ∉ queued (task_queue rn')) /\
     forall w, workers rn' !! w ≠ Some (Executing r)).
Proof.
  intros Hre Ht Hst Hm Hrun Hall.
  pose proof (reachable_Inv rn Hre) as HI.
  destruct (run_failing_attempts evs rn rn' r t HI Hrun Ht Hall)
    as (t' & Ht' & Hid & Hmax & Hr & Hcomp & Hlast).
  destruct (ok_pending t (inv_task rn HI r t Ht) Hst) as (Hr0 & _ & _).
  pose proof (Inv_run evs rn rn' HI Hrun) as HI'.
  pose proof (Inv_live_run evs rn rn' HI (reachable_Inv_live rn Hre) Hrun)
    as HL'.
  pose proof (inv_task rn' HI' r t' Ht') as Hok.
  assert (status t' = FAILED -> retries t' = max_retries t + 1) as Hfail.
  { intros Hf. destruct (ok_failed t' Hok Hf) as [-> _]. lia. }
  assert (status t' ≠ FAILED -> retries t' <= max_retries t) as Hnf.
  { intros Hf. pose proof (ok_not_failed t' Hok Hf). lia. }
  assert (status t' ≠ COMPLETED) as Hnc.
  { intros Hc%Hcomp. congruence. }
  exists t'. split; [done|]. split; [lia|]. split.
  - intros Hle.
    assert (status t' ≠ FAILED) as Hf by (intros Hf%Hfail; lia).
    split; [done|].
    destruct (status t') eqn:Hs; try done.
    + left. split; [by left|]. apply (live_waiting rn' HL' r t' Ht').
      rewrite Hs. by left.
    + right. split; [by left|]. apply (live_in_flight rn' HL' r t' Ht').
      rewrite Hs. by left.
    + right. split; [by right|]. apply (live_in_flight rn' HL' r t' Ht').
      rewrite Hs. by right.
    + left. split; [by right|]. apply (live_waiting rn' HL' r t' Ht').
      rewrite Hs. by right.
  - intros Hgt.
    assert (status t' = FAILED) as Hf.
    { destruct (decide (status t' = FAILED)) as [|Hf]; [done|].
      specialize (Hnf Hf). lia. }
    split; [by apply Hfail|]. split; [done|]. split_and!.
    + destruct (last (attempt_ends r evs rn)) as [[now o]|] eqn:Hl.
      * destruct Hlast as [(msg & -> & Herr) Hca]. exists now, msg.
        split_and!; [done|done|by apply Hca].
      * apply last_None in Hl. rewrite Hl in Hr. simpl in Hr. lia.
    + rewrite <- Hid. apply (inv_done rn' HI' r t' Ht'). by right.
    + destruct (active_tasks rn' !! task_id t) as [r0|] eqn:Ha; [|done].
      destruct (inv_active rn' HI' _ r0 Ha) as (t0 & Ht0 & Hid0 & Hfl).
      assert (r0 = r) as -> by (apply (inv_ids rn' HI' r0 r t0 t'); congruence).
      destruct Hfl; congruence.
    + intros Hq. destruct (inv_queued rn' HI' r Hq) as (t0 & Ht0 & Hwt).
      destruct Hwt; congruence.
    + intros w Hw. destruct (inv_exec rn' HI' w r Hw) as (t0 & Ht0 & Hfl).
      destruct Hfl; congruence.
Qed.

Lemma failing_task_reaches_failed_witness :
  let rn := state_after session_submitted in
  let evs := [ EvSubmit "t2" "other" example_async_task MEDIUM 1 11;
               EvClaim 0 12; EvSettle 0 13 (Raised "a");
               EvClaim 0 14; EvSettle 0 15 (Raised "x");
               EvClaim 0 16; EvSettle 0 17 (Raised "b");
               EvClaim 0 18; EvSettle 0 19 (Raised "y");
               EvClaim 0 20; EvSettle 0 21 (Raised "c");
               EvClaim 0 22; EvSettle 0 23 (Raised "boom") ] in
  exists rn' t',
    run evs rn = Some rn' /\
    heap rn' !! 0%nat = Some t' /\
    attempt_ends 0 evs rn =
      [ (13, Raised "a"); (17, Raised "b"); (21, Raised "c");
        (23, Raised "boom") ] /\
    retries t' = 4 /\ status t' = FAILED /\
    error t' = Some "boom" /\ completed_at t' = Some 23 /\
    completed_tasks rn' !! "t1" = Some 0%nat /\
    active_tasks rn' !! "t1" = None /\
    (0%nat ∉ queued (task_queue rn')) /\
    forall w, workers rn' !! w ≠ Some (Executing 0%nat).
Proof.
  intros rn evs.
  set (t := mkTask "t1" "job" example_async_task MEDIUM PENDING 10 None None
              PyNone None 0 3).
  assert (run evs rn = Some (default rn (run evs rn))) as Hrun
    by (vm_compute; reflexivity).
  assert (attempt_ends 0 evs rn =
          [ (13, Raised "a"); (17, Raised "b"); (21, Raised "c");
            (23, Raised "boom") ]) as Hends by (vm_compute; reflexivity).
  destruct (failing_task_reaches_failed rn 0%nat t evs
              (default rn (run evs rn)))
    as (t' & Ht' & Hr & _ & Hfailed).
  - apply reachable_state_after. vm_compute. by eexists.
  - vm_compute. reflexivity.
  - reflexivity.
  - vm_compute. discriminate.
  - exact Hrun.
  - rewrite Hends. repeat constructor; by eexists.
  - rewrite Hends in Hr, Hfailed. simpl in Hr.
    destruct Hfailed as (_ & Hst & (now & msg & Hlast & Herr & Hca)
                         & Hc & Ha & Hq & Hw).
    { rewrite Hr. simpl. lia. }
    injection Hlast as <- <-.
    exists (default rn (run evs rn)), t'.
    split; [exact Hrun|]. split; [exact Ht'|]. split; [exact Hends|].
    split; [exact Hr|]. split; [exact Hst|]. split; [exact Herr|].
    split; [exact Hca|]. split; [exact Hc|]. split; [exact Ha|].
    split; [exact Hq|exact Hw].
Defined.

(** ** Result and error *)

(** C4, the claim as stated fails: in the sample session the task
    raises once, is retried and succeeds.  It is then Completed and
    carries both a result and an error. *)
Lemma result_and_error_both_set :
  reachable (state_after session_retry_success) /\
  exists t,
    heap (state_after session_retry_success) !! 0%nat = Some t /\
    status t = COMPLETED /\ result t = PyInt 5 /\ error t = Some "boom" /\
    ~ outcome_exclusive t.
Proof.
  split.
  - apply reachable_state_after. vm_compute. by eexists.
  - eexists. split; [vm_compute; reflexivity|]. simpl.
    split_and!; try done.
    intros [(_ & Hne & _)|[(Hr & _)|(Hr & _)]].
    + apply Hne. by eexists.
    + by apply Hr.
    + by apply Hr.
Qed.

(** C4, amended.  In every state of a run: a task with a result is
    Completed; the error is set exactly when at least one attempt has
    failed; a Failed task has an error and no result; a Pending task has
    neither; a Completed or Failed task is never changed again, so the
    result is written once.  The end of an attempt writes the result
    only if the work returned, leaving the error of an earlier attempt
    in place, and writes the error whenever the work raised, whether the
    task is then retried or Failed. *)
Theorem result_and_error_by_attempt (rn : TaskRunner) (r : nat) (t : Task) :
  reachable rn -> heap rn !! r = Some t ->
  (result t ≠ PyNone -> status t = COMPLETED) /\
  (is_Some (error t) <-> 0 < retries t) /\
  (status t = FAILED -> is_Some (error t) /\ result t = PyNone) /\
  (status t = PENDING -> error t = None /\ result t = PyNone) /\
  (status t = COMPLETED \/ status t = FAILED ->
   forall e rn', fire e rn = Some rn' -> heap rn' !! r = Some t) /\
  (forall w now o rn',
      workers rn !! w = Some (Executing r) ->
      _worker_settle w now o rn = Some rn' ->
      exists t',
        heap rn' !! r = Some t' /\
        match o with
        | Returned v =>
            result t' = v /\ error t' = error t /\ status t' = COMPLETED
        | Raised msg =>
            error t' = Some msg /\ result t' = PyNone /\
            (status t' = RETRYING \/ status t' = FAILED)
        end).
Proof.
  intros HI%reachable_Inv Ht.
  pose proof (inv_task rn HI r t Ht) as Hok.
  assert (forall s, status t = s -> s ≠ COMPLETED -> result t = PyNone) as Hnores.
  { intros s Hs Hne. destruct (result t) eqn:Hr; try done;
      exfalso; apply Hne; rewrite <- Hs; apply (ok_result t Hok); congruence. }
  split_and!.
  - apply (ok_result t Hok).
  - pose proof (ok_error_retries t Hok) as Her.
    pose proof (ok_retries_nonneg t Hok) as Hnn.
    rewrite <- not_eq_None_Some. split.
    + intros Hne. destruct (decide (retries t = 0)) as [H0|H0]; [|lia].
      destruct Hne. by apply Her.
    + intros Hpos Hnone. apply Her in Hnone. lia.
  - intros Hf. split; [|by apply (Hnores FAILED)].
    destruct (ok_failed t Hok Hf) as [Hr _].
    apply not_eq_None_Some. intros Hnone%(ok_error_retries t Hok). lia.
  - intros Hp. split; [|by apply (Hnores PENDING)].
    apply (ok_error_retries t Hok). by apply (ok_pending t Hok).
  - intros Hst e rn' Hf. by apply (done_frozen e rn).
  - intros w now o rn' Hw Hs.
    apply _worker_settle_Some in Hs as (r0 & t0 & Hw0 & Ht0 & ->).
    assert (r0 = r) as -> by congruence.
    assert (t0 = t) as -> by congruence.
    exists (settled_task now o t). simpl. rewrite lookup_insert_eq.
    split; [done|].
    destruct (inv_exec rn HI w r Hw) as (t1 & Ht1 & Hfl).
    assert (t1 = t) as -> by congruence.
    pose proof (in_flight_no_result t Hok Hfl) as Hnone.
    destruct o as [v|msg]; simpl; [done|].
    destruct (retries t + 1 <=? max_retries t); simpl; auto.
Qed.

Lemma result_and_error_by_attempt_witness :
  let rn := state_after session_retry_success in
  let t := mkTask "t1" "job" example_async_task MEDIUM COMPLETED 10 (Some 13)
             (Some 14) (PyInt 5) (Some "boom") 1 3 in
  (result t ≠ PyNone -> status t = COMPLETED) /\
  (is_Some (error t) <-> 0 < retries t) /\
  (status t = FAILED -> is_Some (error t) /\ result t = PyNone) /\
  (status t = PENDING -> error t = None /\ result t = PyNone) /\
  (status t = COMPLETED \/ status t = FAILED ->
   forall e rn', fire e rn = Some rn' -> heap rn' !! 0%nat = Some t) /\
  (forall w now o rn',
      workers rn !! w = Some (Executing 0%nat) ->
      _worker_settle w now o rn = Some rn' ->
      exists t',
        heap rn' !! 0%nat = Some t' /\
        match o with
        | Returned v =>
            result t' = v /\ error t' = error t /\ status t' = COMPLETED
        | Raised msg =>
            error t' = Some msg /\ result t' = PyNone /\
            (status t' = RETRYING \/ status t' = FAILED)
        end).
Proof.
  intros rn t. apply (result_and_error_by_attempt rn 0%nat t).
  - apply reachable_state_after. vm_compute. by eexists.
  - vm_compute. reflexivity.
Defined.

(** ** A submitted task before its first dequeue *)

(** C10. [submit_task] returns the id it was given by
    [generate_task_id] and only puts the new task into the queue.  From
    then on, as long as no worker has taken that task out of the queue,
    the task stays queued and its id is in neither table, so that
    [get_task_status] answers [None] for it. *)
Theorem submitted_task_unknown_until_claimed
    (new_id nm : string) (fn : Callable) (prio : TaskPriority) (maxr now : Z)
    (rn : TaskRunner) (evs : list Event) (rn' : TaskRunner) :
  reachable rn -> id_unused new_id rn ->
  run evs (submit_task new_id nm fn prio maxr now rn).2 = Some rn' ->
  leaves_queued (fresh (dom (heap rn))) evs
    (submit_task new_id nm fn prio maxr now rn).2 ->
  (submit_task new_id nm fn prio maxr now rn).1 = new_id /\
  fresh (dom (heap rn)) ∈ queued (task_queue rn') /\
  (task_id <$> (heap rn' !! fresh (dom (heap rn)))) = Some new_id /\
  active_tasks rn' !! new_id = None /\
  completed_tasks rn' !! new_id = None /\
  get_task_status new_id rn' = None.
Proof.
  intros HI%reachable_Inv Hid Hrun Hleave.
  set (r := fresh (dom (heap rn))) in *.
  set (t := mkTask new_id nm fn prio PENDING now None None PyNone None 0 maxr).
  pose proof (Inv_submit new_id nm fn prio maxr now rn HI Hid) as HI1.
  destruct (pending_run_frozen evs _ rn' r t HI1) as (HI' & Ht' & Hq');
    try done.
  { simpl. by rewrite lookup_insert_eq. }
  { simpl. rewrite queued_put. by left. }
  destruct (pending_not_in_tables rn' r t HI' Ht') as [Ha Hc]; [done|].
  simpl in Ha, Hc.
  split_and!; try done.
  - by rewrite Ht'.
  - unfold get_task_status. by rewrite Ha, Hc.
Qed.

Lemma submitted_task_unknown_until_claimed_witness :
  let rn := state_after [EvStart] in
  let evs := [ EvSubmit "t2" "other" example_sync_task HIGH 3 11;
               EvCancel "t1" 12;
               EvClaim 0 13;
               EvSettle 0 14 (Returned PyNone) ] in
  exists rn',
    run evs (submit_task "t1" "job" example_async_task LOW 3 10 rn).2
    = Some rn' /\
    (submit_task "t1" "job" example_async_task LOW 3 10 rn).1 = "t1" /\
    fresh (dom (heap rn)) ∈ queued (task_queue rn') /\
    (task_id <$> (heap rn' !! fresh (dom (heap rn)))) = Some "t1" /\
    active_tasks rn' !! "t1" = None /\
    completed_tasks rn' !! "t1" = None /\
    get_task_status "t1" rn' = None.
Proof.
  intros rn evs.
  exists (default rn
            (run evs (submit_task "t1" "job" example_async_task LOW 3 10 rn).2)).
  split; [vm_compute; reflexivity|].
  apply (submitted_task_unknown_until_claimed
           "t1" "job" example_async_task LOW 3 10 rn evs).
  - apply reachable_state_after. vm_compute. by eexists.
  - apply (bool_decide_unpack _). vm_compute. reflexivity.
  - vm_compute. reflexivity.
  - vm_compute. split_and!; try done.
Defined.

(** ** Stopping the runner *)

Section stop_facts.
Context (react : nat -> CancelReaction) (now : Z).
Implicit Types (rn : TaskRunner) (w : nat) (ws : list nat).

Lemma wind_down_workers w rn rn' w' :
  wind_down react now w rn = Some rn' -> w' ≠ w ->
  workers rn' !! w' = workers rn !! w'.
Proof.
  unfold wind_down. intros Hwd Hne.
  destruct (workers rn !! w) as [[|r]|]; try by injection Hwd as <-.
  destruct (react w); try done; [by injection Hwd as <-|].
  apply _worker_settle_Some in Hwd as (r0 & t0 & _ & _ & ->). simpl.
  by rewrite list_lookup_insert_ne.
Qed.

Lemma wind_down_executing w rn rn' w' r :
  wind_down react now w rn = Some rn' ->
  workers rn' !! w' = Some (Executing r) ->
  workers rn !! w' = Some (Executing r).
Proof.
  unfold wind_down. intros Hwd Hex.
  destruct (workers rn !! w) as [[|r1]|] eqn:Hw;
    try (injection Hwd as <-; done).
  destruct (react w); try done; [by injection Hwd as <-|].
  apply _worker_settle_Some in Hwd as (r0 & t0 & _ & _ & ->). simpl in Hex.
  by apply list_lookup_insert_Some in Hex as [(_ & ? & _)|[_ ?]].
Qed.

Lemma wind_down_valid w rn rn' :
  wind_down react now w rn = Some rn' ->
  workers_valid rn -> workers_valid rn' /\ is_running rn' = is_running rn.
Proof.
  intros Hwd Hv. split.
  - intros w' r Hex.
    pose proof (wind_down_executing w rn rn' w' r Hwd Hex) as Hold.
    apply Hv in Hold as [t Ht]. revert Hwd. unfold wind_down.
    destruct (workers rn !! w) as [[|r1]|]; try by intros [= <-]; eexists.
    destruct (react w); try done; [by intros [= <-]; eexists|].
    intros Hs. apply _worker_settle_Some in Hs as (r0 & t0 & _ & _ & ->).
    simpl. apply lookup_insert_is_Some'. right. by eexists.
  - revert Hwd. unfold wind_down.
    destruct (workers rn !! w) as [[|r1]|]; try by intros [= <-].
    destruct (react w); try done; [by intros [= <-]|].
    intros Hs. by apply _worker_settle_Some in Hs as (r0 & t0 & _ & _ & ->).
Qed.

Lemma wind_down_is_Some w rn :
  workers_valid rn ->
  (forall r, workers rn !! w = Some (Executing r) -> react w ≠ Hangs) ->
  is_Some (wind_down react now w rn).
Proof.
  intros Hv Hnh. unfold wind_down.
  destruct (workers rn !! w) as [[|r]|] eqn:Hw; try by eexists.
  specialize (Hnh r eq_refl).
  destruct (react w) as [|o|]; [by eexists| |done].
  destruct (Hv w r Hw) as [t Ht]. unfold _worker_settle.
  rewrite Hw, Ht. by eexists.
Qed.

Lemma gather_is_Some ws rn :
  workers_valid rn ->
  (forall w r, workers rn !! w = Some (Executing r) -> react w ≠ Hangs) ->
  exists rn',
    gather react now ws rn = Some rn' /\ is_running rn' = is_running rn.
Proof.
  revert rn. induction ws as [|w ws IH]; intros rn Hv Hnh; simpl.
  - by exists rn.
  - destruct (wind_down_is_Some w rn Hv (Hnh w)) as [rn1 H1]. rewrite H1.
    destruct (wind_down_valid w rn rn1 H1 Hv) as [Hv1 Hrun1].
    destruct (IH rn1 Hv1) as (rn' & Hg & Hrun').
    + intros w' r Hex. apply (Hnh w' r).
      by apply (wind_down_executing w rn rn1).
    + exists rn'. split; [done|congruence].
Qed.

Lemma gather_hangs ws rn w r :
  w ∈ ws -> workers rn !! w = Some (Executing r) -> react w = Hangs ->
  gather react now ws rn = None.
Proof.
  revert rn. induction ws as [|w0 ws IH]; intros rn Hin Hw Hh.
  - by apply elem_of_nil in Hin.
  - simpl. destruct (wind_down react now w0 rn) as [rn1|] eqn:H1; [|done].
    destruct (decide (w = w0)) as [->|Hne].
    + unfold wind_down in H1. by rewrite Hw, Hh in H1.
    + apply elem_of_cons in Hin as [?|Hin]; [done|].
      apply IH; [done| |done].
      by rewrite (wind_down_workers w0 rn rn1 w H1 Hne).
Qed.
End stop_facts.

Lemma reachable_workers_valid rn : reachable rn -> workers_valid rn.
Proof.
  intros HI%reachable_Inv w r Hw.
  destruct (inv_exec rn HI w r Hw) as (t & Ht & _). by eexists.
Qed.

(** C9, the claim as stated fails: with one worker whose work swallows
    the cancellation and never ends, [stop] does not return at all. *)
Lemma stop_never_returns :
  let rn := state_after session_claimed in
  reachable rn /\ is_running rn = true /\ workers rn = [Executing 0] /\
  stop (fun _ => Hangs) 12 rn = None.
Proof.
  split_and!; try by vm_compute.
  apply reachable_state_after. vm_compute. by eexists.
Qed.

(** C9, amended.  [stop] does nothing when the runner is not running.
    Otherwise it clears the running flag, cancels every worker and
    waits for all of them: when every worker terminates, it returns
    with the flag cleared and the list of workers empty; when some
    worker never terminates, it never returns.  There is no grace
    period and no warning. *)
Theorem stop_waits_for_all_workers
    (react : nat -> CancelReaction) (now : Z) (rn : TaskRunner) :
  reachable rn ->
  (is_running rn = false -> stop react now rn = Some rn) /\
  (is_running rn = true ->
   (forall w r, workers rn !! w = Some (Executing r) -> react w ≠ Hangs) ->
   exists rn',
     stop react now rn = Some rn' /\
     is_running rn' = false /\ workers rn' = []) /\
  (is_running rn = true ->
   (exists w r, workers rn !! w = Some (Executing r) /\ react w = Hangs) ->
   stop react now rn = None).
Proof.
  intros Hv%reachable_workers_valid. unfold stop. split_and!.
  - by intros ->.
  - intros -> Hnh.
    destruct (gather_is_Some react now (seq 0 (length (workers rn)))
                (set_is_running false rn)) as (rn' & -> & Hrun'); [done..|].
    eexists. split; [done|]. by split.
  - intros -> (w & r & Hw & Hh).
    rewrite (gather_hangs react now _ (set_is_running false rn) w r); try done.
    apply elem_of_seq. split; [lia|]. simpl. by eapply lookup_lt_Some.
Qed.

Lemma stop_waits_for_all_workers_witness :
  let rn := state_after session_claimed in
  let react := fun _ : nat => Finishes (Returned (PyInt 5)) in
  (is_running rn = false -> stop react 12 rn = Some rn) /\
  (is_running rn = true ->
   (forall w r, workers rn !! w = Some (Executing r) -> react w ≠ Hangs) ->
   exists rn',
     stop react 12 rn = Some rn' /\
     is_running rn' = false /\ workers rn' = []) /\
  (is_running rn = true ->
   (exists w r, workers rn !! w = Some (Executing r) /\ react w = Hangs) ->
   stop react 12 rn = None).
Proof.
  intros rn react. apply (stop_waits_for_all_workers react 12 rn).
  apply reachable_state_after. vm_compute. by eexists.
Defined.

(** ** What does hold of the tables and of the terminal statuses *)

Lemma done_run_frozen evs rn rn' r t :
  Inv rn -> run evs rn = Some rn' -> heap rn !! r = Some t ->
  status t = COMPLETED \/ status t = FAILED ->
  heap rn' !! r = Some t.
Proof.
  revert rn. induction evs as [|e evs IH]; intros rn HI Hrun Ht Hst;
    simpl in Hrun.
  - by injection Hrun as <-.
  - destruct (fire e rn) as [rn1|] eqn:Hf; [|done].
    apply (IH rn1); try done.
    + by apply (Inv_fire e rn).
    + by apply (done_frozen e rn).
Qed.

(** Completed and Failed are final: once a task has one of these
    statuses, no run changes the task object again, and the task stays
    in the completed table and out of the active table and the queue. *)
Theorem completed_and_failed_are_final
    (rn : TaskRunner) (r : nat) (t : Task) (evs : list Event)
    (rn' : TaskRunner) :
  reachable rn -> heap rn !! r = Some t ->
  status t = COMPLETED \/ status t = FAILED ->
  run evs rn = Some rn' ->
  heap rn' !! r = Some t /\
  completed_tasks rn' !! task_id t = Some r /\
  active_tasks rn' !! task_id t = None /\
  r ∉ queued (task_queue rn').
Proof.
  intros HI%reachable_Inv Ht Hst Hrun.
  pose proof (done_run_frozen evs rn rn' r t HI Hrun Ht Hst) as Ht'.
  pose proof (Inv_run evs rn rn' HI Hrun) as HI'.
  split_and!; [done|by apply (inv_done rn' HI')| |].
  - destruct (active_tasks rn' !! task_id t) as [r0|] eqn:Ha; [|done].
    destruct (inv_active rn' HI' _ r0 Ha) as (t0 & Ht0 & Hid0 & Hfl).
    assert (r0 = r) as -> by (by apply (inv_ids rn' HI' r0 r t0 t)).
    destruct Hfl, Hst; congruence.
  - intros Hin. destruct (inv_queued rn' HI' r Hin) as (t0 & Ht0 & Hw).
    destruct Hw, Hst; congruence.
Qed.

Lemma completed_and_failed_are_final_witness :
  let rn := state_after session_retry_success in
  let t := mkTask "t1" "job" example_async_task MEDIUM COMPLETED 10 (Some 13)
             (Some 14) (PyInt 5) (Some "boom") 1 3 in
  let evs := [ EvCancel "t1" 15;
               EvSubmit "t2" "other" example_sync_task LOW 0 16;
               EvClaim 0 17; EvSettle 0 18 (Raised "x") ] in
  exists rn',
    run evs rn = Some rn' /\
    heap rn' !! 0%nat = Some t /\
    completed_tasks rn' !! task_id t = Some 0%nat /\
    active_tasks rn' !! task_id t = None /\
    0%nat ∉ queued (task_queue rn').
Proof.
  intros rn t evs. exists (default rn (run evs rn)).
  split; [vm_compute; reflexivity|].
  apply (completed_and_failed_are_final rn 0%nat t evs).
  - apply reachable_state_after. vm_compute. by eexists.
  - vm_compute. reflexivity.
  - by left.
  - vm_compute. reflexivity.
Defined.

(** The queue and the active table never hold the same id, and a task
    reference is in the queue at most once. *)
Theorem queue_and_active_share_no_id (rn : TaskRunner) (tid : string) :
  reachable rn -> tid ∈ queued_ids rn ->
  active_tasks rn !! tid = None /\ NoDup (queued (task_queue rn)).
Proof.
  intros Hre Hq. split; [by apply queue_active_disjoint|].
  apply reachable_Inv in Hre. apply (inv_nodup rn Hre).
Qed.

Lemma queue_and_active_share_no_id_witness :
  active_tasks (state_after session_retry) !! "t1" = None /\
  NoDup (queued (task_queue (state_after session_retry))).
Proof.
  apply (queue_and_active_share_no_id (state_after session_retry) "t1").
  - apply reachable_state_after. vm_compute. by eexists.
  - apply list_elem_of_In. vm_compute. by left.
Defined.

(** ** The order of service after a sequence of puts *)

Lemma lane_puts (trs : list (Task * nat)) (q : TaskQueue) (p : TaskPriority) :
  lane p (puts trs q) =
  lane p q ++ (filter (fun tr : Task * nat => priority tr.1 = p) trs).*2.
Proof.
  revert q. induction trs as [|[t r] trs IH]; intros q; simpl.
  - by rewrite app_nil_r.
  - unfold puts in *. simpl. rewrite IH. rewrite filter_cons. simpl.
    destruct (decide (priority t = p)) as [<-|Hne].
    + rewrite TaskQueue_put_lane. simpl. by rewrite <- (assoc_L (++)).
    + by rewrite TaskQueue_put_other.
Qed.

Lemma length_queued_puts (trs : list (Task * nat)) (q : TaskQueue) :
  length (queued (puts trs q)) = (length (queued q) + length trs)%nat.
Proof.
  revert q. induction trs as [|[t r] trs IH]; intros q; simpl; [lia|].
  unfold puts in *. simpl. rewrite IH, (queued_put t r q). simpl. lia.
Qed.

(** Whatever the order in which tasks are put into an empty queue,
    they are handed out urgent ones first, then high, medium and low,
    and within one priority in the order in which they were put. *)
Theorem service_order_of_puts (trs : list (Task * nat)) :
  drain (length trs) (puts trs TaskQueue_init) =
  (filter (fun tr : Task * nat => priority tr.1 = URGENT) trs).*2 ++
  (filter (fun tr : Task * nat => priority tr.1 = HIGH) trs).*2 ++
  (filter (fun tr : Task * nat => priority tr.1 = MEDIUM) trs).*2 ++
  (filter (fun tr : Task * nat => priority tr.1 = LOW) trs).*2.
Proof.
  pose proof (length_queued_puts trs TaskQueue_init) as Hlen. simpl in Hlen.
  rewrite <- Hlen, drain_queued. unfold queued.
  pose proof (lane_puts trs TaskQueue_init) as Hl.
  pose proof (Hl URGENT) as Hu. pose proof (Hl HIGH) as Hh.
  pose proof (Hl MEDIUM) as Hm. pose proof (Hl LOW) as Hlo.
  simpl in Hu, Hh, Hm, Hlo. by rewrite Hu, Hh, Hm, Hlo.
Qed.

(** ** The worker pool and the active table *)

Section pool_facts.
Implicit Types (rn : TaskRunner) (t : Task) (r w : nat) (e : Event).

Lemma Inv_pool_init n : Inv_pool (TaskRunner_init n).
Proof. split; simpl; intros; simplify_map_eq; done. Qed.

Lemma Inv_pool_start rn : Inv_pool rn -> Inv_pool (start rn).
Proof.
  intros [Hsz Ha He]. unfold start.
  destruct (is_running rn) eqn:Hrun; [by split; rewrite ?Hrun|].
  split; simpl.
  - rewrite length_app, length_replicate, Hsz. done.
  - intros k r Hk. destruct (Ha k r Hk) as [w Hw].
    exists w. rewrite lookup_app_l; [done|]. by eapply lookup_lt_Some.
  - intros w r Hw. apply lookup_app_replicate_Executing in Hw.
    by apply (He w).
Qed.

Lemma Inv_pool_submit new_id nm fn prio maxr now rn :
  Inv_pool rn -> Inv_pool (submit_task new_id nm fn prio maxr now rn).2.
Proof.
  intros [Hsz Ha He]. split; simpl; try done.
  intros w r Hw. destruct (He w r Hw) as (t & Ht & Hat).
  exists t. split; [|done]. rewrite lookup_insert_ne; [done|].
  intros <-. pose proof (fresh_ref_unused rn). congruence.
Qed.

Lemma Inv_pool_claim w now rn rn' :
  Inv rn -> Inv_pool rn -> _worker_claim w now rn = Some rn' -> Inv_pool rn'.
Proof.
  intros HI [Hsz Ha He] Hc.
  apply _worker_claim_Some in Hc as (r & q' & t & Hrun & Hw & Hg & Ht & ->).
  assert (waiting (status t)) as Hwt.
  { destruct (inv_queued rn HI r) as (t0 & Ht0 & ?); [|congruence].
    rewrite (TaskQueue_get_queued _ _ _ Hg). by left. }
  split; simpl.
  - by rewrite length_insert.
  - intros k r0 [[<- <-]|[Hne Hk]]%lookup_insert_Some.
    + exists w. apply list_lookup_insert_eq. by eapply lookup_lt_Some.
    + destruct (Ha k r0 Hk) as [w0 Hw0]. exists w0.
      rewrite list_lookup_insert_ne; [done|]. intros <-. congruence.
  - intros w0 r0 Hw0.
    apply list_lookup_insert_Some in Hw0 as [(_ & [= <-] & _)|[Hne Hw0]].
    + exists (_execute_task_begin now t).
      by rewrite !lookup_insert_eq.
    + destruct (He w0 r0 Hw0) as (t0 & Ht0 & Hat).
      destruct (inv_exec rn HI w0 r0 Hw0) as (t1 & Ht1 & Hfl).
      assert (r0 ≠ r) as Hr.
      { intros ->. apply (waiting_not_in_flight (status t)); congruence. }
      exists t0. rewrite !lookup_insert_ne; try done.
      intros Hid. apply Hr. symmetry. by apply (inv_ids rn HI r r0 t t0).
Qed.

Lemma Inv_pool_settle w now o rn rn' :
  Inv rn -> Inv_pool rn -> _worker_settle w now o rn = Some rn' -> Inv_pool rn'.
Proof.
  intros HI [Hsz Ha He] Hs.
  apply _worker_settle_Some in Hs as (r & t & Hw & Ht & ->).
  split; simpl.
  - by rewrite length_insert.
  - intros k r0 [Hne Hk]%lookup_delete_Some.
    destruct (Ha k r0 Hk) as [w0 Hw0]. exists w0.
    rewrite list_lookup_insert_ne; [done|]. intros <-.
    destruct (inv_active rn HI k r0 Hk) as (t0 & Ht0 & Hid & _).
    congruence.
  - intros w0 r0 Hw0.
    apply list_lookup_insert_Some in Hw0 as [(_ & ? & _)|[Hne Hw0]]; [done|].
    destruct (He w0 r0 Hw0) as (t0 & Ht0 & Hat).
    assert (r0 ≠ r) as Hr.
    { intros ->. apply Hne. by apply (inv_exec_inj rn HI w w0 r). }
    exists t0. rewrite lookup_insert_ne by done. split; [done|].
    rewrite lookup_delete_ne; [done|].
    intros Hid. apply Hr. symmetry. by apply (inv_ids rn HI r r0 t t0).
Qed.

Lemma Inv_pool_cancel tid now rn : Inv_pool rn -> Inv_pool (cancel_task tid now rn).2.
Proof.
  intros [Hsz Ha He]. unfold cancel_task.
  destruct (active_tasks rn !! tid) as [r|] eqn:Hact; [|done].
  split; simpl; try done.
  intros w0 r0 Hw0. destruct (He w0 r0 Hw0) as (t0 & Ht0 & Hat).
  destruct (decide (r = r0)) as [->|Hne].
  - eexists. rewrite lookup_alter_eq, Ht0. simpl. done.
  - exists t0. by rewrite lookup_alter_ne.
Qed.

Lemma Inv_pool_fire e rn rn' :
  Inv rn -> Inv_pool rn -> fire e rn = Some rn' -> Inv_pool rn'.
Proof.
  intros HI HP. unfold fire. destruct (enabled e rn); [|done].
  destruct e as [|new_id nm fn prio maxr now|w now|w now o|tid now]; simpl.
  - intros [= <-]. by apply Inv_pool_start.
  - destruct (decide (id_unused new_id rn)); [|done].
    intros [= <-]. by apply Inv_pool_submit.
  - by apply Inv_pool_claim.
  - by apply Inv_pool_settle.
  - intros [= <-]. by apply Inv_pool_cancel.
Qed.

Lemma Inv_pool_run evs rn rn' :
  Inv rn -> Inv_pool rn -> run evs rn = Some rn' -> Inv_pool rn'.
Proof.
  revert rn. induction evs as [|e evs IH]; intros rn HI HP; simpl.
  - by intros [= <-].
  - destruct (fire e rn) as [rn1|] eqn:Hf; [|done].
    apply IH; [by apply (Inv_fire e rn)|by apply (Inv_pool_fire e rn)].
Qed.

Lemma reachable_Inv_pool rn : reachable rn -> Inv_pool rn.
Proof.
  intros (n & evs & Hrun).
  apply (Inv_pool_run evs _ _ (Inv_init n) (Inv_pool_init n) Hrun).
Qed.

Lemma elem_of_executing (ws : list Worker) r :
  r ∈ executing ws <-> exists w, ws !! w = Some (Executing r).
Proof.
  unfold executing. rewrite list_elem_of_omap. split.
  - intros (wk & Hin & Hwk). destruct wk as [|r0]; [done|].
    injection Hwk as ->. by apply list_elem_of_lookup in Hin.
  - intros [w Hw]. exists (Executing r). split; [|done].
    apply list_elem_of_lookup. by exists w.
Qed.

Lemma length_executing (ws : list Worker) :
  (length (executing ws) <= length ws)%nat.
Proof.
  induction ws as [|[|r] ws IH]; simpl; unfold executing in *; simpl; lia.
Qed.

Lemma NoDup_executing (ws : list Worker) :
  (forall w w' r,
      ws !! w = Some (Executing r) -> ws !! w' = Some (Executing r) -> w = w') ->
  NoDup (executing ws).
Proof.
  induction ws as [|wk ws IH]; intros Hinj; [constructor|].
  assert (NoDup (executing ws)) as Hnd.
  { apply IH. intros w w' r Hw Hw'.
    assert (S w = S w') by (by apply (Hinj (S w) (S w') r)). lia. }
  destruct wk as [|r]; [done|].
  change (executing (Executing r :: ws)) with (r :: executing ws).
  constructor; [|done].
  intros [w Hw]%elem_of_executing.
  by specialize (Hinj 0%nat (S w) r eq_refl Hw).
Qed.

Lemma active_values_NoDup rn :
  Inv rn -> NoDup (map_to_list (active_tasks rn)).*2.
Proof.
  intros HI. apply NoDup_fmap_2_strong; [|apply NoDup_map_to_list].
  intros [k1 r1] [k2 r2] H1%elem_of_map_to_list H2%elem_of_map_to_list; simpl.
  intros <-.
  destruct (inv_active rn HI k1 r1 H1) as (t1 & Ht1 & Hid1 & _).
  destruct (inv_active rn HI k2 r1 H2) as (t2 & Ht2 & Hid2 & _).
  f_equal. congruence.
Qed.

(** The active table has exactly one entry for each task that a worker
    is executing. *)
Lemma size_active_executing rn :
  Inv rn -> Inv_pool rn ->
  size (active_tasks rn) = length (executing (workers rn)).
Proof.
  intros HI HP.
  rewrite <- length_map_to_list, <- (length_fmap snd).
  apply Nat.le_antisymm; apply submseteq_length, NoDup_submseteq.
  - by apply active_values_NoDup.
  - intros r [[k r0] [-> Hin%elem_of_map_to_list]]%list_elem_of_fmap. simpl.
    apply elem_of_executing. by apply (pool_active rn HP k).
  - apply NoDup_executing, (inv_exec_inj rn HI).
  - intros r [w Hw]%elem_of_executing.
    destruct (pool_exec rn HP w r Hw) as (t & Ht & Hat).
    apply list_elem_of_fmap. exists (task_id t, r). split; [done|].
    by apply elem_of_map_to_list.
Qed.
End pool_facts.

(** ** Listing the tables *)

Section listing_facts.
Implicit Types (rn : TaskRunner) (t : Task) (r : nat) (l : list Task).

Lemma insert_desc_perm t l : insert_desc t l ≡ₚ t :: l.
Proof.
  induction l as [|y l IH]; simpl; [done|].
  destruct (sort_key t <? sort_key y); [|done].
  by rewrite IH, Permutation_swap.
Qed.

Lemma sort_desc_perm l : sort_desc l ≡ₚ l.
Proof.
  induction l as [|t l IH]; simpl; [done|].
  unfold sort_desc in *. simpl. by rewrite insert_desc_perm, IH.
Qed.

Lemma insert_desc_sorted t l :
  StronglySorted newer_first l -> StronglySorted newer_first (insert_desc t l).
Proof.
  induction 1 as [|y l Hs IH Hall]; simpl.
  - repeat constructor.
  - destruct (sort_key t <? sort_key y) eqn:Hlt.
    + apply Z.ltb_lt in Hlt. constructor; [done|].
      rewrite insert_desc_perm. constructor; [unfold newer_first; lia|done].
    + apply Z.ltb_ge in Hlt. constructor; [by constructor|].
      constructor; [done|].
      eapply Forall_impl; [exact Hall|]. unfold newer_first. intros; lia.
Qed.

Lemma sort_desc_sorted l : StronglySorted newer_first (sort_desc l).
Proof.
  induction l as [|t l IH]; [constructor|].
  unfold sort_desc in *. simpl. by apply insert_desc_sorted.
Qed.

Lemma py_take_prefix {A} (limit : Z) (xs : list A) :
  exists rest, xs = py_take limit xs ++ rest.
Proof.
  unfold py_take. destruct (0 <=? limit); eexists; by rewrite take_drop.
Qed.

Lemma length_py_take {A} (limit : Z) (xs : list A) :
  length (py_take limit xs) =
  if 0 <=? limit then Nat.min (Z.to_nat limit) (length xs)
  else (length xs - Z.to_nat (- limit))%nat.
Proof.
  unfold py_take. destruct (0 <=? limit); rewrite length_take; lia.
Qed.
End listing_facts.

(** ** The counters of the task runner *)

Section counter_facts.
Implicit Types (rn : TaskRunner) (t : Task) (r w : nat) (e : Event)
  (m : gmap string Z) (p : TaskPriority).

Lemma counter_increment_eq name v m :
  counter (increment_counter name v m) name = counter m name + v.
Proof. unfold counter, increment_counter. by rewrite lookup_insert_eq. Qed.

Lemma counter_increment_ne name name' v m :
  name ≠ name' -> counter (increment_counter name v m) name' = counter m name'.
Proof. intros. unfold counter, increment_counter. by rewrite lookup_insert_ne. Qed.

Lemma counter_empty name : counter ∅ name = 0.
Proof. unfold counter. by rewrite lookup_empty. Qed.

Lemma queued_counter_inj p p' : queued_counter p = queued_counter p' -> p = p'.
Proof. by destruct p, p'. Qed.

Lemma dequeued_counter_inj p p' :
  dequeued_counter p = dequeued_counter p' -> p = p'.
Proof. by destruct p, p'. Qed.

Lemma queued_not_dequeued p p' : queued_counter p ≠ dequeued_counter p'.
Proof. by destruct p, p'. Qed.

Lemma first_lane_get q r q' :
  TaskQueue_get q = Some (r, q') ->
  exists p rest,
    first_lane q = Some p /\ lane p q = r :: rest /\ q' = set_lane p rest q.
Proof.
  intros (p & rest & Hp & Hhi & ->)%TaskQueue_get_Some.
  exists p, rest. split_and!; try done.
  pose proof (Hhi URGENT) as Hu. pose proof (Hhi HIGH) as Hh.
  pose proof (Hhi MEDIUM) as Hm.
  unfold first_lane, scan_order. simpl in *.
  destruct p; simpl in *;
    rewrite ?Hu, ?Hh, ?Hm, ?Hp by lia; simpl; done.
Qed.

(** One event keeps, for each lane, the balance between what was
    counted in, what was counted out and what is in the lane. *)
Lemma event_lane_balance e rn rn' m p :
  fire e rn = Some rn' ->
  counter (event_metrics e rn m) (queued_counter p)
  - counter (event_metrics e rn m) (dequeued_counter p)
  - Z.of_nat (length (lane p (task_queue rn')))
  = counter m (queued_counter p) - counter m (dequeued_counter p)
    - Z.of_nat (length (lane p (task_queue rn))).
Proof.
  intros Hf. unfold fire in Hf. destruct (enabled e rn); [|done].
  destruct e as [|new_id nm fn prio maxr now|w now|w now o|tid now];
    simpl in Hf; simpl.
  - injection Hf as <-. unfold start. by destruct (is_running rn).
  - destruct (decide (id_unused new_id rn)); [|done].
    injection Hf as <-. simpl.
    rewrite !(counter_increment_ne "tasks_submitted") by (by destruct p).
    rewrite (counter_increment_ne _ (dequeued_counter p))
      by apply queued_not_dequeued.
    destruct (decide (prio = p)) as [->|Hne].
    + rewrite counter_increment_eq.
      change p with (priority (mkTask new_id nm fn p PENDING now None None
                                PyNone None 0 maxr)) at 3.
      rewrite TaskQueue_put_lane, length_app. simpl. lia.
    + rewrite counter_increment_ne
        by (intros Heq; by apply queued_counter_inj in Heq).
      rewrite TaskQueue_put_other by (simpl; congruence). done.
  - apply _worker_claim_Some in Hf as (r & q' & t & _ & _ & Hg & _ & ->).
    destruct (first_lane_get _ _ _ Hg) as (p0 & rest & -> & Hp0 & ->). simpl.
    rewrite (counter_increment_ne _ (queued_counter p))
      by (intros Heq; symmetry in Heq; by apply queued_not_dequeued in Heq).
    destruct (decide (p0 = p)) as [->|Hne].
    + rewrite counter_increment_eq, lane_set_lane_eq, Hp0. simpl. lia.
    + rewrite counter_increment_ne
        by (intros Heq; by apply dequeued_counter_inj in Heq).
      by rewrite lane_set_lane_ne.
  - apply _worker_settle_Some in Hf as (r & t & Hw & Ht & ->).
    rewrite Hw, Ht. simpl. destruct o as [v|msg]; simpl.
    { rewrite !(counter_increment_ne "tasks_completed") by (by destruct p).
      done. }
    destruct (retries t + 1 <=? max_retries t) eqn:Hle; simpl.
    + rewrite (counter_increment_ne _ (dequeued_counter p))
        by apply queued_not_dequeued.
      destruct (decide (priority t = p)) as [<-|Hne].
      * rewrite counter_increment_eq.
        unfold TaskQueue_put. simpl. rewrite lane_set_lane_eq, length_app.
        simpl. lia.
      * rewrite counter_increment_ne
          by (intros Heq; by apply queued_counter_inj in Heq).
        unfold TaskQueue_put. simpl. by rewrite lane_set_lane_ne.
    + rewrite !(counter_increment_ne "tasks_failed") by (by destruct p).
      done.
  - injection Hf as <-. unfold cancel_task.
    destruct (active_tasks rn !! tid); simpl; [|done].
    by rewrite !(counter_increment_ne "tasks_cancelled") by (by destruct p).
Qed.

Lemma run_lane_balance evs rn rn' m m' p :
  run_metrics evs rn m = Some (rn', m') ->
  counter m' (queued_counter p) - counter m' (dequeued_counter p)
  - Z.of_nat (length (lane p (task_queue rn')))
  = counter m (queued_counter p) - counter m (dequeued_counter p)
    - Z.of_nat (length (lane p (task_queue rn))).
Proof.
  revert rn m. induction evs as [|e evs IH]; intros rn m; simpl.
  - by intros [= <- <-].
  - destruct (fire e rn) as [rn1|] eqn:Hf; [|done]. intros Hrun.
    rewrite (IH _ _ Hrun). by apply event_lane_balance.
Qed.
End counter_facts.

(** With the counters empty when the runner is created, at every
    moment and for every priority, the tasks counted into the lane are
    those counted out of it plus those that are in it. *)
Theorem lane_counters_balance
    (n : nat) (evs : list Event) (rn : TaskRunner) (m : gmap string Z)
    (p : TaskPriority) :
  run_metrics evs (TaskRunner_init n) ∅ = Some (rn, m) ->
  counter m (queued_counter p) =
  counter m (dequeued_counter p) + Z.of_nat (length (lane p (task_queue rn))).
Proof.
  intros Hrun. pose proof (run_lane_balance evs _ _ _ _ p Hrun) as Hb.
  rewrite !counter_empty in Hb.
  assert (lane p (task_queue (TaskRunner_init n)) = []) as Hl by by destruct p.
  rewrite Hl in Hb. simpl in Hb. lia.
Qed.

Lemma lane_counters_balance_witness :
  let end_state :=
    default (TaskRunner_init 1, ∅)
      (run_metrics session_retry (TaskRunner_init 1) ∅) in
  counter end_state.2 (queued_counter MEDIUM) =
  counter end_state.2 (dequeued_counter MEDIUM)
  + Z.of_nat (length (lane MEDIUM (task_queue end_state.1))).
Proof.
  intros end_state.
  apply (lane_counters_balance 1 session_retry end_state.1 end_state.2 MEDIUM).
  vm_compute. reflexivity.
Defined.

(** ** Counting outcomes *)

Section outcome_counters.
Implicit Types (rn : TaskRunner) (t : Task) (r w : nat) (e : Event)
  (m : gmap string Z) (h : gmap nat Task) (s : TaskStatus).

Lemma count_status_fresh s h r t :
  h !! r = None ->
  count_status s (<[r:=t]> h) = (count_status s h + has_status_count s t)%nat.
Proof.
  intros Hr. unfold count_status, has_status_count.
  rewrite map_filter_insert. simpl.
  destruct (decide (status t = s)).
  - rewrite map_size_insert_None; [lia|].
    apply map_lookup_filter_None. by left.
  - rewrite delete_id by done. lia.
Qed.

Lemma count_status_update s h r t t' :
  h !! r = Some t ->
  (count_status s (<[r:=t']> h) + has_status_count s t
   = count_status s h + has_status_count s t')%nat.
Proof.
  intros Hr. unfold count_status, has_status_count.
  set (P := fun kt : nat * Task => status kt.2 = s).
  rewrite map_filter_insert. simpl.
  assert (size (filter P h) = size (filter P (delete r h))
                              + (if decide (status t = s) then 1 else 0))%nat
    as Hsz.
  { rewrite map_filter_delete.
    destruct (decide (status t = s)) as [Hs|Hs].
    - rewrite map_size_delete_Some.
      + assert (size (filter P h) ≠ 0%nat); [|lia].
        intros H0%map_size_empty_inv.
        assert (filter P h !! r = Some t) as Hin
          by (by apply map_lookup_filter_Some).
        by rewrite H0 in Hin.
      + exists t. by apply map_lookup_filter_Some.
    - rewrite map_size_delete_None; [lia|].
      apply map_lookup_filter_None. right. intros t0 Ht0 HP.
      unfold P in HP. simpl in HP. congruence. }
  rewrite Hsz. unfold P at 1. simpl.
  destruct (decide (status t' = s)) as [HP|HP].
  - rewrite <- (insert_delete_eq (filter P h)), <- map_filter_delete.
    rewrite map_size_insert_None.
    + lia.
    + apply map_lookup_filter_None. left. apply lookup_delete_eq.
  - lia.
Qed.

Lemma alter_as_insert h r t (f : Task -> Task) :
  h !! r = Some t -> alter f r h = <[r:=f t]> h.
Proof.
  intros Hr. apply map_eq. intros r0. rewrite lookup_alter.
  destruct (decide (r = r0)) as [<-|Hne].
  - by rewrite Hr, lookup_insert_eq.
  - by rewrite lookup_insert_ne.
Qed.

Lemma has_status_count_ne s t : status t ≠ s -> has_status_count s t = 0%nat.
Proof. intros. unfold has_status_count. by rewrite decide_False. Qed.

Lemma has_status_count_eq s t : status t = s -> has_status_count s t = 1%nat.
Proof. intros. unfold has_status_count. by rewrite decide_True. Qed.

(** A step from [t] to [t'] at reference [r], where [t] is neither
    Completed nor Failed. *)
Lemma count_status_step s h r t t' :
  h !! r = Some t -> status t ≠ s ->
  count_status s (<[r:=t']> h) = (count_status s h + has_status_count s t')%nat.
Proof.
  intros Hr Hs. pose proof (count_status_update s h r t t' Hr) as Hc.
  rewrite (has_status_count_ne s t Hs) in Hc. lia.
Qed.

Lemma event_counts_agree e rn rn' m :
  Inv rn -> fire e rn = Some rn' ->
  counts_agree rn m -> counts_agree rn' (event_metrics e rn m).
Proof.
  intros HI Hf (Hsub & Hcom & Hfail). unfold fire in Hf.
  destruct (enabled e rn); [|done]. unfold counts_agree.
  destruct e as [|new_id nm fn prio maxr now|w now|w now o|tid now];
    simpl in Hf; simpl.
  - injection Hf as <-. unfold start. by destruct (is_running rn).
  - destruct (decide (id_unused new_id rn)); [|done].
    injection Hf as <-. simpl. pose proof (fresh_ref_unused rn) as Hfr.
    rewrite counter_increment_eq.
    rewrite !(counter_increment_ne "tasks_submitted") by done.
    rewrite !(counter_increment_ne (queued_counter prio)) by (by destruct prio).
    rewrite map_size_insert_None, !count_status_fresh by done.
    rewrite !has_status_count_ne by done. lia.
  - apply _worker_claim_Some in Hf as (r & q' & t & _ & _ & Hg & Ht & ->).
    destruct (first_lane_get _ _ _ Hg) as (p0 & rest & -> & _ & _). simpl.
    rewrite !(counter_increment_ne (dequeued_counter p0)) by (by destruct p0).
    destruct (inv_queued rn HI r) as (t0 & Ht0 & Hw).
    { rewrite (TaskQueue_get_queued _ _ _ Hg). by left. }
    assert (t0 = t) as -> by congruence.
    rewrite map_size_insert_Some by (by eexists).
    rewrite !(count_status_step _ _ r t) by (done || destruct Hw; congruence).
    rewrite !has_status_count_ne by done. lia.
  - apply _worker_settle_Some in Hf as (r & t & Hw & Ht & ->).
    rewrite Hw, Ht. simpl.
    destruct (inv_exec rn HI w r Hw) as (t0 & Ht0 & Hfl).
    assert (t0 = t) as -> by congruence.
    rewrite map_size_insert_Some by (by eexists).
    rewrite !(count_status_step _ _ r t) by (done || destruct Hfl; congruence).
    destruct o as [v|msg]; simpl.
    + rewrite counter_increment_eq.
      rewrite !(counter_increment_ne "tasks_completed") by done.
      rewrite has_status_count_eq, has_status_count_ne by done. lia.
    + destruct (retries t + 1 <=? max_retries t); simpl.
      * rewrite !(counter_increment_ne (queued_counter (priority t)))
          by (by destruct (priority t)).
        rewrite !has_status_count_ne by done. lia.
      * rewrite counter_increment_eq.
        rewrite !(counter_increment_ne "tasks_failed") by done.
        rewrite has_status_count_ne, has_status_count_eq by done. lia.
  - injection Hf as <-. unfold cancel_task.
    destruct (active_tasks rn !! tid) as [r|] eqn:Ha; simpl; [|done].
    destruct (inv_active rn HI tid r Ha) as (t & Ht & _ & Hfl).
    rewrite (alter_as_insert _ _ t) by done.
    rewrite !(counter_increment_ne "tasks_cancelled") by done.
    rewrite map_size_insert_Some by (by eexists).
    rewrite !(count_status_step _ _ r t) by (done || destruct Hfl; congruence).
    rewrite !has_status_count_ne by done. lia.
Qed.

Lemma count_status_disjoint_le h s1 s2 :
  s1 ≠ s2 -> (count_status s1 h + count_status s2 h <= size h)%nat.
Proof.
  intros Hne. unfold count_status.
  set (P1 := fun kt : nat * Task => status kt.2 = s1).
  set (P2 := fun kt : nat * Task => status kt.2 = s2).
  assert (filter P1 h ##ₘ filter P2 h) as Hdisj.
  { apply map_disjoint_spec. intros r t1 t2
      [Ht1 HP1]%map_lookup_filter_Some [Ht2 HP2]%map_lookup_filter_Some.
    unfold P1, P2 in *. simpl in *. congruence. }
  rewrite <- map_size_disj_union by done.
  apply map_subseteq_size, map_union_least; apply map_filter_subseteq.
Qed.

Lemma run_counts_agree evs rn rn' m m' :
  Inv rn -> run_metrics evs rn m = Some (rn', m') ->
  counts_agree rn m -> counts_agree rn' m'.
Proof.
  revert rn m. induction evs as [|e evs IH]; intros rn m HI; simpl.
  - by intros [= <- <-].
  - destruct (fire e rn) as [rn1|] eqn:Hf; [|done]. intros Hrun Hc.
    apply (IH rn1 (event_metrics e rn m)); try done.
    + by apply (Inv_fire e rn).
    + by apply event_counts_agree.
Qed.
End outcome_counters.

(** With the counters empty when the runner is created, at every
    moment [tasks_submitted] is the number of tasks that exist,
    [tasks_completed] the number of Completed tasks and [tasks_failed]
    the number of Failed tasks; so completed and failed together never
    exceed the submitted. *)
Theorem outcome_counters_agree
    (n : nat) (evs : list Event) (rn : TaskRunner) (m : gmap string Z) :
  run_metrics evs (TaskRunner_init n) ∅ = Some (rn, m) ->
  counter m "tasks_submitted" = Z.of_nat (size (heap rn)) /\
  counter m "tasks_completed" = Z.of_nat (count_status COMPLETED (heap rn)) /\
  counter m "tasks_failed" = Z.of_nat (count_status FAILED (heap rn)) /\
  counter m "tasks_completed" + counter m "tasks_failed"
  <= counter m "tasks_submitted".
Proof.
  intros Hrun.
  destruct (run_counts_agree evs _ rn ∅ m (Inv_init n) Hrun)
    as (Hsub & Hcom & Hfail).
  { by split_and!. }
  split_and!; try done. rewrite Hsub, Hcom, Hfail.
  pose proof (count_status_disjoint_le (heap rn) COMPLETED FAILED
                ltac:(done)).
  lia.
Qed.

Lemma outcome_counters_agree_witness :
  let evs := session_retry_success ++
             [ EvSubmit "t2" "other" example_sync_task HIGH 0 15;
               EvClaim 0 16; EvSettle 0 17 (Raised "x") ] in
  let end_state :=
    default (TaskRunner_init 1, ∅) (run_metrics evs (TaskRunner_init 1) ∅) in
  counter end_state.2 "tasks_submitted"
  = Z.of_nat (size (heap end_state.1)) /\
  counter end_state.2 "tasks_completed"
  = Z.of_nat (count_status COMPLETED (heap end_state.1)) /\
  counter end_state.2 "tasks_failed"
  = Z.of_nat (count_status FAILED (heap end_state.1)) /\
  counter end_state.2 "tasks_completed" + counter end_state.2 "tasks_failed"
  <= counter end_state.2 "tasks_submitted".
Proof.
  intros evs end_state.
  apply (outcome_counters_agree 1 evs end_state.1 end_state.2).
  vm_compute. reflexivity.
Defined.

(** ** What stop leaves behind *)

Section stop_aftermath.
Context (react : nat -> CancelReaction) (now : Z).
Implicit Types (rn : TaskRunner) (t : Task) (r w : nat) (e : Event).

Lemma wind_down_cases w rn rn' :
  wind_down react now w rn = Some rn' ->
  rn' = rn \/ exists o, _worker_settle w now o rn = Some rn'.
Proof.
  unfold wind_down.
  destruct (workers rn !! w) as [[|r]|]; try (intros [= <-]; by left).
  destruct (react w) as [|o|]; [intros [= <-]; by left| |done].
  intros Hs. right. by exists o.
Qed.

Lemma gather_preserves (Φ : TaskRunner -> Prop) ws rn rn' :
  (forall w rn1 rn2,
      Φ rn1 -> wind_down react now w rn1 = Some rn2 -> Φ rn2) ->
  Φ rn -> gather react now ws rn = Some rn' -> Φ rn'.
Proof.
  intros Hstep. revert rn. induction ws as [|w ws IH]; intros rn HΦ; simpl.
  - by intros [= <-].
  - destruct (wind_down react now w rn) as [rn1|] eqn:H1; [|done].
    apply IH. by apply (Hstep w rn).
Qed.

Lemma Inv_set_is_running b rn : Inv rn -> Inv (set_is_running b rn).
Proof. intros []. by split. Qed.

Lemma Inv_no_workers rn : Inv rn -> Inv (set_workers [] rn).
Proof. intros []. split; try done; simpl; intros; simplify_list_eq. Qed.

Lemma settle_keeps_queued w o rn rn' r :
  _worker_settle w now o rn = Some rn' ->
  r ∈ queued (task_queue rn) -> r ∈ queued (task_queue rn').
Proof.
  intros Hs Hin. apply _worker_settle_Some in Hs as (r0 & t0 & _ & _ & ->).
  simpl. destruct (requeues o t0); [|done]. rewrite queued_put. by right.
Qed.

Lemma settle_max_workers w o rn rn' :
  _worker_settle w now o rn = Some rn' ->
  max_workers rn' = max_workers rn /\ is_running rn' = is_running rn.
Proof.
  intros Hs. by apply _worker_settle_Some in Hs as (r0 & t0 & _ & _ & ->).
Qed.
End stop_aftermath.

(** [stop] is idempotent and does not touch the queue: when it
    returns, the runner is not running and has no workers, a second
    [stop] changes nothing, every task that was queued is still queued,
    and [start] brings up [max_workers] fresh workers again. *)
Theorem stop_then_start
    (react : nat -> CancelReaction) (now : Z) (rn rn' : TaskRunner) :
  is_running rn = true ->
  stop react now rn = Some rn' ->
  is_running rn' = false /\ workers rn' = [] /\
  max_workers rn' = max_workers rn /\
  (forall react' now', stop react' now' rn' = Some rn') /\
  (forall r, r ∈ queued (task_queue rn) -> r ∈ queued (task_queue rn')) /\
  is_running (start rn') = true /\
  workers (start rn') = replicate (max_workers rn) Polling.
Proof.
  intros Hrun. unfold stop. rewrite Hrun.
  destruct (gather react now (seq 0 (length (workers rn)))
              (set_is_running false rn)) as [rn2|] eqn:Hg; [|done].
  intros [= <-].
  assert (max_workers rn2 = max_workers rn /\ is_running rn2 = false
          /\ forall r, r ∈ queued (task_queue rn) -> r ∈ queued (task_queue rn2))
    as (Hmw & Hr2 & Hq).
  { apply (gather_preserves react now
             (fun s => max_workers s = max_workers rn /\ is_running s = false
                       /\ forall r, r ∈ queued (task_queue rn) ->
                                    r ∈ queued (task_queue s)) _ _ _)
      with (3 := Hg); [|done].
    intros w rn1 rn3 (H1 & H2 & H3) Hwd.
    apply wind_down_cases in Hwd as [->|[o Hs]]; [done|].
    destruct (settle_max_workers now w o rn1 rn3 Hs) as [-> ->].
    split_and!; try done.
    intros r Hr. by apply (settle_keeps_queued now w o rn1), H3. }
  split_and!; simpl; try done.
  - intros react' now'. unfold stop. simpl. by rewrite Hr2.
  - unfold start. simpl. by rewrite Hr2.
  - unfold start. simpl. rewrite Hr2. simpl. by rewrite Hmw.
Qed.

Lemma stop_then_start_witness :
  let rn := state_after
              (session_claimed
               ++ [EvSubmit "t2" "other" example_sync_task LOW 3 12]) in
  let react := fun _ : nat => Propagates in
  exists rn',
    stop react 13 rn = Some rn' /\
    is_running rn' = false /\ workers rn' = [] /\
    max_workers rn' = max_workers rn /\
    (forall react' now', stop react' now' rn' = Some rn') /\
    (forall r, r ∈ queued (task_queue rn) -> r ∈ queued (task_queue rn')) /\
    is_running (start rn') = true /\
    workers (start rn') = replicate (max_workers rn) Polling.
Proof.
  intros rn react. exists (default rn (stop react 13 rn)).
  split; [vm_compute; reflexivity|].
  apply (stop_then_start react 13 rn).
  - vm_compute. reflexivity.
  - vm_compute. reflexivity.
Defined.
Section stranded_facts.
Implicit Types (rn : TaskRunner) (t : Task) (r w : nat) (e : Event).

Lemma stranded_fire e rn rn' r tid :
  stranded r tid rn -> fire e rn = Some rn' -> stranded r tid rn'.
Proof.
  intros (HI & Ha & (t & Ht & Hid & Hfl) & Hnw) Hf.
  split; [by apply (Inv_fire e rn)|].
  unfold fire in Hf. destruct (enabled e rn); [|done].
  destruct e as [|new_id nm fn prio maxr now|w now|w now o|tid0 now];
    simpl in Hf.
  - injection Hf as <-. unfold start. destruct (is_running rn).
    { split_and!; [done|by exists t|done]. }
    split_and!; simpl; [done|by exists t|].
    intros w Hw. apply lookup_app_replicate_Executing in Hw. by apply (Hnw w).
  - destruct (decide (id_unused new_id rn)); [|done].
    injection Hf as <-. split_and!; simpl; [done| |done].
    exists t. split; [|done]. rewrite lookup_insert_ne; [done|].
    intros <-. pose proof (fresh_ref_unused rn). congruence.
  - apply _worker_claim_Some in Hf as (r0 & q' & t0 & _ & Hw & Hg & Ht0 & ->).
    assert (r0 ≠ r) as Hr.
    { intros ->. destruct (inv_queued rn HI r) as (t1 & Ht1 & Hwt).
      { rewrite (TaskQueue_get_queued _ _ _ Hg). by left. }
      apply (waiting_not_in_flight (status t)); congruence. }
    split_and!; simpl.
    + rewrite lookup_insert_ne; [done|]. intros Heq. apply Hr.
      apply (inv_ids rn HI r0 r t0 t); congruence.
    + exists t. by rewrite lookup_insert_ne.
    + intros w0 Hw0.
      apply list_lookup_insert_Some in Hw0 as [(_ & ? & _)|[_ Hw0]];
        [congruence|by apply (Hnw w0)].
  - apply _worker_settle_Some in Hf as (r0 & t0 & Hw & Ht0 & ->).
    assert (r0 ≠ r) as Hr by (intros ->; by apply (Hnw w)).
    split_and!; simpl.
    + rewrite lookup_delete_ne; [done|]. intros Heq. apply Hr.
      apply (inv_ids rn HI r0 r t0 t); congruence.
    + exists t. by rewrite lookup_insert_ne.
    + intros w0 Hw0.
      apply list_lookup_insert_Some in Hw0 as [(_ & ? & _)|[_ Hw0]];
        [done|by apply (Hnw w0)].
  - injection Hf as <-. unfold cancel_task.
    destruct (active_tasks rn !! tid0) as [r0|] eqn:Ha0.
    2:{ split_and!; [done|by exists t|done]. }
    split_and!; simpl; [done| |done].
    destruct (decide (r0 = r)) as [->|Hne].
    + eexists. rewrite lookup_alter_eq, Ht. simpl.
      split_and!; [done|done|by right].
    + exists t. by rewrite lookup_alter_ne.
Qed.

Lemma stranded_run evs rn rn' r tid :
  stranded r tid rn -> run evs rn = Some rn' -> stranded r tid rn'.
Proof.
  revert rn. induction evs as [|e evs IH]; intros rn Hs; simpl.
  - by intros [= <-].
  - destruct (fire e rn) as [rn1|] eqn:Hf; [|done].
    apply IH. by apply (stranded_fire e rn).
Qed.

Lemma stranded_start rn r tid : stranded r tid rn -> stranded r tid (start rn).
Proof.
  intros (HI & Ha & Ht & Hnw). split; [by apply Inv_start|].
  unfold start. destruct (is_running rn); [done|].
  split_and!; simpl; try done.
  intros w Hw. apply lookup_app_replicate_Executing in Hw. by apply (Hnw w).
Qed.
End stranded_facts.

(** A task whose work is interrupted by [stop] is lost: it stays in
    the active table with the status it had, it is not in the queue,
    and after a restart no run ever executes it again or moves it to
    another status than Running or Cancelled; it never gets a result. *)
Theorem stop_strands_interrupted_task
    (react : nat -> CancelReaction) (now : Z) (rn rn' : TaskRunner)
    (w r : nat) :
  reachable rn -> is_running rn = true ->
  workers rn !! w = Some (Executing r) -> react w = Propagates ->
  stop react now rn = Some rn' ->
  exists t,
    heap rn !! r = Some t /\ heap rn' !! r = Some t /\
    active_tasks rn' !! task_id t = Some r /\
    (r ∉ queued (task_queue rn')) /\
    (forall evs rn'',
        run evs (start rn') = Some rn'' ->
        active_tasks rn'' !! task_id t = Some r /\
        (forall w', workers rn'' !! w' ≠ Some (Executing r)) /\
        exists t',
          heap rn'' !! r = Some t' /\
          (status t' = RUNNING \/ status t' = CANCELLED) /\
          result t' = PyNone).
Proof.
  intros Hre Hrun Hw Hreact. pose proof (reachable_Inv rn Hre) as HI.
  unfold stop. rewrite Hrun.
  destruct (gather react now (seq 0 (length (workers rn)))
              (set_is_running false rn)) as [rn2|] eqn:Hg; [|done].
  intros [= <-].
  destruct (pool_exec rn (reachable_Inv_pool rn Hre) w r Hw) as (t & Ht & Ha).
  assert (Inv rn2 /\ heap rn2 !! r = Some t /\
          active_tasks rn2 !! task_id t = Some r /\
          workers rn2 !! w = Some (Executing r)) as (HI2 & Ht2 & Ha2 & Hw2).
  { apply (gather_preserves react now
             (fun s => Inv s /\ heap s !! r = Some t /\
                       active_tasks s !! task_id t = Some r /\
                       workers s !! w = Some (Executing r)) _ _ _)
      with (3 := Hg); [|split_and!; try done; by apply Inv_set_is_running].
    intros w0 rn1 rn3 (H1 & H2 & H3 & H4) Hwd.
    destruct (decide (w0 = w)) as [->|Hne].
    { unfold wind_down in Hwd. rewrite H4, Hreact in Hwd.
      by injection Hwd as <-. }
    apply wind_down_cases in Hwd as [->|[o Hs]]; [done|].
    split; [by apply (Inv_settle w0 now o rn1)|].
    apply _worker_settle_Some in Hs as (r0 & t0 & Hw0 & Ht0 & ->). simpl.
    assert (r0 ≠ r) as Hr.
    { intros ->. apply Hne. by apply (inv_exec_inj rn1 H1 w0 w r). }
    split_and!.
    - by rewrite lookup_insert_ne.
    - rewrite lookup_delete_ne; [done|]. intros Heq. apply Hr.
      apply (inv_ids rn1 H1 r0 r t0 t); congruence.
    - by rewrite list_lookup_insert_ne. }
  destruct (inv_exec rn2 HI2 w r Hw2) as (t1 & Ht1 & Hfl).
  assert (t1 = t) as -> by congruence.
  assert (stranded r (task_id t) (set_workers [] rn2)) as Hstr.
  { split_and!; simpl; [by apply Inv_no_workers|done|by exists t|].
    intros w0. by rewrite lookup_nil. }
  exists t. split_and!; simpl; try done.
  - intros Hq. destruct (inv_queued rn2 HI2 r Hq) as (t3 & Ht3 & Hwt).
    apply (waiting_not_in_flight (status t)); congruence.
  - intros evs rn'' Hrun''.
    destruct (stranded_run evs _ rn'' r (task_id t)
                (stranded_start _ _ _ Hstr) Hrun'')
      as (HI'' & Ha'' & (t' & Ht' & _ & Hfl') & Hnw'').
    split_and!; try done. exists t'. split_and!; try done.
    apply in_flight_no_result; [by apply (inv_task rn'' HI'' r)|done].
Qed.

Lemma stop_strands_interrupted_task_witness :
  let rn := state_after session_claimed in
  let react := fun _ : nat => Propagates in
  exists rn' t,
    stop react 12 rn = Some rn' /\
    heap rn !! 0%nat = Some t /\ heap rn' !! 0%nat = Some t /\
    active_tasks rn' !! task_id t = Some 0%nat /\
    (0%nat ∉ queued (task_queue rn')) /\
    (forall evs rn'',
        run evs (start rn') = Some rn'' ->
        active_tasks rn'' !! task_id t = Some 0%nat /\
        (forall w', workers rn'' !! w' ≠ Some (Executing 0%nat)) /\
        exists t',
          heap rn'' !! 0%nat = Some t' /\
          (status t' = RUNNING \/ status t' = CANCELLED) /\
          result t' = PyNone).
Proof.
  intros rn react.
  destruct (stop_strands_interrupted_task react 12 rn
              (default rn (stop react 12 rn)) 0 0) as (t & Ht);
    try (vm_compute; reflexivity).
  - apply reachable_state_after. vm_compute. by eexists.
  - exists (default rn (stop react 12 rn)), t.
    split; [vm_compute; reflexivity|exact Ht].
Defined.

(** ** More on single tasks and single counters *)

(** No task is executed twice at the same time: in every state of a
    run, a task that a worker executes is executed by no other worker
    and is not waiting in the queue. *)
Theorem no_double_execution (rn : TaskRunner) (w r : nat) :
  reachable rn -> workers rn !! w = Some (Executing r) ->
  (forall w', workers rn !! w' = Some (Executing r) -> w' = w) /\
  r ∉ queued (task_queue rn).
Proof.
  intros HI%reachable_Inv Hw. split.
  - intros w' Hw'. by apply (inv_exec_inj rn HI w' w r).
  - intros Hq. destruct (inv_queued rn HI r Hq) as (t & Ht & Hwt).
    destruct (inv_exec rn HI w r Hw) as (t' & Ht' & Hfl).
    apply (waiting_not_in_flight (status t)); congruence.
Qed.

Lemma no_double_execution_witness :
  (forall w', workers (state_after session_retry_claimed) !! w'
              = Some (Executing 0%nat) -> w' = 0%nat) /\
  0%nat ∉ queued (task_queue (state_after session_retry_claimed)).
Proof.
  apply (no_double_execution (state_after session_retry_claimed) 0 0).
  - apply reachable_state_after. vm_compute. by eexists.
  - vm_compute. reflexivity.
Defined.

Lemma returning_pass_result
    (w : nat) (now now' : Z) (v : PyValue) (rn : TaskRunner)
    (r : nat) (q' : TaskQueue) (t : Task) :
  is_running rn = true -> workers rn !! w = Some Polling ->
  TaskQueue_get (task_queue rn) = Some (r, q') -> heap rn !! r = Some t ->
  exists rn' t',
    _worker_iteration w now now' (Returned v) rn = Some rn' /\
    heap rn' !! r = Some t' /\
    status t' = COMPLETED /\ result t' = v /\
    started_at t' = Some now /\ completed_at t' = Some now' /\
    retries t' = retries t /\ error t' = error t /\
    task_queue rn' = q' /\
    completed_tasks rn' !! task_id t = Some r /\
    active_tasks rn' !! task_id t = None /\
    workers rn' !! w = Some Polling.
Proof.
  intros Hrun Hw Hg Ht.
  assert (w < length (workers rn))%nat as Hlt by by eapply lookup_lt_Some.
  unfold _worker_iteration.
  set (rn1 := mkRunner (max_workers rn) q'
                (<[task_id t:=r]> (active_tasks rn)) (completed_tasks rn)
                (<[w:=Executing r]> (workers rn)) (is_running rn)
                (<[r:=_execute_task_begin now t]> (heap rn))).
  assert (_worker_claim w now rn = Some rn1) as ->.
  { apply _worker_claim_Some. exists r, q', t. by split_and!. }
  eexists _, _. split.
  { apply _worker_settle_Some. exists r, (_execute_task_begin now t).
    split_and!; [|by apply lookup_insert_eq|reflexivity].
    simpl. by apply list_lookup_insert_eq. }
  simpl. rewrite !lookup_insert_eq, lookup_delete_eq.
  split_and!; try done.
  apply list_lookup_insert_eq. by rewrite length_insert.
Qed.

(** A pass of a worker whose work returns: the task at the head of the
    scan leaves the queue and ends up Completed, with the returned
    value as result and both time stamps set, in the completed table
    and not in the active table; its retry counter and its error are
    as they were. *)
Theorem successful_pass_completes
    (w : nat) (now now' : Z) (v : PyValue) (rn : TaskRunner)
    (r : nat) (q' : TaskQueue) (t : Task) :
  is_running rn = true -> workers rn !! w = Some Polling ->
  TaskQueue_get (task_queue rn) = Some (r, q') -> heap rn !! r = Some t ->
  exists rn' t',
    _worker_iteration w now now' (Returned v) rn = Some rn' /\
    heap rn' !! r = Some t' /\
    status t' = COMPLETED /\ result t' = v /\
    started_at t' = Some now /\ completed_at t' = Some now' /\
    retries t' = retries t /\ error t' = error t /\
    task_queue rn' = q' /\
    completed_tasks rn' !! task_id t = Some r /\
    active_tasks rn' !! task_id t = None /\
    workers rn' !! w = Some Polling.
Proof. apply returning_pass_result. Qed.

Lemma successful_pass_completes_witness :
  let rn := state_after session_submitted in
  let t := mkTask "t1" "job" example_async_task MEDIUM PENDING 10 None None
             PyNone None 0 3 in
  exists rn' t',
    _worker_iteration 0 11 12 (Returned (PyInt 5)) rn = Some rn' /\
    heap rn' !! 0%nat = Some t' /\
    status t' = COMPLETED /\ result t' = PyInt 5 /\
    started_at t' = Some 11 /\ completed_at t' = Some 12 /\
    retries t' = retries t /\ error t' = error t /\
    task_queue rn' = TaskQueue_init /\
    completed_tasks rn' !! task_id t = Some 0%nat /\
    active_tasks rn' !! task_id t = None /\
    workers rn' !! 0%nat = Some Polling.
Proof.
  intros rn t.
  apply (successful_pass_completes 0 11 12 (PyInt 5) rn 0 TaskQueue_init t);
    vm_compute; reflexivity.
Defined.

(** After any sequence of calls of [increment_counter], a counter holds
    what it held before (0 if it did not exist) plus the values added
    under its name; it exists exactly if it existed before or was named
    in a call, whatever the value. *)
Theorem counter_after_increments
    (l : list (string * Z)) (m : gmap string Z) (name : string) :
  counter (increments l m) name = counter m name + added_to name l /\
  (is_Some (increments l m !! name) <->
   is_Some (m !! name) \/ name ∈ l.*1).
Proof.
  revert m. induction l as [|[n v] l IH]; intros m.
  - simpl. split; [lia|]. split; [by left|]. intros [?|Hin]; [done|].
    by apply elem_of_nil in Hin.
  - unfold increments in *. simpl.
    destruct (IH (increment_counter n v m)) as [Hc Hd]. split.
    + rewrite Hc. destruct (decide (n = name)) as [->|Hne].
      * rewrite counter_increment_eq. lia.
      * rewrite counter_increment_ne by done. lia.
    + rewrite Hd, elem_of_cons. unfold increment_counter.
      destruct (decide (n = name)) as [->|Hne].
      * rewrite lookup_insert_eq. split; [by right; left|by left].
      * rewrite lookup_insert_ne by done. split.
        -- intros [?|?]; [by left|by right; right].
        -- intros [?|[?|?]]; [by left|congruence|by right].
Qed.

(** ** Retrying and draining *)

(** A failed attempt that leaves retries puts the task at the back of
    the lane of its priority, behind every task that was put there in
    the meantime, and leaves the other lanes as they are; the task keeps
    its id, priority and ceiling, and counts one more retry. *)
Theorem retry_requeues_at_back
    (w : nat) (now : Z) (msg : string) (rn : TaskRunner) (r : nat) (t : Task) :
  workers rn !! w = Some (Executing r) -> heap rn !! r = Some t ->
  retries t + 1 <= max_retries t ->
  exists rn' t',
    _worker_settle w now (Raised msg) rn = Some rn' /\
    heap rn' !! r = Some t' /\
    status t' = RETRYING /\ retries t' = retries t + 1 /\
    error t' = Some msg /\
    task_id t' = task_id t /\ priority t' = priority t /\
    max_retries t' = max_retries t /\
    lane (priority t) (task_queue rn')
    = lane (priority t) (task_queue rn) ++ [r] /\
    (forall p, p ≠ priority t ->
               lane p (task_queue rn') = lane p (task_queue rn)) /\
    workers rn' !! w = Some Polling.
Proof.
  intros Hw Ht Hle.
  assert ((retries t + 1 <=? max_retries t) = true) as Hb
    by by apply Z.leb_le.
  eexists _, (settled_task now (Raised msg) t). split.
  { apply _worker_settle_Some. exists r, t. split_and!; [done|done|reflexivity]. }
  simpl. rewrite Hb. simpl. rewrite lookup_insert_eq.
  split_and!; try done.
  - unfold TaskQueue_put. simpl. by rewrite lane_set_lane_eq.
  - intros p Hp. unfold TaskQueue_put. simpl. by rewrite lane_set_lane_ne.
  - apply list_lookup_insert_eq. by eapply lookup_lt_Some.
Qed.

Lemma retry_requeues_at_back_witness :
  let rn := state_after
              (session_claimed
               ++ [EvSubmit "t2" "other" example_async_task MEDIUM 3 12]) in
  let t := mkTask "t1" "job" example_async_task MEDIUM RUNNING 10 (Some 11)
             None PyNone None 0 3 in
  exists rn' t',
    _worker_settle 0 13 (Raised "boom") rn = Some rn' /\
    heap rn' !! 0%nat = Some t' /\
    status t' = RETRYING /\ retries t' = retries t + 1 /\
    error t' = Some "boom" /\
    task_id t' = task_id t /\ priority t' = priority t /\
    max_retries t' = max_retries t /\
    lane (priority t) (task_queue rn')
    = lane (priority t) (task_queue rn) ++ [0%nat] /\
    (forall p, p ≠ priority t ->
               lane p (task_queue rn') = lane p (task_queue rn)) /\
    workers rn' !! 0%nat = Some Polling.
Proof.
  intros rn t.
  apply (retry_requeues_at_back 0 13 "boom" rn 0 t);
    vm_compute; (reflexivity || discriminate).
Defined.

Section draining.
Context (w : nat).
Implicit Types (rn : TaskRunner) (t : Task) (r : nat).

Lemma returning_pass_step now now' v rn r q' t :
  Inv rn -> is_running rn = true -> workers rn !! w = Some Polling ->
  TaskQueue_get (task_queue rn) = Some (r, q') -> heap rn !! r = Some t ->
  exists rn',
    _worker_iteration w now now' (Returned v) rn = Some rn' /\
    Inv rn' /\ is_running rn' = true /\ workers rn' !! w = Some Polling /\
    task_queue rn' = q' /\
    (status <$> (heap rn' !! r)) = Some COMPLETED /\
    (forall r0, r0 ≠ r -> heap rn' !! r0 = heap rn !! r0).
Proof.
  intros HI Hrun Hw Hg Ht.
  destruct (returning_pass_result w now now' v rn r q' t Hrun Hw Hg Ht)
    as (rn' & t' & Hpass & Ht' & Hst & _ & _ & _ & _ & _ & Hq & _ & _ & Hw').
  assert ((status <$> (heap rn' !! r)) = Some COMPLETED) as Hdone
    by (by rewrite Ht', <- Hst).
  exists rn'. split; [done|].
  unfold _worker_iteration in Hpass.
  destruct (_worker_claim w now rn) as [rn1|] eqn:Hc; [|done].
  pose proof (Inv_claim w now rn rn1 HI Hc) as HI1.
  pose proof (Inv_settle w now' (Returned v) rn1 rn' HI1 Hpass) as HI'.
  apply _worker_claim_Some in Hc as (r1 & q1 & t1 & _ & _ & Hg1 & Ht1 & ->).
  assert (r1 = r) as -> by congruence.
  apply _worker_settle_Some in Hpass as (r2 & t2 & Hw2 & Ht2 & ->).
  simpl in Hw2. rewrite list_lookup_insert_eq in Hw2
    by (by eapply lookup_lt_Some).
  assert (r2 = r) as -> by congruence.
  split_and!; try done.
  intros r0 Hne. simpl. by rewrite !lookup_insert_ne.
Qed.

Lemma returning_passes_drain outs rn :
  Inv rn -> is_running rn = true -> workers rn !! w = Some Polling ->
  length outs = length (queued (task_queue rn)) ->
  exists rn',
    returning_passes outs w rn = Some rn' /\ Inv rn' /\
    queued (task_queue rn') = [] /\
    (forall r, r ∈ queued (task_queue rn) ->
               (status <$> (heap rn' !! r)) = Some COMPLETED) /\
    (forall r, r ∉ queued (task_queue rn) -> heap rn' !! r = heap rn !! r).
Proof.
  revert rn. induction outs as [|[[now now'] v] outs IH];
    intros rn HI Hrun Hw Hlen; simpl in *.
  - exists rn. symmetry in Hlen. apply nil_length_inv in Hlen.
    split_and!; try done. intros r. rewrite Hlen. by intros ?%elem_of_nil.
  - destruct (TaskQueue_get (task_queue rn)) as [[r q']|] eqn:Hg.
    2:{ pose proof (proj1 (TaskQueue_get_None _) Hg) as Hl.
        rewrite (proj2 (queued_nil_lanes _) Hl) in Hlen. done. }
    pose proof (TaskQueue_get_queued _ _ _ Hg) as Hq.
    destruct (inv_queued rn HI r) as (t & Ht & _); [rewrite Hq; by left|].
    destruct (returning_pass_step now now' v rn r q' t HI Hrun Hw Hg Ht)
      as (rn1 & -> & HI1 & Hrun1 & Hw1 & Hq1 & Hst1 & Hframe).
    pose proof (inv_nodup rn HI) as Hnd. rewrite Hq in Hnd.
    apply NoDup_cons in Hnd as [Hnotin _].
    destruct (IH rn1 HI1 Hrun1 Hw1) as (rn' & Hp & HI' & Hempty & Hall & Hrest).
    { rewrite Hq1. rewrite Hq in Hlen. simpl in Hlen. lia. }
    exists rn'. split_and!; try done.
    + intros r0. rewrite Hq. intros [->|Hin]%elem_of_cons.
      * rewrite Hrest by (by rewrite Hq1). done.
      * apply Hall. by rewrite Hq1.
    + intros r0 Hnot. rewrite Hq in Hnot.
      apply not_elem_of_cons in Hnot as [Hne Hnot].
      rewrite Hrest by (by rewrite Hq1). by apply Hframe.
Qed.
End draining.

(** One free worker, as many passes as there are queued tasks, every
    work returning: the queue is then empty and every task that was
    queued is Completed and filed in the completed table, not in the
    active one; tasks that were not queued are untouched. *)
Theorem worker_drains_queue
    (w : nat) (outs : list (Z * Z * PyValue)) (rn : TaskRunner) :
  reachable rn -> is_running rn = true -> workers rn !! w = Some Polling ->
  length outs = length (queued (task_queue rn)) ->
  exists rn',
    returning_passes outs w rn = Some rn' /\
    queued (task_queue rn') = [] /\
    (forall r, r ∈ queued (task_queue rn) ->
       exists t',
         heap rn' !! r = Some t' /\ status t' = COMPLETED /\
         completed_tasks rn' !! task_id t' = Some r /\
         active_tasks rn' !! task_id t' = None) /\
    (forall r, r ∉ queued (task_queue rn) -> heap rn' !! r = heap rn !! r).
Proof.
  intros HI%reachable_Inv Hrun Hw Hlen.
  destruct (returning_passes_drain w outs rn HI Hrun Hw Hlen)
    as (rn' & Hp & HI' & Hempty & Hall & Hrest).
  exists rn'. split_and!; try done.
  intros r Hr. specialize (Hall r Hr).
  destruct (heap rn' !! r) as [t'|] eqn:Ht'; [|done].
  injection Hall as Hst. exists t'. split_and!; try done.
  - apply (inv_done rn' HI' r t' Ht'). by left.
  - destruct (active_tasks rn' !! task_id t') as [r0|] eqn:Ha; [|done].
    destruct (inv_active rn' HI' _ r0 Ha) as (t0 & Ht0 & Hid0 & Hfl).
    assert (r0 = r) as -> by (by apply (inv_ids rn' HI' r0 r t0 t')).
    destruct Hfl; congruence.
Qed.

Lemma worker_drains_queue_witness :
  let rn := state_after
              (session_submitted
               ++ [ EvSubmit "t2" "second" example_sync_task URGENT 3 11;
                    EvSubmit "t3" "third" example_async_task MEDIUM 0 12 ]) in
  let outs := [(13, 14, PyInt 1); (15, 16, PyNone); (17, 18, PyStr "ok")] in
  exists rn',
    returning_passes outs 0 rn = Some rn' /\
    queued (task_queue rn') = [] /\
    (forall r, r ∈ queued (task_queue rn) ->
       exists t',
         heap rn' !! r = Some t' /\ status t' = COMPLETED /\
         completed_tasks rn' !! task_id t' = Some r /\
         active_tasks rn' !! task_id t' = None) /\
    (forall r, r ∉ queued (task_queue rn) -> heap rn' !! r = heap rn !! r).
Proof.
  intros rn outs. apply (worker_drains_queue 0 outs rn).
  - apply reachable_state_after. vm_compute. by eexists.
  - vm_compute. reflexivity.
  - vm_compute. reflexivity.
  - vm_compute. reflexivity.
Defined.

(** ** Sessions with stop: the queries *)

Section session_facts.
Implicit Types (rn : TaskRunner) (t : Task) (r w : nat) (e : Event).

Lemma Inv_stop react now rn rn' :
  Inv rn -> stop react now rn = Some rn' -> Inv rn'.
Proof.
  intros HI. unfold stop. destruct (is_running rn); [|by intros [= <-]].
  destruct (gather react now (seq 0 (length (workers rn)))
              (set_is_running false rn)) as [rn2|] eqn:Hg; [|done].
  intros [= <-]. apply Inv_no_workers.
  apply (gather_preserves react now Inv _ _ _) with (3 := Hg);
    [|by apply Inv_set_is_running].
  intros w rn1 rn3 H1 Hwd.
  apply wind_down_cases in Hwd as [->|[o Hs]]; [done|].
  by apply (Inv_settle w now o rn1).
Qed.

Lemma Inv_perform c rn rn' : Inv rn -> perform c rn = Some rn' -> Inv rn'.
Proof.
  intros HI. destruct c as [e|react now]; simpl.
  - by apply Inv_fire.
  - destruct (loop_blocked rn); [done|]. by apply Inv_stop.
Qed.

Lemma Inv_staff_init n : Inv_staff (TaskRunner_init n).
Proof. split; simpl; [done|]. intros w r Hw. by rewrite lookup_nil in Hw. Qed.

Lemma Inv_staff_stop react now rn rn' :
  Inv_staff rn -> stop react now rn = Some rn' -> Inv_staff rn'.
Proof.
  intros HS. unfold stop. destruct (is_running rn) eqn:Hrun; [|by intros [= <-]].
  destruct (gather react now (seq 0 (length (workers rn)))
              (set_is_running false rn)) as [rn2|] eqn:Hg; [|done].
  intros [= <-].
  assert (is_running rn2 = false) as Hr2.
  { apply (gather_preserves react now (fun s => is_running s = false) _ _ _)
      with (3 := Hg); [|done].
    intros w rn1 rn3 H1 Hwd.
    apply wind_down_cases in Hwd as [->|[o Hs]]; [done|].
    destruct (settle_max_workers now w o rn1 rn3 Hs) as [_ ->]. done. }
  split; simpl; [by rewrite Hr2|].
  intros w r Hw. by rewrite lookup_nil in Hw.
Qed.

Lemma Inv_staff_fire e rn rn' :
  Inv rn -> Inv_staff rn -> fire e rn = Some rn' -> Inv_staff rn'.
Proof.
  intros HI [Hsz He]. unfold fire. destruct (enabled e rn); [|done].
  destruct e as [|new_id nm fn prio maxr now|w now|w now o|tid now]; simpl.
  - intros [= <-]. unfold start.
    destruct (is_running rn) eqn:Hrun; [by split; rewrite ?Hrun|].
    split; simpl.
    + by rewrite length_app, length_replicate, Hsz.
    + intros w r Hw. apply lookup_app_replicate_Executing in Hw.
      by apply (He w).
  - destruct (decide (id_unused new_id rn)); [|done].
    intros [= <-]. split; simpl; [done|].
    intros w r Hw. destruct (He w r Hw) as (t & Ht & Hat).
    exists t. split; [|done]. rewrite lookup_insert_ne; [done|].
    intros <-. pose proof (fresh_ref_unused rn). congruence.
  - intros Hc.
    apply _worker_claim_Some in Hc as (r & q' & t & Hrun & Hw & Hg & Ht & ->).
    assert (waiting (status t)) as Hwt.
    { destruct (inv_queued rn HI r) as (t0 & Ht0 & ?); [|congruence].
      rewrite (TaskQueue_get_queued _ _ _ Hg). by left. }
    split; simpl; [by rewrite length_insert|].
    intros w0 r0 Hw0.
    apply list_lookup_insert_Some in Hw0 as [(_ & [= <-] & _)|[Hne Hw0]].
    + exists (_execute_task_begin now t). by rewrite !lookup_insert_eq.
    + destruct (He w0 r0 Hw0) as (t0 & Ht0 & Hat).
      destruct (inv_exec rn HI w0 r0 Hw0) as (t1 & Ht1 & Hfl).
      assert (r0 ≠ r) as Hr.
      { intros ->. apply (waiting_not_in_flight (status t)); congruence. }
      exists t0. rewrite !lookup_insert_ne; try done.
      intros Hid. apply Hr. symmetry. by apply (inv_ids rn HI r r0 t t0).
  - intros Hs.
    apply _worker_settle_Some in Hs as (r & t & Hw & Ht & ->).
    split; simpl; [by rewrite length_insert|].
    intros w0 r0 Hw0.
    apply list_lookup_insert_Some in Hw0 as [(_ & ? & _)|[Hne Hw0]]; [done|].
    destruct (He w0 r0 Hw0) as (t0 & Ht0 & Hat).
    assert (r0 ≠ r) as Hr.
    { intros ->. apply Hne. by apply (inv_exec_inj rn HI w w0 r). }
    exists t0. rewrite lookup_insert_ne by done. split; [done|].
    rewrite lookup_delete_ne; [done|].
    intros Hid. apply Hr. symmetry. by apply (inv_ids rn HI r r0 t t0).
  - intros [= <-]. unfold cancel_task.
    destruct (active_tasks rn !! tid) as [r|] eqn:Hact; [|done].
    split; simpl; [done|].
    intros w0 r0 Hw0. destruct (He w0 r0 Hw0) as (t0 & Ht0 & Hat).
    destruct (decide (r = r0)) as [->|Hne].
    + eexists. rewrite lookup_alter_eq, Ht0. simpl. done.
    + exists t0. by rewrite lookup_alter_ne.
Qed.

Lemma Inv_staff_perform c rn rn' :
  Inv rn -> Inv_staff rn -> perform c rn = Some rn' -> Inv_staff rn'.
Proof.
  intros HI HS. destruct c as [e|react now]; simpl.
  - by apply Inv_staff_fire.
  - destruct (loop_blocked rn); [done|]. by apply Inv_staff_stop.
Qed.

Lemma session_Inv cs rn rn' :
  Inv rn -> Inv_staff rn -> session cs rn = Some rn' -> Inv rn' /\ Inv_staff rn'.
Proof.
  revert rn. induction cs as [|c cs IH]; intros rn HI HS; simpl.
  - by intros [= <-].
  - destruct (perform c rn) as [rn1|] eqn:Hp; [|done].
    apply IH; [by apply (Inv_perform c rn)|by apply (Inv_staff_perform c rn)].
Qed.

Lemma reachable_with_stop_Inv rn :
  reachable_with_stop rn -> Inv rn /\ Inv_staff rn.
Proof.
  intros (n & cs & Hs).
  apply (session_Inv cs _ _ (Inv_init n) (Inv_staff_init n) Hs).
Qed.

Lemma session_events evs rn : session (CallEvent <$> evs) rn = run evs rn.
Proof.
  revert rn. induction evs as [|e evs IH]; intros rn; simpl; [done|].
  destruct (fire e rn); [apply IH|done].
Qed.

Lemma reachable_reachable_with_stop rn :
  reachable rn -> reachable_with_stop rn.
Proof.
  intros (n & evs & Hrun). exists n, (CallEvent <$> evs).
  by rewrite session_events.
Qed.

(** Every task that a worker executes has its entry in the active
    table, so the table has at least as many entries. *)
Lemma executing_le_active rn :
  Inv rn -> Inv_staff rn ->
  (length (executing (workers rn)) <= size (active_tasks rn))%nat.
Proof.
  intros HI HS.
  rewrite <- length_map_to_list, <- (length_fmap snd).
  apply submseteq_length, NoDup_submseteq.
  - apply NoDup_executing, (inv_exec_inj rn HI).
  - intros r [w Hw]%elem_of_executing.
    destruct (staff_exec rn HS w r Hw) as (t & Ht & Hat).
    apply list_elem_of_fmap. exists (task_id t, r). split; [done|].
    by apply elem_of_map_to_list.
Qed.

Lemma dict_order_elem_of order (tbl : gmap string nat) k :
  dict_order order tbl -> k ∈ order <-> is_Some (tbl !! k).
Proof.
  intros [_ Hdom]. rewrite <- elem_of_dom, <- Hdom.
  by rewrite elem_of_list_to_set.
Qed.

Lemma dict_order_length order (tbl : gmap string nat) :
  dict_order order tbl -> length order = size tbl.
Proof.
  intros [Hnd Hdom]. rewrite <- size_dom, <- Hdom.
  by rewrite size_list_to_set.
Qed.

(** The values of a table whose entries do not dangle, key by key. *)
Lemma dict_values_along order (h : gmap nat Task) (tbl : gmap string nat) :
  (forall k, k ∈ order -> exists r t, tbl !! k = Some r /\ h !! r = Some t) ->
  Forall2 (fun k t => exists r, tbl !! k = Some r /\ h !! r = Some t)
          order (dict_values order h tbl).
Proof.
  induction order as [|k order IH]; intros Hall; [constructor|].
  destruct (Hall k) as (r & t & Hk & Ht); [by left|].
  unfold dict_values in *. simpl. rewrite Hk. simpl. rewrite Ht.
  constructor; [by exists r|].
  apply IH. intros k' Hk'. apply Hall. by right.
Qed.

Lemma insert_desc_stamped key t l :
  stamped key (insert_desc t l) = stamped key (t :: l).
Proof.
  unfold stamped. induction l as [|y l IH]; simpl; [done|].
  destruct (sort_key t <? sort_key y) eqn:Hlt; [|done].
  apply Z.ltb_lt in Hlt.
  rewrite !filter_cons in *. rewrite IH.
  destruct (decide (sort_key t = key)) as [Ht|Ht];
    destruct (decide (sort_key y = key)) as [Hy|Hy]; try done.
  lia.
Qed.

(** The sort is stable. *)
Lemma sort_desc_stamped key l : stamped key (sort_desc l) = stamped key l.
Proof.
  induction l as [|t l IH]; [done|].
  unfold sort_desc in *. simpl. rewrite insert_desc_stamped.
  unfold stamped in *. rewrite !filter_cons, IH. done.
Qed.
End session_facts.

(** In every state of a session (runs and calls of [stop] that have
    returned), [get_queue_status] reports: lane sizes that add up to
    the number of queued tasks; as many workers as [max_workers] while
    the runner is running, and none otherwise; the workers that execute
    a task are at most that many, and each of their tasks is counted in
    the active count.  The active count can be larger: the entry of a
    task interrupted by [stop] stays.  In a state reached without
    [stop] the active count is the number of workers executing a task,
    hence at most [max_workers]. *)
Theorem queue_status_consistent (rn : TaskRunner) :
  reachable_with_stop rn ->
  let s := get_queue_status rn in
  (qs_urgent s + qs_high s + qs_medium s + qs_low s
   = length (queued (task_queue rn)))%nat /\
  qs_workers s = (if qs_is_running s then max_workers rn else 0%nat) /\
  (length (executing (workers rn)) <= qs_workers s)%nat /\
  (length (executing (workers rn)) <= qs_active_tasks s)%nat /\
  (reachable rn ->
   qs_active_tasks s = length (executing (workers rn)) /\
   (qs_active_tasks s <= max_workers rn)%nat).
Proof.
  intros [HI HS]%reachable_with_stop_Inv. simpl.
  pose proof (length_executing (workers rn)) as Hle.
  pose proof (staff_size rn HS) as Hpool.
  split_and!; try done.
  - unfold queued. rewrite !length_app. lia.
  - by apply executing_le_active.
  - intros Hre.
    pose proof (size_active_executing rn HI (reachable_Inv_pool rn Hre)) as Hsz.
    split; [done|]. destruct (is_running rn); lia.
Qed.

Lemma queue_status_consistent_witness :
  let rn := ended session_restarted 1 in
  let s := get_queue_status rn in
  s = mkQueueStatus 0 0 0 0 2 0 1 true /\
  max_workers rn = 1%nat /\
  length (executing (workers rn)) = 1%nat /\
  (qs_urgent s + qs_high s + qs_medium s + qs_low s
   = length (queued (task_queue rn)))%nat /\
  qs_workers s = (if qs_is_running s then max_workers rn else 0%nat) /\
  (length (executing (workers rn)) <= qs_workers s)%nat /\
  (length (executing (workers rn)) <= qs_active_tasks s)%nat /\
  (reachable rn ->
   qs_active_tasks s = length (executing (workers rn)) /\
   (qs_active_tasks s <= max_workers rn)%nat).
Proof.
  intros rn s.
  split; [vm_compute; reflexivity|].
  split; [vm_compute; reflexivity|].
  split; [vm_compute; reflexivity|].
  apply (queue_status_consistent rn).
  exists 1%nat, session_restarted. vm_compute. reflexivity.
Defined.

(** In every state of a session, [get_active_tasks] lists the active
    table in the order of the dict, whatever that order is: one record
    for each entry, the [to_dict] record of the task filed under that
    id, whose status is Running or Cancelled and which is not waiting
    in the queue. *)
Theorem active_listing (order : list string) (rn : TaskRunner) :
  reachable_with_stop rn -> dict_order order (active_tasks rn) ->
  length (get_active_tasks order rn) = size (active_tasks rn) /\
  Forall2
    (fun k d =>
       exists r t,
         active_tasks rn !! k = Some r /\ heap rn !! r = Some t /\
         task_id t = k /\ d = to_dict t /\
         (status t = RUNNING \/ status t = CANCELLED) /\
         r ∉ queued (task_queue rn))
    order (get_active_tasks order rn).
Proof.
  intros [HI HS]%reachable_with_stop_Inv Hord.
  assert (Forall2
            (fun k t => exists r, active_tasks rn !! k = Some r /\
                                  heap rn !! r = Some t)
            order (dict_values order (heap rn) (active_tasks rn))) as Hvals.
  { apply dict_values_along. intros k [r Hk]%(dict_order_elem_of _ _ _ Hord).
    destruct (inv_active rn HI k r Hk) as (t & Ht & _). by exists r, t. }
  unfold get_active_tasks. split.
  - rewrite length_fmap, <- (Forall2_length _ _ _ Hvals).
    by apply dict_order_length.
  - apply Forall2_fmap_r. eapply Forall2_impl; [exact Hvals|].
    intros k t (r & Hk & Ht). simpl.
    destruct (inv_active rn HI k r Hk) as (t0 & Ht0 & Hid & Hfl).
    assert (t0 = t) as -> by congruence.
    exists r, t. split_and!; try done.
    intros Hq. destruct (inv_queued rn HI r Hq) as (t1 & Ht1 & Hw).
    apply (waiting_not_in_flight (status t)); congruence.
Qed.

Lemma active_listing_witness :
  let rn := ended session_restarted 1 in
  let order := ["t1"; "t2"] in
  max_workers rn = 1%nat /\
  (status_value <$> (status <$> dict_values order (heap rn) (active_tasks rn)))
  = ["running"; "running"] /\
  length (get_active_tasks order rn) = size (active_tasks rn) /\
  Forall2
    (fun k d =>
       exists r t,
         active_tasks rn !! k = Some r /\ heap rn !! r = Some t /\
         task_id t = k /\ d = to_dict t /\
         (status t = RUNNING \/ status t = CANCELLED) /\
         r ∉ queued (task_queue rn))
    order (get_active_tasks order rn).
Proof.
  intros rn order.
  split; [vm_compute; reflexivity|].
  split; [vm_compute; reflexivity|].
  apply (active_listing order rn).
  - exists 1%nat, session_restarted. vm_compute. reflexivity.
  - split; [|vm_compute; reflexivity].
    compute_done.
Defined.

(** In every state of a session, and for any order in which the dict
    lists the completed table, the values of the table are the tasks
    filed under the keys, and [get_completed_tasks limit] returns the
    records of the first tasks of their stable descending sort by time
    stamp ([completed_at], or [created_at] for a task without one): the
    later stamp first, tasks with the same stamp in the order of the
    dict.  For [limit >= 0] these are [limit] tasks, or all if there
    are fewer; a negative [limit] does not raise but leaves out the
    last [-limit] tasks of the sorted list. *)
Theorem completed_listing (order : list string) (limit : Z) (rn : TaskRunner) :
  reachable_with_stop rn -> dict_order order (completed_tasks rn) ->
  let vals := dict_values order (heap rn) (completed_tasks rn) in
  let listed := recent_completed order limit rn in
  get_completed_tasks order limit rn = to_dict <$> listed /\
  Forall2
    (fun k t => exists r, completed_tasks rn !! k = Some r /\
                          heap rn !! r = Some t /\ task_id t = k)
    order vals /\
  (exists rest,
     listed ++ rest ≡ₚ vals /\
     StronglySorted newer_first (listed ++ rest) /\
     forall key, stamped key (listed ++ rest) = stamped key vals) /\
  length listed =
    (if 0 <=? limit then Nat.min (Z.to_nat limit) (size (completed_tasks rn))
     else (size (completed_tasks rn) - Z.to_nat (- limit))%nat).
Proof.
  intros [HI HS]%reachable_with_stop_Inv Hord vals listed.
  assert (Forall2
            (fun k t => exists r, completed_tasks rn !! k = Some r /\
                                  heap rn !! r = Some t)
            order vals) as Hvals.
  { apply dict_values_along. intros k [r Hk]%(dict_order_elem_of _ _ _ Hord).
    destruct (inv_completed rn HI k r Hk) as (t & Ht & _). by exists r, t. }
  assert (length vals = size (completed_tasks rn)) as Hlen.
  { rewrite <- (Forall2_length _ _ _ Hvals). by apply dict_order_length. }
  destruct (py_take_prefix limit (sort_desc vals)) as [rest Hrest].
  change (sort_desc vals = listed ++ rest) in Hrest.
  split_and!.
  - done.
  - eapply Forall2_impl; [exact Hvals|].
    intros k t (r & Hk & Ht). simpl.
    destruct (inv_completed rn HI k r Hk) as (t0 & Ht0 & Hid & _).
    assert (t0 = t) as -> by congruence. by exists r.
  - exists rest. rewrite <- Hrest. split_and!.
    + apply sort_desc_perm.
    + apply sort_desc_sorted.
    + intros key. apply sort_desc_stamped.
  - unfold listed, recent_completed. fold vals.
    rewrite length_py_take, (Permutation_length (sort_desc_perm vals)).
    by rewrite Hlen.
Qed.

Lemma completed_listing_witness :
  let rn := ended session_two_done 2 in
  let order := ["t2"; "t1"] in
  let vals := dict_values order (heap rn) (completed_tasks rn) in
  let listed := recent_completed order 1 rn in
  (task_id <$> vals) = ["t2"; "t1"] /\
  (sort_key <$> vals) = [20; 20] /\
  (task_id <$> listed) = ["t2"] /\
  get_completed_tasks order 1 rn = to_dict <$> listed /\
  Forall2
    (fun k t => exists r, completed_tasks rn !! k = Some r /\
                          heap rn !! r = Some t /\ task_id t = k)
    order vals /\
  (exists rest,
     listed ++ rest ≡ₚ vals /\
     StronglySorted newer_first (listed ++ rest) /\
     forall key, stamped key (listed ++ rest) = stamped key vals) /\
  length listed =
    (if 0 <=? 1 then Nat.min (Z.to_nat 1) (size (completed_tasks rn))
     else (size (completed_tasks rn) - Z.to_nat (- 1))%nat).
Proof.
  intros rn order vals listed.
  split; [vm_compute; reflexivity|].
  split; [vm_compute; reflexivity|].
  split; [vm_compute; reflexivity|].
  apply (completed_listing order 1 rn).
  - exists 2%nat, session_two_done. vm_compute. reflexivity.
  - split; [|vm_compute; reflexivity].
    compute_done.
Defined.

(** In every state of a session the retry counter of a task is between
    0 and [max (max_retries, 0) + 1].  A task that is not Failed has
    [retries <= max (max_retries, 0)], a Failed task has exactly
    [max (max_retries, 0) + 1]: so for a ceiling that is not negative,
    [retries] is above [max_retries] exactly when the task is Failed.
    A Retrying task has between 1 and [max_retries] failed attempts,
    and a Pending task has none. *)
Theorem retries_within_bounds (rn : TaskRunner) (r : nat) (t : Task) :
  reachable_with_stop rn -> heap rn !! r = Some t ->
  0 <= retries t <= Z.max (max_retries t) 0 + 1 /\
  (status t ≠ FAILED -> retries t <= Z.max (max_retries t) 0) /\
  (status t = FAILED -> retries t = Z.max (max_retries t) 0 + 1) /\
  (0 <= max_retries t -> (max_retries t < retries t <-> status t = FAILED)) /\
  (status t = RETRYING -> 0 < retries t <= max_retries t) /\
  (status t = PENDING -> retries t = 0).
Proof.
  intros [HI _]%reachable_with_stop_Inv Ht.
  pose proof (inv_task rn HI r t Ht) as Hok.
  pose proof (ok_retries_nonneg t Hok) as Hnn.
  split_and!.
  - done.
  - destruct (decide (status t = FAILED)) as [Hf|Hf].
    + destruct (ok_failed t Hok Hf) as [-> _]. lia.
    + pose proof (ok_not_failed t Hok Hf). lia.
  - apply (ok_not_failed t Hok).
  - intros Hf. by destruct (ok_failed t Hok Hf).
  - intros Hm. split.
    + intros Hgt. destruct (decide (status t = FAILED)) as [Hf|Hf]; [done|].
      pose proof (ok_not_failed t Hok Hf). lia.
    + intros Hf. destruct (ok_failed t Hok Hf) as [-> _]. lia.
  - apply (ok_retrying t Hok).
  - intros Hp. by destruct (ok_pending t Hok Hp).
Qed.

Lemma retries_within_bounds_witness :
  let t := mkTask "t1" "job" example_async_task MEDIUM RETRYING 10 (Some 11)
             None PyNone (Some "boom") 1 3 in
  0 <= retries t <= Z.max (max_retries t) 0 + 1 /\
  (status t ≠ FAILED -> retries t <= Z.max (max_retries t) 0) /\
  (status t = FAILED -> retries t = Z.max (max_retries t) 0 + 1) /\
  (0 <= max_retries t -> (max_retries t < retries t <-> status t = FAILED)) /\
  (status t = RETRYING -> 0 < retries t <= max_retries t) /\
  (status t = PENDING -> retries t = 0).
Proof.
  intros t.
  apply (retries_within_bounds (state_after session_retry) 0%nat t).
  - apply reachable_reachable_with_stop, reachable_state_after.
    vm_compute. by eexists.
  - vm_compute. reflexivity.
Defined.
